(** * api-resource: a shallow embedding of [src/api-resource.js]

    The development follows the source file top-down: JavaScript values and
    the object store, the helpers borrowed from [angular], the Resource
    wrapper ([AbstractResource], [Resource], [$unwrap]), the parameter
    extractor ([extractParams], [extract], [lookupDottedPath]), the action
    invoker ([performAction]) with its interceptor pipeline, and the
    generated static and instance methods.  The properties come after the
    definitions, the claims of the specification last.

    Conventions of the embedding.
    - Objects live in a store ([heap]); a JavaScript reference is a
      location, so that object identity ([===] on objects) is equality of
      locations and in-place mutation is an update of the store.
    - Own properties are kept in insertion order (an association list whose
      first binding of a key is the live one).
    - Numbers are integers; no arithmetic is performed on data by the
      library.
    - [$unwrap] and the generated [$action] methods are functions of the
      embedding.  In [$unwrap], [hasOwnProperty] is looked up on the
      wrapper it is called on, as in the source: an own property of that
      name, which a wrapper gets from its data, shadows the inherited
      method.  The checks of the configuration ([verifyConfig],
      [verifyAction]) are embedded for objects without a key of that name,
      where the method is the inherited one.  The only inherited data slot
      of the source, [proto.$$missing] of an extracted parameter object, is
      the field [proto_missing].
    - Functions of the caller (a [hasOwnProperty] among the data, a producer
      in a parameter map) read the store and either return a value or throw
      one.
    - [angular.extend] is the documented shallow copy of own enumerable
      properties; its private [$$hashKey] bookkeeping is not modelled.
    - Action definitions and the resource configuration are typed records:
      what [verifyActions] and [verifyConfig] check at factory time (an
      action is an object, [postProcess] is a function, [interceptorLimit]
      is a number not above the number of interceptors) holds by typing.
    - A promise is represented by its eventual outcome; the callbacks
      chained on it run, in chain order, when the call is settled.  The
      synchronous part of a call and its settlement are separate functions,
      so that the state in between (flag set, promise pending) can be
      observed. *)

From Stdlib Require Import ZArith String Ascii List Bool Lia DecimalString DecimalNat Sorted.
From stdpp Require Import base option list strings gmap.

Open Scope string_scope.
Open Scope list_scope.

(** ** Values and the object store *)

Abbreviation loc := nat.

Inductive value : Type :=
| VUndef
| VNull
| VBool (b : bool)
| VNum (n : Z)
| VStr (s : string)
| VFun (f : nat)
| VRef (l : loc).

#[global] Instance value_eq_dec : EqDecision value.
Proof. solve_decision. Defined.

Inductive kind : Type := KObject | KArray | KPromise.

#[global] Instance kind_eq_dec : EqDecision kind.
Proof. solve_decision. Defined.

Abbreviation props := (list (string * value)).

(** [elems] is the indexed part of an array (empty for other kinds);
    [proto_missing] tells whether the prototype of the object carries
    [$$missing = true]. *)
Record object : Type := Obj {
  okind : kind;
  elems : list value;
  oprops : props;
  proto_missing : bool
}.

Definition empty_object : object := Obj KObject [] [] false.
Definition empty_array : object := Obj KArray [] [] false.
Definition promise_object : object := Obj KPromise [] [] false.

Abbreviation heap := (list object).

Definition deref (h : heap) (l : loc) : object := default empty_object (h !! l).

Definition alloc (o : object) (h : heap) : heap * loc := (h ++ [o], length h).

Definition store (l : loc) (o : object) (h : heap) : heap := <[l := o]> h.

(** *** Property keys *)

Definition key_of_index (i : nat) : string := NilZero.string_of_uint (Nat.to_uint i).

(** A key is an array index when it is the canonical decimal numeral of a
    natural number ([arr["2"]] is an element, [arr["02"]] is not). *)
Definition index_of_key (k : string) : option nat :=
  match NilEmpty.uint_of_string k with
  | Some u => let i := Nat.of_uint u in
              if String.eqb (key_of_index i) k then Some i else None
  | None => None
  end.

Fixpoint own (ps : props) (k : string) : option value :=
  match ps with
  | [] => None
  | (k', v) :: ps' => if String.eqb k' k then Some v else own ps' k
  end.

(** [ps[k] = v]: an existing key keeps its position *)
Fixpoint set_own (k : string) (v : value) (ps : props) : props :=
  match ps with
  | [] => [(k, v)]
  | (k', v') :: ps' => if String.eqb k' k then (k, v) :: ps' else (k', v') :: set_own k v ps'
  end.

(** [delete ps[k]] *)
Fixpoint delete_own (k : string) (ps : props) : props :=
  match ps with
  | [] => []
  | (k', v) :: ps' => if String.eqb k' k then delete_own k ps' else (k', v) :: delete_own k ps'
  end.

Fixpoint index_props (i : nat) (vs : list value) : props :=
  match vs with
  | [] => []
  | v :: vs' => (key_of_index i, v) :: index_props (S i) vs'
  end.

(** own enumerable properties, in enumeration order *)
Definition own_enumerable (o : object) : props := index_props 0 (elems o) ++ oprops o.

Definition array_set (i : nat) (v : value) (vs : list value) : list value :=
  if Nat.ltb i (length vs) then <[i := v]> vs
  else vs ++ replicate (i - length vs) VUndef ++ [v].

Definition resize (n : nat) (vs : list value) : list value :=
  take n vs ++ replicate (n - length vs) VUndef.

(** [o[k]] on an object *)
Definition get_object (o : object) (k : string) : value :=
  let named :=
    match own (oprops o) k with
    | Some v => v
    | None => if proto_missing o && String.eqb k "$$missing" then VBool true else VUndef
    end in
  match okind o with
  | KArray =>
      match index_of_key k with
      | Some i => default VUndef (elems o !! i)
      | None => if String.eqb k "length" then VNum (Z.of_nat (length (elems o))) else named
      end
  | _ => named
  end.

(** [o[k] = v] on an object.  Writing an index of an array grows it; writing
    [length] with a natural number resizes it (other [length] writes, a
    RangeError in JavaScript, leave the array as it is). *)
Definition set_object (k : string) (v : value) (o : object) : object :=
  let named := Obj (okind o) (elems o) (set_own k v (oprops o)) (proto_missing o) in
  match okind o with
  | KArray =>
      match index_of_key k with
      | Some i => Obj KArray (array_set i v (elems o)) (oprops o) (proto_missing o)
      | None =>
          if String.eqb k "length" then
            match v with
            | VNum n => if Z.leb 0 n
                        then Obj KArray (resize (Z.to_nat n) (elems o)) (oprops o) (proto_missing o)
                        else o
            | _ => o
            end
          else named
      end
  | _ => named
  end.

(** [delete o[k]] for a named key *)
Definition delete_object (k : string) (o : object) : object :=
  Obj (okind o) (elems o) (delete_own k (oprops o)) (proto_missing o).

(** [o.hasOwnProperty(k)] *)
Definition has_own (o : object) (k : string) : bool :=
  match okind o, index_of_key k with
  | KArray, Some i => Nat.ltb i (length (elems o))
  | KArray, None => String.eqb k "length" || bool_decide (is_Some (own (oprops o) k))
  | _, _ => bool_decide (is_Some (own (oprops o) k))
  end.

(** [v[k]] for a value that is neither [undefined] nor [null]: properties of
    primitives are those of a string ([length] and its characters). *)
Definition get_prop (h : heap) (v : value) (k : string) : value :=
  match v with
  | VRef l => get_object (deref h l) k
  | VStr s =>
      match index_of_key k with
      | Some i => match String.get i s with
                  | Some c => VStr (String c EmptyString)
                  | None => VUndef
                  end
      | None => if String.eqb k "length" then VNum (Z.of_nat (String.length s)) else VUndef
      end
  | _ => VUndef
  end.

Definition set_prop (l : loc) (k : string) (v : value) (h : heap) : heap :=
  store l (set_object k v (deref h l)) h.

Definition delete_prop (l : loc) (k : string) (h : heap) : heap :=
  store l (delete_object k (deref h l)) h.

(** ** The helpers taken from [angular] *)

Module angular.

Definition isUndefined (v : value) : bool :=
  match v with VUndef => true | _ => false end.

Definition isDefined (v : value) : bool := negb (isUndefined v).

(** [value !== null && typeof value === 'object'] *)
Definition isObject (v : value) : bool :=
  match v with VRef _ => true | _ => false end.

Definition isArray (h : heap) (v : value) : bool :=
  match v with
  | VRef l => bool_decide (okind (deref h l) = KArray)
  | _ => false
  end.

Definition isFunction (v : value) : bool :=
  match v with VFun _ => true | _ => false end.

Definition isString (v : value) : bool :=
  match v with VStr _ => true | _ => false end.

(** [extend(dst, src)] on the property lists: every own enumerable
    property of [src] is assigned to [dst], in order. *)
Definition extend (dst : object) (src : props) : object :=
  fold_left (fun o kv => set_object (fst kv) (snd kv) o) src dst.

End angular.

Import angular.

Definition isNull (v : value) : bool :=
  match v with VNull => true | _ => false end.

(** [isUndefined(v) || v === null] *)
Definition isNullish (v : value) : bool := isUndefined v || isNull v.

(** JavaScript truthiness *)
Definition truthy (v : value) : bool :=
  match v with
  | VUndef | VNull => false
  | VBool b => b
  | VNum n => negb (Z.eqb n 0)
  | VStr s => negb (String.eqb s EmptyString)
  | VFun _ | VRef _ => true
  end.

(** [a === b] *)
Definition strict_eq (a b : value) : bool := bool_decide (a = b).

(** ** Errors, outcomes and the event log *)

Inductive error : Type :=
| MissingBodyError (name method : string)
| ExpectedArrayError (name : string)
| UnresolvedRequest (name : string)
| ExpectedTypeError (expected type : string)
| NativeTypeError    (* a TypeError raised by the language itself *)
| Raised (v : value). (* what a function of the caller has thrown *)

(** how a function of the caller completes *)
Inductive completion : Type :=
| Returns (v : value)
| Throws (v : value).

(** the reason of a rejection: an error thrown in a callback, or any value *)
Inductive reason : Type :=
| Thrown (e : error)
| Reason (v : value).

Inductive outcome : Type :=
| Fulfilled (v : value)
| Rejected (r : reason).

(** A callback receives its argument and the store; it returns the store it
    leaves behind and how the promise it returns (or its return value, or the
    exception it throws) settles. *)
Definition handler := value -> heap -> heap * outcome.
Definition ehandler := reason -> heap -> heap * outcome.

(** [HttpInterceptor] *)
Record Interceptor : Type := {
  request : option handler;
  requestError : option ehandler;
  response : option handler;
  responseError : option ehandler
}.

(** what the host is asked to run *)
Inductive event : Type :=
| Transport (config : value)
| RequestInterceptor (i : nat)
| RequestErrorInterceptor (i : nat)
| ResponseInterceptor (i : nat)
| ResponseErrorInterceptor (i : nat)
| PostProcess.

Record world : Type := World { w_heap : heap; w_log : list event }.

(** *** Synchronous code: state and exceptions *)

Inductive result (A : Type) : Type :=
| Ok (a : A) (w : world)
| Throw (e : error) (w : world).
Arguments Ok {A} a w.
Arguments Throw {A} e w.

Definition M (A : Type) : Type := world -> result A.

#[global] Instance M_ret : MRet M := fun A a w => Ok a w.
#[global] Instance M_bind : MBind M := fun A B f m w =>
  match m w with
  | Ok a w' => f a w'
  | Throw e w' => Throw e w'
  end.

Definition throw {A} (e : error) : M A := fun w => Throw e w.
Definition read {A} (f : heap -> A) : M A := fun w => Ok (f (w_heap w)) w.
Definition write (f : heap -> heap) : M unit :=
  fun w => Ok tt (World (f (w_heap w)) (w_log w)).
Definition new (o : object) : M loc :=
  fun w => let (h, l) := alloc o (w_heap w) in Ok l (World h (w_log w)).

(** ** The Resource wrapper *)

(** [AbstractResource.call(this, promise)] *)
Definition AbstractResource (this : loc) (promise : value) : M unit :=
  if strict_eq promise (VBool true) then
    write (delete_prop this "$$unresolved")
  else
    write (set_prop this "$promise" promise);;
    write (set_prop this "$$unresolved" (VBool true)).

(** [Resource.call(this, data)].  In strict mode [this] is whatever the
    caller passed; extending or assigning a property of something that is not
    an object raises a TypeError. *)
Definition Resource (this : value) (data : value) : M unit :=
  if isUndefined data || isNull data then mret tt
  else
    match this with
    | VRef l =>
        if isObject data then
          src ← read (fun h => own_enumerable (match data with VRef d => deref h d | _ => empty_object end));
          write (fun h => store l (extend (deref h l) src) h);;
          isArr ← read (fun h => isArray h data);
          if isArr : bool then
            len ← read (fun h => get_prop h data "length");
            write (set_prop l "$$length" len)
          else mret tt
        else
          write (set_prop l "$value" data)
    | _ => throw NativeTypeError
    end.

(** [new Resource(data)] *)
Definition new_Resource (data : value) : M loc :=
  this ← new empty_object;
  Resource (VRef this) data;;
  mret this.

Section Wrapper.

(** calling the function [f] of the caller on [this] with arguments *)
Variable invoke : nat -> value -> list value -> heap -> completion.

(** [this.hasOwnProperty(key)] on a wrapper: the method is looked up on the
    wrapper first, where an own property of that name shadows the one every
    object inherits; what is found is called, and only a function can be *)
Definition hasOwnProperty (this : loc) (key : string) : M bool :=
  method ← read (fun h => own (oprops (deref h this)) "hasOwnProperty");
  match method with
  | None => read (fun h => has_own (deref h this) key)
  | Some (VFun f) =>
      c ← read (invoke f (VRef this) [VStr key]);
      match c with
      | Returns v => mret (truthy v)
      | Throws v => throw (Raised v)
      end
  | Some _ => throw NativeTypeError
  end.

(** [this.$unwrap()] *)
Definition unwrap (this : loc) : M value :=
  boxed ← hasOwnProperty this "$value";
  if boxed : bool then read (fun h => get_prop h (VRef this) "$value")
  else
    isArr ← hasOwnProperty this "$$length";
    data ← new (if isArr : bool then empty_array else empty_object);
    write (fun h => store data (extend (deref h data) (own_enumerable (deref h this))) h);;
    (if isArr : bool then write (delete_prop data "$$length") else mret tt);;
    write (delete_prop data "$promise");;
    write (delete_prop data "$$unresolved");;
    mret (VRef data).

End Wrapper.

(** ** The parameter extractor *)

(** a value of a [params] / [queryParams] map: a function of the caller,
    which is called without arguments, or anything else *)
Inductive pentry : Type :=
| PFunction (f : heap -> completion)
| PValue (v : value).

(** [action.params]: a mapper string, a map, or something that is neither *)
Inductive pspec : Type :=
| PString (s : string)
| PMap (entries : list (string * pentry))
| POther.

(** [s.charAt(i)], as the one-character string or the empty one *)
Definition charAt (s : string) (i : nat) : string :=
  match String.get i s with
  | Some c => String c EmptyString
  | None => EmptyString
  end.

(** [s.slice(i)] *)
Definition slice (i : nat) (s : string) : string := substring i (String.length s - i) s.

Definition is_digit (c : ascii) : bool :=
  Nat.leb 48 (nat_of_ascii c) && Nat.leb (nat_of_ascii c) 57.

(** the match of [/^\d+/], empty when there is none *)
Fixpoint digits_prefix (s : string) : string :=
  match s with
  | String c s' => if is_digit c then String c (digits_prefix s') else EmptyString
  | EmptyString => EmptyString
  end.

(** [path.split('.')] *)
Fixpoint split_dots (s : string) : list string :=
  match s with
  | EmptyString => [EmptyString]
  | String c s' =>
      if Ascii.eqb c "."%char then EmptyString :: split_dots s'
      else match split_dots s' with
           | k :: ks => String c k :: ks
           | [] => [String c EmptyString]
           end
  end.

(** the loop of [lookupDottedPath], over the keys that remain *)
Fixpoint lookupKeys (h : heap) (obj : value) (keys : list string) : value :=
  match keys with
  | [] => obj
  | key :: keys' =>
      if isDefined obj
      then lookupKeys h (if negb (isNull obj) then get_prop h obj key else VUndef) keys'
      else obj
  end.

Definition lookupDottedPath (h : heap) (obj : value) (path : string) : value :=
  lookupKeys h obj (split_dots path).

(** [args[pos]] for a string of digits [pos] *)
Definition arg_at (args : list value) (pos : string) : value :=
  match index_of_key pos with
  | Some i => default VUndef (args !! i)
  | None => VUndef
  end.

(** the inner function [extract(str, _default)] of [extractParams]; [args]
    and [data] are the variables it closes over *)
Definition extract (h : heap) (args : list value) (data : value)
    (str : string) (_default : value) : value :=
  if String.eqb str "=" then _default
  else if String.eqb (charAt str 0) "@" then
    let str := slice 1 str in
    let pos := digits_prefix str in
    if negb (String.eqb pos EmptyString) && String.eqb pos str then arg_at args pos
    else if negb (String.eqb pos EmptyString) && String.eqb (charAt str (String.length pos)) "." then
      lookupDottedPath h (arg_at args pos) (slice (String.length pos + 1) str)
    else lookupDottedPath h data str
  else VStr str.

(** [if (isFunction(value)) value = value()]: a function runs and its result
    takes its place, unless it throws *)
Definition produce (entry : string * pentry) : M value :=
  match snd entry with
  | PFunction f =>
      c ← read f;
      match c with
      | Returns v => mret v
      | Throws v => throw (Raised v)
      end
  | PValue v => mret v
  end.

(** [isString(value) ? extract(value, data && data[key]) : value] *)
Definition mapped (args : list value) (data : value) (h : heap)
    (key : string) (val : value) : value :=
  match val with
  | VStr str => extract h args data str (if truthy data then get_prop h data key else data)
  | _ => val
  end.

(** [proto.$$missing = true] for the prototype of the object at [l] *)
Definition markMissing (l : loc) (h : heap) : heap :=
  store l (Obj (okind (deref h l)) (elems (deref h l)) (oprops (deref h l)) true) h.

(** the rest of the body of the [forEach] of [extractParams], once [value]
    is not a function any more: the assignment and the test for missing *)
Definition storeEntry (args : list value) (data : value) (extracted : loc)
    (key : string) (val : value) (h : heap) : heap :=
  let h1 := set_prop extracted key (mapped args data h key val) h in
  if isNullish (get_prop h1 (VRef extracted) key) then markMissing extracted h1 else h1.

(** [forEach(params, function (value, key) { ... })], entry by entry *)
Fixpoint extractEntries (args : list value) (data : value) (extracted : loc)
    (entries : list (string * pentry)) : M unit :=
  match entries with
  | [] => mret tt
  | entry :: rest =>
      val ← produce entry;
      write (storeEntry args data extracted (fst entry) val);;
      extractEntries args data extracted rest
  end.

Definition extractParams (params : option pspec) (args : list value) (data : value)
    : M value :=
  match params with
  | None => mret VNull
  | Some (PString str) =>
      p ← read (fun h => extract h args data str data);
      if isObject p then mret p
      else throw (ExpectedTypeError "Params for http request" "Object")
  | Some POther => throw (ExpectedTypeError "Params for http request" "Object")
  | Some (PMap entries) =>
      extracted ← new empty_object;
      extractEntries args data extracted entries;;
      mret (VRef extracted)
  end.

(** [params && params.$$missing], as a condition *)
Definition missing (h : heap) (params : value) : bool :=
  truthy params && truthy (get_prop h params "$$missing").

(** ** Action definitions *)

Module Action.

(** An [Action] of the source; [None] is an absent property. *)
Record t : Type := Make {
  method : option string;
  subRoute : option string;
  isArray : option bool;
  ignoreResponse : option bool;
  params : option pspec;
  queryParams : option pspec;
  hasData : option bool;
  postProcess : option handler;
  skipOnMissingParams : option bool
}.

Definition empty : t := Make None None None None None None None None None.

Definition override {A} (dst src : option A) : option A :=
  match src with Some _ => src | None => dst end.

(** [extend(dst, src)] on action definitions: the properties present in
    [src] replace those of [dst] *)
Definition extend (dst src : t) : t :=
  Make (override (method dst) (method src))
       (override (subRoute dst) (subRoute src))
       (override (isArray dst) (isArray src))
       (override (ignoreResponse dst) (ignoreResponse src))
       (override (params dst) (params src))
       (override (queryParams dst) (queryParams src))
       (override (hasData dst) (hasData src))
       (override (postProcess dst) (postProcess src))
       (override (skipOnMissingParams dst) (skipOnMissingParams src)).

End Action.

(** a boolean option of an action, read as a condition *)
Definition enabled (flag : option bool) : bool := default false flag.

Definition upper (c : ascii) : ascii :=
  let n := nat_of_ascii c in
  if Nat.leb 97 n && Nat.leb n 122 then ascii_of_nat (n - 32) else c.

Fixpoint uppercase (s : string) : string :=
  match s with
  | EmptyString => EmptyString
  | String c s' => String (upper c) (uppercase s')
  end.

(** [/^(POST|PUT|PATCH)$/i.test(method)] *)
Definition isBodyMethod (method : option string) : bool :=
  match method with
  | Some m =>
      let u := uppercase m in
      String.eqb u "POST" || String.eqb u "PUT" || String.eqb u "PATCH"
  | None => false
  end.

(** [url + action.subRoute] when [action.subRoute] is set (and not empty) *)
Definition withSubRoute (url : string) (subRoute : option string) : option string :=
  match subRoute with
  | Some sub => if String.eqb sub EmptyString then None else Some (url +:+ sub)
  | None => None
  end.

(** [resourceConfig] after the factory merged it: the url, the interceptor
    limit, and the other settings of [$http] (whose keys are neither [url]
    nor [interceptorLimit]) *)
Record Config : Type := {
  url : string;
  interceptorLimit : nat;
  settings : props
}.

Definition Config_props (c : Config) : props :=
  ("url", VStr (url c)) :: ("interceptorLimit", VNum (Z.of_nat (interceptorLimit c))) :: settings c.

(** what [performAction] leaves to run asynchronously *)
Inductive pending : Type :=
| Skipped
| Request (config : value) (limit : nat).

(** ** Promise chains *)

Definition settled : Type := world * outcome.

(** running a callback of the host *)
Definition callback (ev : event) (f : heap -> heap * outcome) (w : world) : settled :=
  let (h, o) := f (w_heap w) in (World h (w_log w ++ [ev]), o).

(** [promise.then(onFulfilled, onRejected)] with callbacks of the host *)
Definition andThen (evF : event) (onFulfilled : option handler)
    (evR : event) (onRejected : option ehandler) (p : settled) : settled :=
  match p with
  | (w, Fulfilled v) =>
      match onFulfilled with Some f => callback evF (f v) w | None => p end
  | (w, Rejected r) =>
      match onRejected with Some g => callback evR (g r) w | None => p end
  end.

(** [promise.then(f)] with a function of the library *)
Definition thenM (f : value -> M value) (p : settled) : settled :=
  match p with
  | (w, Fulfilled v) =>
      match f v w with
      | Ok v' w' => (w', Fulfilled v')
      | Throw e w' => (w', Rejected (Thrown e))
      end
  | (_, Rejected _) => p
  end.

(** [promise.finally(f)] with a function of the library that returns nothing *)
Definition finally (f : M unit) (p : settled) : settled :=
  match f (fst p) with
  | Ok _ w' => (w', snd p)
  | Throw e w' => (w', Rejected (Thrown e))
  end.

(** [value.member] in a callback: reading a member of [undefined] or [null]
    throws *)
Definition member (k : string) (v : value) : M value :=
  if isNullish v then throw NativeTypeError else read (fun h => get_prop h v k).

(** ** The service: [$get] and the class built by [ResourceFactory] *)

Section Service.

(** the provider state and the collaborators of the host *)
Variable actionsDefaults : gmap string Action.t.
Variable instancedInterceptors : list Interceptor.
(** [$http] *)
Variable http : handler.
(** [url.replace(pattern, value)] of the host's strings *)
Variable replace : heap -> string -> string -> value -> string.
(** calling a function of the caller *)
Variable invoke : nat -> value -> list value -> heap -> completion.

Fixpoint requestLoop (i : nat) (interceptors : list Interceptor) (promise : settled) : settled :=
  match interceptors with
  | [] => promise
  | interceptor :: rest =>
      requestLoop (S i) rest
        (andThen (RequestInterceptor i) (request interceptor)
                 (RequestErrorInterceptor i) (requestError interceptor) promise)
  end.

Definition throughRequestInterceptors (promise : settled) (limit : nat) : settled :=
  requestLoop 0 (take limit instancedInterceptors) promise.

Fixpoint responseLoop (i : nat) (interceptors : list Interceptor) (promise : settled) : settled :=
  match interceptors with
  | [] => promise
  | interceptor :: rest =>
      responseLoop (S i) rest
        (andThen (ResponseInterceptor i) (response interceptor)
                 (ResponseErrorInterceptor i) (responseError interceptor) promise)
  end.

Definition throughResponseInterceptors (promise : settled) (limit : nat) : settled :=
  responseLoop 0 (take limit instancedInterceptors) promise.

(** [promise.then(function (config) { return $http(config).then(...) })]:
    the second component is [rawResponse] after the step, [undefined] when
    the transport did not fulfil *)
Definition transport (promise : settled) : settled * value :=
  match promise with
  | (w, Fulfilled config) =>
      let p := callback (Transport config) (http config) w in
      (p, match snd p with Fulfilled response => response | Rejected _ => VUndef end)
  | (_, Rejected _) => (promise, VUndef)
  end.

(** [rawResponse === response ? response.data : response] *)
Definition unwrapResponse (rawResponse : value) (response : value) : M value :=
  if strict_eq rawResponse response then member "data" response else mret response.

(** [replaceUrlParams(url, params)] *)
Definition replaceUrlParams (h : heap) (url : string) (params : value) : string :=
  match params with
  | VRef l =>
      fold_left (fun url kv => replace h url (":" +:+ fst kv) (snd kv))
                (own_enumerable (deref h l)) url
  | _ => url
  end.

Section Actions.

Variable resourceConfig : Config.
(** the arguments of the function given to [forEach(actions, ...)] *)
Variable name : string.
Variable definition : Action.t.

(** [action = extend({method: name}, actionsDefaults[name], action)] *)
Definition action : Action.t :=
  Action.extend
    (Action.extend (Action.Make (Some name) None None None None None None None None)
                   (default Action.empty (actionsDefaults !! name)))
    definition.

Definition hasBody : bool :=
  enabled (Action.hasData action) || isBodyMethod (Action.method action).

Definition methodValue : value :=
  match Action.method action with Some m => VStr m | None => VUndef end.

(** [performAction(data, args)] up to the two extractions: the request
    configuration, [urlParams] and [queryParams] *)
Definition requestConfig (data : value) (args : list value) : M (loc * value * value) :=
  actionConfig ← new (extend (Obj KObject [] [("method", methodValue)] false)
                              (Config_props resourceConfig));
  (if hasBody then write (set_prop actionConfig "data" data) else mret tt);;
  (match withSubRoute (url resourceConfig) (Action.subRoute action) with
   | Some url1 => write (set_prop actionConfig "url" (VStr url1))
   | None => mret tt
   end);;
  let url1 := default (url resourceConfig)
                      (withSubRoute (url resourceConfig) (Action.subRoute action)) in
  urlParams ← extractParams (Action.params action) args data;
  write (fun h => set_prop actionConfig "url" (VStr (replaceUrlParams h url1 urlParams)) h);;
  queryParams ← extractParams (Action.queryParams action) args data;
  write (set_prop actionConfig "params" queryParams);;
  mret (actionConfig, urlParams, queryParams).

(** the synchronous part of [performAction(data, args)]: either the
    short-circuit [$q.when(null)], or a request left to the pipeline *)
Definition performAction (data : value) (args : list value) : M pending :=
  prepared ← requestConfig data args;
  let '(actionConfig, urlParams, queryParams) := prepared in
  skip ← read (fun h => enabled (Action.skipOnMissingParams action)
                         && (missing h urlParams || missing h queryParams));
  if skip : bool then mret Skipped
  else mret (Request (VRef actionConfig) (interceptorLimit resourceConfig)).

(** the promise of [performAction] once it went through the request
    interceptors, the transport and the response interceptors, with the
    value of [rawResponse] at that point *)
Definition responsePhase (config : value) (limit : nat) (w : world) : settled * value :=
  let promise := throughRequestInterceptors (w, Fulfilled config) limit in
  let (promise, rawResponse) := transport promise in
  (throughResponseInterceptors promise limit, rawResponse).

(** the promise returned by [performAction], run to its outcome *)
Definition settlePerformAction (p : pending) (w : world) : settled :=
  match p with
  | Skipped => (w, Fulfilled VNull)
  | Request config limit =>
      let (promise, rawResponse) := responsePhase config limit w in
      let promise := thenM (unwrapResponse rawResponse) promise in
      match Action.postProcess action with
      | Some f => andThen PostProcess (Some f) PostProcess None promise
      | None => promise
      end
  end.

(** [updateResource(resource)] *)
Definition updateResource (resource : value) (data : value) : M value :=
  if hasBody && enabled (Action.ignoreResponse action) then mret data
  else Resource resource data;; mret resource.

(** [resources[index]] on the array [resources] *)
Definition element (resources : loc) (index : nat) : M value :=
  read (fun h => default VUndef (elems (deref h resources) !! index)).

(** [modifyResource(item, index)] *)
Definition modifyResource (resources : loc) (item : value) (index : nat) : M unit :=
  this ← element resources index;
  Resource this item.

(** [pushNewResource(item)] *)
Definition pushNewResource (resources : loc) (item : value) (index : nat) : M unit :=
  r ← new_Resource item;
  write (fun h => store resources
                    (Obj (okind (deref h resources)) (elems (deref h resources) ++ [VRef r])
                         (oprops (deref h resources)) (proto_missing (deref h resources))) h).

(** [data.forEach(callback)] from index [i], for [n] more elements: the
    length is read once, each element when its turn comes *)
Fixpoint forEachFrom (data : loc) (callback : value -> nat -> M unit) (i n : nat) : M unit :=
  match n with
  | 0 => mret tt
  | S n' =>
      item ← read (fun h => elems (deref h data) !! i);
      match item with
      | Some v => callback v i
      | None => mret tt
      end;;
      forEachFrom data callback (S i) n'
  end.

Definition forEach (data : loc) (callback : value -> nat -> M unit) : M unit :=
  n ← read (fun h => length (elems (deref h data)));
  forEachFrom data callback 0 n.

(** [updateResourceArray(resources, callback)] *)
Definition updateResourceArray (resources : loc) (callback : value -> nat -> M unit)
    (data : value) : M value :=
  if hasBody && enabled (Action.ignoreResponse action) then mret data
  else
    (if isDefined data && negb (isNull data) then
       isArr ← read (fun h => isArray h data);
       if isArr : bool then
         match data with
         | VRef d => forEach d callback
         | _ => mret tt
         end
       else throw (ExpectedArrayError name)
     else mret tt);;
    mret (VRef resources).

(** [data.map(function (item) { return new Resource(item); })] *)
Fixpoint mapResource (items : list value) : M (list value) :=
  match items with
  | [] => mret []
  | item :: rest =>
      r ← new_Resource item;
      rs ← mapResource rest;
      mret (VRef r :: rs)
  end.

(** a call that has returned: what the caller holds, the wrapper (or array of
    wrappers) the promise is attached to, and the request left to settle *)
Record call : Type := Call {
  returned : value;
  target : loc;
  outstanding : pending
}.

(** [Resource[name] = function (data) { ... }] *)
Definition static (arguments : list value) : M call :=
  let data := default VUndef (arguments !! 0) in
  let args := drop (if hasBody then 1 else 0) arguments in
  data ← (if hasBody then
            if isNullish data
            then throw (MissingBodyError name (default "undefined" (Action.method action)))
            else mret data
          else mret VNull);
  if enabled (Action.isArray action) then
    resources ← (if hasBody then
                   isArr ← read (fun h => isArray h data);
                   if isArr : bool then
                     items ← read (fun h => match data with
                                            | VRef d => elems (deref h d)
                                            | _ => []
                                            end);
                     rs ← mapResource items;
                     new (Obj KArray rs [] false)
                   else throw (ExpectedArrayError name)
                 else new empty_array);
    p ← performAction data args;
    promise ← new promise_object;
    AbstractResource resources (VRef promise);;
    mret (Call (VRef resources) resources p)
  else
    resource ← new_Resource data;
    p ← performAction data args;
    promise ← new promise_object;
    AbstractResource resource (VRef promise);;
    mret (Call (VRef resource) resource p).

(** the chain [performAction(...).finally(...).then(...)] of a static call,
    run to the outcome of [$promise] *)
Definition settleStatic (c : call) (w : world) : settled :=
  let promise := settlePerformAction (outstanding c) w in
  let promise := finally (AbstractResource (target c) (VBool true)) promise in
  if enabled (Action.isArray action) then
    thenM (updateResourceArray (target c)
             (if hasBody then modifyResource (target c) else pushNewResource (target c)))
          promise
  else
    thenM (updateResource (VRef (target c))) promise.

(** [Resource.prototype['$' + name] = function () { ... }], defined for the
    actions that are not [isArray] *)
Definition instance (this : loc) (arguments : list value) : M call :=
  unresolved ← read (fun h => get_prop h (VRef this) "$$unresolved");
  if truthy unresolved then throw (UnresolvedRequest name)
  else
    data ← unwrap invoke this;
    p ← performAction data arguments;
    promise ← new promise_object;
    AbstractResource this (VRef promise);;
    mret (Call (VRef promise) this p).

Definition settleInstance (c : call) (w : world) : settled :=
  let promise := settlePerformAction (outstanding c) w in
  let promise := finally (AbstractResource (target c) (VBool true)) promise in
  thenM (updateResource (VRef (target c))) promise.

(** [Resource[name].each = function (arrdata) { ... }] *)
Fixpoint eachStatic (items : list value) : M (list call) :=
  match items with
  | [] => mret []
  | data :: rest =>
      c ← static [data];
      cs ← eachStatic rest;
      mret (c :: cs)
  end.

Definition each (arrdata : value) : M (list call) :=
  isArr ← read (fun h => isArray h arrdata);
  if isArr : bool then
    items ← read (fun h => match arrdata with VRef d => elems (deref h d) | _ => [] end);
    eachStatic items
  else throw (ExpectedTypeError ("Argument for action " +:+ name +:+ ".each") "Array").

End Actions.

End Service.


(** ** Auxiliary definitions for the properties *)

(** what an entry of a parameter map stands for when its function, if it is
    one, returns *)
Definition produced (h : heap) (entry : string * pentry) : value :=
  match snd entry with
  | PFunction f => match f h with Returns v => v | Throws _ => VUndef end
  | PValue v => v
  end.

(** the value [extractParams] stores for such an entry *)
Definition entryValue (args : list value) (data : value) (h : heap)
    (entry : string * pentry) : value :=
  mapped args data h (fst entry) (produced h entry).

(** the body of the [forEach] of [extractParams] for such an entry *)
Definition extractEntry (args : list value) (data : value) (extracted : loc)
    (h : heap) (entry : string * pentry) : heap :=
  storeEntry args data extracted (fst entry) (produced h entry) h.

(** one assignment of [extend] on a property list *)
Definition assign (ps : props) (kv : string * value) : props := set_own (fst kv) (snd kv) ps.

(** what [Resource.call(this, data)] does to the store *)
Definition merge (this : loc) (data : value) (h : heap) : heap :=
  if isNullish data then h
  else
    match data with
    | VRef d =>
        let h1 := store this (extend (deref h this) (own_enumerable (deref h d))) h in
        if isArray h1 data then set_prop this "$$length" (get_prop h1 data "length") h1 else h1
    | _ => set_prop this "$value" data h
    end.


(** the slots a wrapper keeps for itself *)
Definition reservedKey (k : string) : bool :=
  String.eqb k "$value" || String.eqb k "$$length"
  || String.eqb k "$promise" || String.eqb k "$$unresolved".

#[local] Set Warnings "-register-all".



(** the invariant of the configuration object while it is being filled *)
Definition configAt (h0 : heap) (o0 : object) (h : heap) : Prop :=
  h0 `prefix_of` h /\ length h0 < length h /\
  okind (deref h (length h0)) = KObject /\
  get_prop h (VRef (length h0)) "method" = get_object o0 "method".


(** a reference is below [n] when it points to one of the first [n] objects *)
Definition refs_below (n : nat) (v : value) : Prop :=
  match v with VRef l => l < n | _ => True end.

(** the object [o] once [Resource.call(o, item)] has run in the store [h],
    for an [item] that is not [o] itself *)
Definition mergedObject (o : object) (h : heap) (item : value) : object :=
  if isNullish item then o
  else
    match item with
    | VRef d =>
        let o1 := extend o (own_enumerable (deref h d)) in
        if isArray h item then set_object "$$length" (get_prop h item "length") o1 else o1
    | _ => set_object "$value" item o
    end.

(** the wrapper [new Resource(item)] builds in the store [h] *)
Definition wrapperOf (h : heap) (item : value) : object := mergedObject empty_object h item.

(** the store once [AbstractResource.call(target, promise)] has attached a new
    promise object to [target] *)
Definition attached (target : loc) (h : heap) : heap :=
  set_prop target "$$unresolved" (VBool true)
    (set_prop target "$promise" (VRef (length h)) (h ++ [promise_object])).

(** what an extracted parameter object [o] holds for an entry [(k, _)] of the
    map [es] whose value is [v] *)
Definition extractedEntry (o : object) (k : string) (v : value)
    (es : list (string * pentry)) : Prop :=
  okind o = KObject /\
  own (oprops o) k = Some v /\
  (isNullish v = true -> proto_missing o = true) /\
  ("$$missing" ∉ map fst es -> own (oprops o) "$$missing" = None).

(** a static call run to the outcome of its promise *)
Definition staticSettled (actionsDefaults : gmap string Action.t)
    (instancedInterceptors : list Interceptor) (http : handler)
    (replace : heap -> string -> string -> value -> string)
    (resourceConfig : Config) (name : string) (definition : Action.t)
    (arguments : list value) (w : world) : option settled :=
  match static actionsDefaults replace resourceConfig name definition arguments w with
  | Ok c w' => Some (settleStatic actionsDefaults instancedInterceptors http name definition c w')
  | Throw _ _ => None
  end.

(** the entry [k] of the query parameters of the request a call has left
    outstanding *)
Definition requestParam (k : string) (r : result call) : option value :=
  match r with
  | Ok c w =>
      match outstanding c with
      | Request config _ =>
          Some (get_prop (w_heap w) (get_prop (w_heap w) config "params") k)
      | Skipped => None
      end
  | Throw _ _ => None
  end.

(** the member [k] of the configuration of the request a call has left
    outstanding *)
Definition requestSetting (k : string) (r : result call) : option value :=
  match r with
  | Ok c w =>
      match outstanding c with
      | Request config _ => Some (get_prop (w_heap w) config k)
      | Skipped => None
      end
  | Throw _ _ => None
  end.

(** ** Concrete scenarios *)

Module Scenario.

(** [String.prototype.replace] with a string pattern: the first occurrence *)
Fixpoint replaceFirst (pattern replacement s : string) : string :=
  if String.prefix pattern s
  then replacement +:+ slice (String.length pattern) s
  else match s with
       | EmptyString => EmptyString
       | String c s' => String c (replaceFirst pattern replacement s')
       end.

Definition toText (v : value) : string :=
  match v with
  | VUndef => "undefined"
  | VNull => "null"
  | VBool true => "true"
  | VBool false => "false"
  | VNum n => NilZero.string_of_int (Z.to_int n)
  | VStr s => s
  | VFun _ => "function () {}"
  | VRef _ => "[object Object]"
  end.

Definition replace (h : heap) (url pattern : string) (v : value) : string :=
  replaceFirst pattern (toText v) url.

(** no function of the caller is among the data of the scenarios *)
Definition invoke (f : nat) (this : value) (arguments : list value) (h : heap) : completion :=
  Returns VUndef.

(** no defaults were registered with the provider *)
Definition noDefaults : gmap string Action.t := ∅.

Definition userConfig : Config :=
  {| url := "/api/user/:id"; interceptorLimit := 0; settings := [] |}.

Definition plain (ps : props) : object := Obj KObject [] ps false.
Definition array (vs : list value) : object := Obj KArray vs [] false.

(** [get: {method: 'GET', ignoreResponse: true}] *)
Definition getQuiet : Action.t :=
  Action.Make (Some "GET") None None (Some true) None None None None None.

(** [find: {params: {id: '@id'}, skipOnMissingParams: true}] *)
Definition find : Action.t :=
  Action.Make None None None None
              (Some (PMap [("id", PValue (VStr "@id"))])) None None None (Some true).

(** [save: {method: 'POST', queryParams: {id: '@2'}}] *)
Definition saveAt2 : Action.t :=
  Action.Make (Some "POST") None None None None
              (Some (PMap [("id", PValue (VStr "@2"))])) None None None.

(** [fetch: {queryParams: {id: '@2', deep: '@3.a.b'}, skipOnMissingParams: true}],
    with the method left to the defaults *)
Definition fetch : Action.t :=
  Action.Make None None None None None
              (Some (PMap [("id", PValue (VStr "@2")); ("deep", PValue (VStr "@3.a.b"))]))
              None None (Some true).

(** [saveAll: {method: 'POST', isArray: true}] *)
Definition saveAll : Action.t :=
  Action.Make (Some "POST") None (Some true) None None None None None None.

(** a store with three items (0-2), the array of them (3), four returned
    items (4-7), the array of all four (8), a response carrying it (9), the
    array of the first two (10) and a response carrying that one (11) *)
Definition store0 : heap :=
  [ plain [("a", VNum 1)]; plain [("a", VNum 2)]; plain [("a", VNum 3)];
    array [VRef 0; VRef 1; VRef 2];
    plain [("b", VNum 1)]; plain [("b", VNum 2)]; plain [("b", VNum 3)]; plain [("b", VNum 4)];
    array [VRef 4; VRef 5; VRef 6; VRef 7];
    plain [("data", VRef 8)];
    array [VRef 4; VRef 5];
    plain [("data", VRef 10)] ].

(** a transport that fulfils with the response at [l] *)
Definition respondWith (l : loc) : handler := fun _ h => (h, Fulfilled (VRef l)).

(** a transport that fulfils with a new response whose data is [{name: 'Ann'}] *)
Definition respondAnn : handler :=
  fun _ h => (h ++ [plain [("name", VStr "Ann")]; plain [("data", VRef (length h))]],
              Fulfilled (VRef (S (length h)))).

(** a transport that rejects *)
Definition refuse : handler := fun _ h => (h, Rejected (Reason (VStr "offline"))).

(** what a call that returns gives back, with the world it leaves *)
Definition returns {A} (r : result A) (fallback : A) : A * world :=
  match r with
  | Ok a w => (a, w)
  | Throw _ w => (fallback, w)
  end.

Definition noCall : call := Call VUndef 0 Skipped.

(** [Resource.get()] on an empty store *)
Definition getCalled : call * world :=
  Eval vm_compute in
    returns (static noDefaults replace userConfig "get" getQuiet [] (World [] [])) noCall.

(** [Resource.saveAll(items)], [items] being the array at 3 of [store0] *)
Definition saveAllCalled : call * world :=
  Eval vm_compute in
    returns (static noDefaults replace userConfig "saveAll" saveAll [VRef 3] (World store0 [])) noCall.

(** [Resource.find({})] on a store that holds the empty object *)
Definition findCalled : call * world :=
  Eval vm_compute in
    returns (static noDefaults replace userConfig "find" find [VRef 0] (World [plain []] [])) noCall.

(** the request configuration of [Resource.find({})] built on its own *)
Definition findConfigured : (loc * value * value) * world :=
  Eval vm_compute in
    returns (requestConfig noDefaults replace userConfig "find" find VNull [VRef 0]
                           (World [plain []] []))
            (0, VUndef, VUndef).

(** [Resource.save(body, 10, 20, 30)], [body] being the object at 0 of [store0] *)
Definition saveArguments : list value := [VRef 0; VNum 10; VNum 20; VNum 30].

Definition saveCalled : call * world :=
  Eval vm_compute in
    returns (static noDefaults replace userConfig "save" saveAt2 saveArguments (World store0 [])) noCall.

(** the request configuration of [fetch] for the arguments [(1, 2, 3, {a: 1})] *)
Definition fetchArguments : list value := [VNum 1; VNum 2; VNum 3; VRef 0].

Definition fetchConfigured : (loc * value * value) * world :=
  Eval vm_compute in
    returns (requestConfig noDefaults replace userConfig "fetch" fetch VNull fetchArguments
                           (World store0 []))
            (0, VUndef, VUndef).

(** [save: {method: 'POST', queryParams: {deep: '@3.a.b'}}] *)
Definition saveDeep : Action.t :=
  Action.Make (Some "POST") None None None None
              (Some (PMap [("deep", PValue (VStr "@3.a.b"))])) None None None.

(** a store with [{b: 7}] (0), [{a: {b: 7}}] (1) and a body (2) *)
Definition storeDeep : heap :=
  [ plain [("b", VNum 7)]; plain [("a", VRef 0)]; plain [("n", VNum 1)] ].

(** [Resource.save(body, 10, 20, {a: {b: 7}})] *)
Definition saveDeepArguments : list value := [VRef 2; VNum 10; VNum 20; VRef 1].

Definition saveDeepCalled : call * world :=
  Eval vm_compute in
    returns (static noDefaults replace userConfig "save" saveDeep saveDeepArguments
                    (World storeDeep [])) noCall.

(** [Resource.save(body, 10, 20, 30, {a: {b: 7}})] *)
Definition saveDeeperArguments : list value := [VRef 2; VNum 10; VNum 20; VNum 30; VRef 1].

Definition saveDeeperCalled : call * world :=
  Eval vm_compute in
    returns (static noDefaults replace userConfig "save" saveDeep saveDeeperArguments
                    (World storeDeep [])) noCall.

(** a store that holds [{hasOwnProperty: 1}] *)
Definition shadowing : heap := [ plain [("hasOwnProperty", VNum 1)] ].

(** an interceptor whose [responseError] recovers with [undefined] *)
Definition recovering : Interceptor :=
  {| request := None; requestError := None; response := None;
     responseError := Some (fun _ h => (h, Fulfilled VUndef)) |}.

(** the resource configuration [userConfig] with the first interceptor in use *)
Definition interceptedConfig : Config :=
  {| url := "/api/user/:id"; interceptorLimit := 1; settings := [] |}.

(** a resource configuration that names a method: [{method: 'DELETE'}] *)
Definition deletingConfig : Config :=
  {| url := "/api/user/:id"; interceptorLimit := 0; settings := [("method", VStr "DELETE")] |}.


(** [Resource.get()] on an empty store, for the resource configuration
    [interceptedConfig] *)
Definition getIntercepted : call * world :=
  Eval vm_compute in
    returns (static noDefaults replace interceptedConfig "get" getQuiet [] (World [] [])) noCall.

(** its response phase when the transport rejects and the interceptor
    [recovering] is the one in use *)
Definition recovered : settled * value :=
  Eval vm_compute in responsePhase [recovering] refuse (VRef 1) 1 (snd getIntercepted).

(** the response phase of [Resource.get()] with the transport [respondAnn] *)
Definition annResponded : settled * value :=
  Eval vm_compute in responsePhase [] respondAnn (VRef 1) 0 (snd getCalled).

(** an interceptor that unwraps the response itself *)
Definition unwrapping : Interceptor :=
  {| request := None; requestError := None;
     response := Some (fun response h => (h, Fulfilled (get_prop h response "data")));
     responseError := None |}.

Definition annUnwrapped : settled * value :=
  Eval vm_compute in responsePhase [unwrapping] respondAnn (VRef 1) 1 (snd getCalled).

(** the response phase of [Resource.get()] with a transport that rejects *)
Definition refused : settled * value :=
  Eval vm_compute in responsePhase [] refuse (VRef 1) 0 (snd getCalled).

(** the promise of the invoker of [Resource.saveAll(items)] when the
    transport responds with the array of two elements *)
Definition saveAllResponded : settled :=
  Eval vm_compute in
    settlePerformAction noDefaults [] (respondWith 11) "saveAll" saveAll
                        (outstanding (fst saveAllCalled)) (snd saveAllCalled).

(** [Resource.get()] answered by [respondAnn], up to the promise of the invoker *)
Definition getResponded : settled :=
  Eval vm_compute in
    settlePerformAction noDefaults [] respondAnn "get" getQuiet
                        (outstanding (fst getCalled)) (snd getCalled).

End Scenario.


(** ** More of the source: definitions for the further properties *)

(** [pattern] occurs in [s] *)
Fixpoint occurs (pattern s : string) : bool :=
  String.prefix pattern s
  || match s with
     | EmptyString => false
     | String _ s' => occurs pattern s'
     end.

(** the index an event of the request phase carries *)
Definition requestEventIndex (ev : event) : option nat :=
  match ev with
  | RequestInterceptor i | RequestErrorInterceptor i => Some i
  | _ => None
  end.

(** the index an event of the response phase carries *)
Definition responseEventIndex (ev : event) : option nat :=
  match ev with
  | ResponseInterceptor i | ResponseErrorInterceptor i => Some i
  | _ => None
  end.

(** the events the request loop may log: interceptor [i], below the limit,
    ran its [request] or its [requestError] *)
Definition requestEventOf (interceptors : list Interceptor) (limit : nat) (ev : event) : Prop :=
  exists i interceptor,
    i < limit /\ interceptors !! i = Some interceptor /\
    ((ev = RequestInterceptor i /\ is_Some (request interceptor)) \/
     (ev = RequestErrorInterceptor i /\ is_Some (requestError interceptor))).

(** the events the response loop may log *)
Definition responseEventOf (interceptors : list Interceptor) (limit : nat) (ev : event) : Prop :=
  exists i interceptor,
    i < limit /\ interceptors !! i = Some interceptor /\
    ((ev = ResponseInterceptor i /\ is_Some (response interceptor)) \/
     (ev = ResponseErrorInterceptor i /\ is_Some (responseError interceptor))).

(** the configuration object allocated at the end of [h0] holds [v] under
    [k] in the later store [h] *)
Definition configHolds (h0 : heap) (k : string) (v : value) (h : heap) : Prop :=
  h0 `prefix_of` h /\ length h0 < length h /\
  okind (deref h (length h0)) = KObject /\
  get_prop h (VRef (length h0)) k = v.

(** ** The provider and the factory *)

(** [angular.isNumber] *)
Definition isNumber (v : value) : bool :=
  match v with VNum _ => true | _ => false end.

(** what the configuration code throws: an error of the library, or a plain
    [Error] with its message *)
Inductive failure : Type :=
| Library (e : error)
| PlainError (message : string).

(** [verifyConfig(config, defaults)]; [None] when it returns *)
Definition verifyConfig (h : heap) (config : value) (defaultLimit : nat) : option failure :=
  if isUndefined config then None
  else if negb (isObject config)
  then Some (Library (ExpectedTypeError "Argument config" "Object"))
  else
    match config with
    | VRef c =>
        if has_own (deref h c) "interceptorLimit" then
          match get_prop h config "interceptorLimit" with
          | VNum limit =>
              if Z.ltb (Z.of_nat defaultLimit) limit
              then Some (PlainError
                           ("Property interceptorLimit for config"
                            +:+ "must be less than interceptors.length"))
              else None
          | _ => Some (Library (ExpectedTypeError "Property interceptorLimit for config" "number"))
          end
        else None
    | _ => None
    end.

(** [extend({url: baseUrl + route}, defaultConfig, resourceConfig)] *)
Definition mergedConfig (h : heap) (baseUrl route : string) (defaultLimit : nat)
    (resourceConfig : value) : object :=
  let dst := extend (Obj KObject [] [("url", VStr (baseUrl +:+ route))] false)
                    [("interceptorLimit", VNum (Z.of_nat defaultLimit))] in
  match resourceConfig with
  | VRef c => extend dst (own_enumerable (deref h c))
  | _ => dst
  end.

(** [ResourceFactory(route, actions, resourceConfig)] up to the merged
    configuration, for a [route] that is a string and [actions] that pass
    their verification; [instancedInterceptors] is what [$get] has built *)
Definition ResourceFactory (h : heap) (baseUrl : string)
    (instancedInterceptors : list Interceptor) (route : string) (resourceConfig : value)
    : failure + object :=
  if String.eqb route EmptyString then inl (PlainError "Argument route is missing")
  else
    match verifyConfig h resourceConfig (length instancedInterceptors) with
    | Some f => inl f
    | None => inr (mergedConfig h baseUrl route (length instancedInterceptors) resourceConfig)
    end.

(** ** The verification of action definitions *)

Section Verification.

(** [value.toString()] of the host, for a value that is neither [undefined]
    nor [null] *)
Variable toString : heap -> value -> string.
(** the keys [angular.forEach] enumerates on an object *)
Variable keysOf : heap -> loc -> list string.

(** [verifyAction(action, name)] *)
Definition verifyAction (action : value) (name : string) : M unit :=
  match action with
  | VRef a =>
      hasSubRoute ← read (fun h => has_own (deref h a) "subRoute");
      subRoute ← read (fun h => get_prop h action "subRoute");
      (if hasSubRoute && negb (isString subRoute) then
         if isNullish subRoute then throw NativeTypeError
         else write (fun h => set_prop a "subRoute" (VStr (toString h subRoute)) h)
       else mret tt);;
      hasPostProcess ← read (fun h => has_own (deref h a) "postProcess");
      postProcess ← read (fun h => get_prop h action "postProcess");
      if hasPostProcess && negb (isFunction postProcess)
      then throw (ExpectedTypeError ("Property postProcess for action " +:+ name) "function")
      else mret tt
  | _ => throw (ExpectedTypeError ("Options for action " +:+ name) "Object")
  end.

(** the iteration of [forEach(actions, verifyAction)] over the keys that
    remain; each member is read when its turn comes *)
Fixpoint verifyEach (actions : loc) (keys : list string) : M unit :=
  match keys with
  | [] => mret tt
  | key :: rest =>
      action ← read (fun h => get_prop h (VRef actions) key);
      verifyAction action key;;
      verifyEach actions rest
  end.

(** [verifyActions(actions)] *)
Definition verifyActions (actions : value) : M unit :=
  match actions with
  | VRef l =>
      keys ← read (fun h => keysOf h l);
      verifyEach l keys
  | _ => throw (ExpectedTypeError "Argument actions" "Object")
  end.

End Verification.

(** what a verified action definition satisfies: an own [subRoute] is a
    string and an own [postProcess] a function *)
Definition verified (h : heap) (a : loc) : Prop :=
  (forall v, own (oprops (deref h a)) "subRoute" = Some v -> isString v = true) /\
  (forall v, own (oprops (deref h a)) "postProcess" = Some v -> isFunction v = true).

(** ** Further concrete scenarios *)

Module Cases.

(** [list: {method: 'GET', isArray: true}] *)
Definition listAll : Action.t :=
  Action.Make (Some "GET") None (Some true) None None None None None None.

(** [Resource.list()] on [store0] *)
Definition listCalled : call * world :=
  Eval vm_compute in
    Scenario.returns (static Scenario.noDefaults Scenario.replace Scenario.userConfig
                             "list" listAll [] (World Scenario.store0 [])) Scenario.noCall.

(** the promise of the invoker of [Resource.list()] when the transport
    responds with the array of four elements *)
Definition listResponded : settled :=
  Eval vm_compute in
    settlePerformAction Scenario.noDefaults [] (Scenario.respondWith 9) "list" listAll
                        (outstanding (fst listCalled)) (snd listCalled).

(** [Resource.save.each(items)], [items] being the array at 3 of [store0] *)
Definition saveEach : list call * world :=
  Eval vm_compute in
    Scenario.returns (each Scenario.noDefaults Scenario.replace Scenario.userConfig
                           "save" Scenario.saveAt2 (VRef 3) (World Scenario.store0 [])) [].

(** a wrapper holding [{id: 5}], and [wrapper.$get()] on it *)
Definition wrapped : heap := [Scenario.plain [("id", VNum 5)]].

Definition getInstanceCalled : call * world :=
  Eval vm_compute in
    Scenario.returns (instance Scenario.noDefaults Scenario.replace Scenario.invoke Scenario.userConfig
                               "get" Scenario.getQuiet 0 [] (World wrapped [])) Scenario.noCall.

(** the configuration [{interceptorLimit: 1, timeout: 500}] given to the
    factory, with two interceptors instanced *)
Definition limited : heap :=
  [Scenario.plain [("interceptorLimit", VNum 1); ("timeout", VNum 500)]].

Definition twoInterceptors : list Interceptor :=
  [Scenario.unwrapping; Scenario.unwrapping].

Definition limitedMerged : object :=
  Eval vm_compute in
    match ResourceFactory limited "/api" twoInterceptors "/user" (VRef 0) with
    | inr merged => merged
    | inl _ => empty_object
    end.

(** the string form of a value, and the enumeration of the own keys *)
Definition toString (h : heap) (v : value) : string := Scenario.toText v.

Definition keysOf (h : heap) (l : loc) : list string := map fst (own_enumerable (deref h l)).

(** the definitions [{get: {subRoute: 7, postProcess: function}}] *)
Definition definitions : heap :=
  [Scenario.plain [("subRoute", VNum 7); ("postProcess", VFun 0)];
   Scenario.plain [("get", VRef 0)]].

Definition definitionsVerified : world :=
  Eval vm_compute in
    snd (Scenario.returns (verifyActions toString keysOf (VRef 1) (World definitions [])) tt).

End Cases.
(** * Properties *)

(** ** Own properties *)

Lemma own_set_own_eq k v ps : own (set_own k v ps) k = Some v.
Proof.
  induction ps as [|[k' v'] ps IH]; simpl.
  - by rewrite String.eqb_refl.
  - destruct (String.eqb k' k) eqn:E; simpl.
    + by rewrite String.eqb_refl.
    + by rewrite E.
Qed.

Lemma own_set_own_ne k k' v ps : k <> k' -> own (set_own k v ps) k' = own ps k'.
Proof.
  intros Hne. induction ps as [|[k0 v0] ps IH]; simpl.
  - apply String.eqb_neq in Hne. by rewrite Hne.
  - destruct (String.eqb k0 k) eqn:E; simpl.
    + apply String.eqb_eq in E. subst k0.
      apply String.eqb_neq in Hne. by rewrite Hne.
    + by rewrite IH.
Qed.

Lemma own_delete_own_eq k ps : own (delete_own k ps) k = None.
Proof.
  induction ps as [|[k' v'] ps IH]; [done|].
  simpl. destruct (String.eqb k' k) eqn:E; simpl; [done|].
  by rewrite E.
Qed.

Lemma own_delete_own_ne k k' ps : k <> k' -> own (delete_own k ps) k' = own ps k'.
Proof.
  intros Hne. induction ps as [|[k0 v0] ps IH]; [done|].
  simpl. destruct (String.eqb k0 k) eqn:E; simpl.
  - apply String.eqb_eq in E. subst k0. apply String.eqb_neq in Hne.
    by rewrite Hne.
  - by rewrite IH.
Qed.

Lemma own_None_notin ps k : own ps k = None <-> k ∉ map fst ps.
Proof.
  induction ps as [|[k' v'] ps IH]; simpl.
  - split; [intros _; apply not_elem_of_nil | done].
  - rewrite not_elem_of_cons. destruct (String.eqb_spec k' k) as [->|Hne].
    + split; [done | intros [? _]; done].
    + rewrite IH. split; [intros ?; split; congruence | intros [_ ?]; done].
Qed.

Lemma set_own_fresh k v ps : own ps k = None -> set_own k v ps = ps ++ [(k, v)].
Proof.
  induction ps as [|[k' v'] ps IH]; simpl; [done|].
  destruct (String.eqb k' k); [done|]. intros H. by rewrite IH.
Qed.


Lemma own_app ps qs k :
  own (ps ++ qs) k = match own ps k with Some v => Some v | None => own qs k end.
Proof.
  induction ps as [|[k' v'] ps IH]; simpl; [done|].
  by destruct (String.eqb k' k).
Qed.

(** ** The store *)

Lemma deref_store_eq l o h : l < length h -> deref (store l o h) l = o.
Proof. intros H. unfold deref, store. by rewrite list_lookup_insert_eq. Qed.

Lemma deref_store_ne l l' o h : l <> l' -> deref (store l o h) l' = deref h l'.
Proof. intros H. unfold deref, store. by rewrite list_lookup_insert_ne. Qed.

Lemma length_store l o h : length (store l o h) = length h.
Proof. apply length_insert. Qed.

Lemma deref_alloc_new o h : deref (h ++ [o]) (length h) = o.
Proof. unfold deref. by rewrite list_lookup_middle. Qed.

Lemma deref_alloc_old o h l : l < length h -> deref (h ++ [o]) l = deref h l.
Proof. intros H. unfold deref. by rewrite lookup_app_l. Qed.

(** ** Stepping through synchronous code *)

Lemma bind_Ok {A B} (m : M A) (f : A -> M B) w a w' :
  m w = Ok a w' -> (m ≫= f) w = f a w'.
Proof. intros H. unfold mbind, M_bind. by rewrite H. Qed.

Lemma bind_inv {A B} (m : M A) (f : A -> M B) w b w'' :
  (m ≫= f) w = Ok b w'' -> exists a w', m w = Ok a w' /\ f a w' = Ok b w''.
Proof.
  unfold mbind, M_bind. destruct (m w) as [a w'|e w'] eqn:E; [|done].
  intros H. by exists a, w'.
Qed.

Ltac mstep :=
  unfold mbind, M_bind, mret, M_ret, read, write, new, throw, alloc in *;
  cbn [w_heap w_log fst snd] in *.


Lemma store_last h o o' : store (length h) o' (h ++ [o]) = h ++ [o'].
Proof.
  unfold store. rewrite insert_app_r_alt; [|lia]. by rewrite Nat.sub_diag.
Qed.

Lemma set_prop_last h o k v : set_prop (length h) k v (h ++ [o]) = h ++ [set_object k v o].
Proof. unfold set_prop. by rewrite deref_alloc_new, store_last. Qed.

Lemma delete_prop_last h o k : delete_prop (length h) k (h ++ [o]) = h ++ [delete_object k o].
Proof. unfold delete_prop. by rewrite deref_alloc_new, store_last. Qed.

Lemma deref_Some h l o : h !! l = Some o -> deref h l = o.
Proof. intros H. unfold deref. by rewrite H. Qed.

(** ** [angular.extend] on plain objects *)


Lemma extend_object o xs :
  okind o = KObject ->
  extend o xs = Obj KObject (elems o) (fold_left assign xs (oprops o)) (proto_missing o).
Proof.
  revert o. induction xs as [|[k v] xs IH]; intros o Hk; simpl.
  - destruct o; simpl in *; by subst.
  - unfold extend in *. simpl. rewrite IH.
    + unfold set_object. rewrite Hk. done.
    + unfold set_object. by rewrite Hk.
Qed.

Lemma fold_assign_fresh xs ps :
  NoDup (map fst xs) ->
  (forall k, k ∈ map fst xs -> own ps k = None) ->
  fold_left assign xs ps = ps ++ xs.
Proof.
  revert ps. induction xs as [|[k v] xs IH]; intros ps Hnd Hfresh; simpl.
  - by rewrite app_nil_r.
  - simpl in Hnd. apply NoDup_cons in Hnd as [Hk Hnd].
    unfold assign at 2. simpl. rewrite set_own_fresh.
    + rewrite IH; [by rewrite <- app_assoc | done |].
      intros k' Hk'. rewrite own_app, Hfresh; [|simpl; apply elem_of_cons; by right].
      simpl. destruct (String.eqb_spec k k') as [->|]; [done|done].
    + apply Hfresh. simpl. apply elem_of_cons; by left.
Qed.

Lemma own_fold_assign_other xs ps k :
  k ∉ map fst xs -> own (fold_left assign xs ps) k = own ps k.
Proof.
  revert ps. induction xs as [|[k' v'] xs IH]; intros ps Hk; simpl; [done|].
  simpl in Hk. apply not_elem_of_cons in Hk as [Hne Hk].
  rewrite IH; [|done]. unfold assign. simpl. by apply own_set_own_ne.
Qed.

Lemma own_fold_assign xs ps k v :
  NoDup (map fst xs) -> own xs k = Some v -> own (fold_left assign xs ps) k = Some v.
Proof.
  revert ps. induction xs as [|[k' v'] xs IH]; intros ps Hnd Hown; simpl in *; [done|].
  apply NoDup_cons in Hnd as [Hk' Hnd].
  destruct (String.eqb_spec k' k) as [->|Hne].
  - injection Hown as ->. rewrite own_fold_assign_other; [|done].
    unfold assign. simpl. apply own_set_own_eq.
  - by apply IH.
Qed.

(** ** [Resource] and [$unwrap] on plain objects and primitives *)

Lemma Resource_merge this data w :
  Resource (VRef this) data w = Ok tt (World (merge this data (w_heap w)) (w_log w)).
Proof.
  unfold Resource, merge, isNullish. destruct w as [h lg].
  destruct data; simpl; try reflexivity.
  mstep. destruct (bool_decide _); reflexivity.
Qed.

Lemma new_Resource_merge data w :
  new_Resource data w
  = Ok (length (w_heap w))
       (World (merge (length (w_heap w)) data (w_heap w ++ [empty_object])) (w_log w)).
Proof.
  unfold new_Resource. mstep. rewrite Resource_merge. reflexivity.
Qed.

Lemma length_set_prop l k v h : length (set_prop l k v h) = length h.
Proof. apply length_store. Qed.

Lemma length_delete_prop l k h : length (delete_prop l k h) = length h.
Proof. apply length_store. Qed.

Lemma length_merge this data h : length (merge this data h) = length h.
Proof.
  unfold merge. destruct (isNullish data); [done|].
  destruct data; rewrite ?length_set_prop; try done.
  destruct (isArray _ _); rewrite ?length_set_prop, ?length_store; done.
Qed.

Lemma deref_set_prop_ne l l' k v h : l <> l' -> deref (set_prop l k v h) l' = deref h l'.
Proof. apply deref_store_ne. Qed.

Lemma deref_delete_prop_ne l l' k h : l <> l' -> deref (delete_prop l k h) l' = deref h l'.
Proof. apply deref_store_ne. Qed.

(** merging touches the wrapper only *)
Lemma deref_merge_ne this data h l : this <> l -> deref (merge this data h) l = deref h l.
Proof.
  intros Hne. unfold merge. destruct (isNullish data); [done|].
  destruct data; rewrite ?deref_set_prop_ne; try done.
  destruct (isArray _ _); rewrite ?deref_set_prop_ne, ?deref_store_ne; done.
Qed.



Lemma has_own_object o k :
  okind o = KObject -> has_own o k = bool_decide (is_Some (own (oprops o) k)).
Proof. intros H. unfold has_own. by rewrite H. Qed.

(** on an object that has no own [hasOwnProperty], the inherited method
    answers *)
Lemma hasOwnProperty_inherited invoke this key w :
  own (oprops (deref (w_heap w) this)) "hasOwnProperty" = None ->
  hasOwnProperty invoke this key w = Ok (has_own (deref (w_heap w) this) key) w.
Proof. intros H. unfold hasOwnProperty. mstep. by rewrite H. Qed.



(** ** Construct, then unwrap *)






(** ** Frame properties: what synchronous code leaves alone *)

Lemma prefix_store (h0 h : heap) l o :
  h0 `prefix_of` h -> length h0 <= l -> h0 `prefix_of` store l o h.
Proof.
  intros [ext ->] Hl. exists (<[l - length h0 := o]> ext).
  unfold store. by rewrite insert_app_r_alt.
Qed.

Lemma prefix_alloc (h0 h : heap) o : h0 `prefix_of` h -> h0 `prefix_of` h ++ [o].
Proof. intros H. by apply prefix_app_r. Qed.

Lemma prefix_deref (h0 h : heap) l : h0 `prefix_of` h -> l < length h0 -> deref h l = deref h0 l.
Proof.
  intros [ext ->] Hl. unfold deref. by rewrite lookup_app_l.
Qed.

Lemma prefix_merge (h0 h : heap) l data :
  h0 `prefix_of` h -> length h0 <= l -> h0 `prefix_of` merge l data h.
Proof.
  intros Hp Hl. unfold merge. destruct (isNullish data); [done|].
  destruct data; try (by apply prefix_store).
  destruct (isArray _ _); unfold set_prop; repeat apply prefix_store; done.
Qed.

Lemma prefix_storeEntry (h0 h : heap) args data l k v :
  h0 `prefix_of` h -> length h0 <= l -> h0 `prefix_of` storeEntry args data l k v h.
Proof.
  intros Hp Hl. unfold storeEntry, markMissing.
  destruct (isNullish _); unfold set_prop; repeat apply prefix_store; done.
Qed.

Lemma prefix_extractEntry (h0 h : heap) args data l e :
  h0 `prefix_of` h -> length h0 <= l -> h0 `prefix_of` extractEntry args data l h e.
Proof. apply prefix_storeEntry. Qed.

Lemma prefix_extractEntries (h0 h : heap) args data l es :
  h0 `prefix_of` h -> length h0 <= l ->
  h0 `prefix_of` fold_left (extractEntry args data l) es h.
Proof.
  revert h. induction es as [|e es IH]; intros h Hp Hl; simpl; [done|].
  apply IH; [|done]. by apply prefix_extractEntry.
Qed.

(** a function of an entry that returns, and one that throws *)
Lemma produce_Ok entry w v w' :
  produce entry w = Ok v w' -> w' = w /\ v = produced (w_heap w) entry.
Proof.
  unfold produce, produced. destruct (snd entry) as [f|v0]; mstep.
  - destruct (f (w_heap w)); [|done]. by intros [= <- <-].
  - by intros [= <- <-].
Qed.

Lemma produce_Throw entry w e w' :
  produce entry w = Throw e w' ->
  w' = w /\ exists f v, snd entry = PFunction f /\ f (w_heap w) = Throws v /\ e = Raised v.
Proof.
  unfold produce. destruct (snd entry) as [f|v0]; mstep; [|done].
  destruct (f (w_heap w)) as [v|v] eqn:E; [done|].
  intros [= <- <-]. split; [done|]. by exists f, v.
Qed.

(** the loop over the entries when every function returns: the fold of the
    bodies *)
Lemma extractEntries_Ok args data l es : forall w w',
  extractEntries args data l es w = Ok tt w' ->
  w' = World (fold_left (extractEntry args data l) es (w_heap w)) (w_log w).
Proof.
  induction es as [|e es IH]; intros w w' H.
  - injection H as <-. by destruct w.
  - cbn [extractEntries] in H. unfold mbind at 1, M_bind at 1 in H.
    destruct (produce e w) as [v w1|] eqn:Ep; [|done].
    apply produce_Ok in Ep as [-> ->]. mstep.
    apply IH in H as ->. reflexivity.
Qed.

(** the loop over the entries when a function throws: what it threw is what
    the loop throws, and the store has only grown *)
Lemma extractEntries_Throw args data l es : forall (h0 : heap) w e w',
  h0 `prefix_of` w_heap w -> length h0 <= l ->
  extractEntries args data l es w = Throw e w' ->
  (exists k f h v, (k, PFunction f) ∈ es /\ f h = Throws v /\ e = Raised v) /\
  w_log w' = w_log w /\ h0 `prefix_of` w_heap w'.
Proof.
  induction es as [|e0 es IH]; intros h0 w e w' Hp Hl H; [done|].
  cbn [extractEntries] in H. unfold mbind at 1, M_bind at 1 in H.
  destruct (produce e0 w) as [v w1|e1 w1] eqn:Ep.
  - apply produce_Ok in Ep as [-> ->]. mstep.
    eapply IH in H as ((k & f & h & v & Hin & Hf & He) & Hlg & Hp');
      [|by apply prefix_storeEntry|done].
    split; [|done]. exists k, f, h, v. split; [|done]. apply elem_of_cons. by right.
  - apply produce_Throw in Ep as (-> & f & v & Hf & Hv & ->). injection H as <- <-.
    split; [|done]. exists (fst e0), f, (w_heap w), v. split; [|done].
    apply elem_of_cons. left. destruct e0 as [k0 p0]. cbn [fst snd] in *. by subst p0.
Qed.

Lemma extractParams_frame params args data w v w' :
  extractParams params args data w = Ok v w' ->
  w_log w' = w_log w /\ w_heap w `prefix_of` w_heap w'.
Proof.
  unfold extractParams. destruct params as [[str|es|]|]; mstep.
  - destruct (isObject _); [|done]. intros [= <- <-]. done.
  - destruct (extractEntries _ _ _ _ _) as [[] w1|] eqn:E; [|done].
    apply extractEntries_Ok in E as ->. intros [= <- <-]. split; [done|]. simpl.
    apply prefix_extractEntries; [by apply prefix_app_r | done].
  - done.
  - intros [= <- <-]. done.
Qed.

(** the extraction throws the type error of the parameters, or what a
    function among the entries threw; the store has only grown *)
Lemma extractParams_throws params args data w e w' :
  extractParams params args data w = Throw e w' ->
  (e = ExpectedTypeError "Params for http request" "Object" \/
   exists es k f h v, params = Some (PMap es) /\ (k, PFunction f) ∈ es /\
                      f h = Throws v /\ e = Raised v) /\
  w_log w' = w_log w /\ w_heap w `prefix_of` w_heap w'.
Proof.
  unfold extractParams. destruct params as [[str|es|]|]; mstep; try done.
  - destruct (isObject _); [done|]. intros [= <- <-]. split; [by left|done].
  - destruct (extractEntries _ _ _ _ _) as [[] w1|e1 w1] eqn:E; [done|].
    intros [= <- <-].
    eapply extractEntries_Throw in E as ((k & f & h & v & Hin & Hf & He) & Hlg & Hp);
      [|by apply prefix_app_r|done].
    split; [|done]. right. by exists es, k, f, h, v.
  - intros [= <- <-]. split; [by left|done].
Qed.

(** ** The extractor on a map of parameters *)

Lemma get_object_own o k v :
  okind o = KObject -> own (oprops o) k = Some v -> get_object o k = v.
Proof. intros Hk Ho. unfold get_object. by rewrite Hk, Ho. Qed.

Lemma extractEntry_object args data l h e :
  l < length h -> okind (deref h l) = KObject ->
  extractEntry args data l h e
  = store l (Obj KObject (elems (deref h l))
                 (set_own (fst e) (entryValue args data h e) (oprops (deref h l)))
                 (proto_missing (deref h l) || isNullish (entryValue args data h e))) h.
Proof.
  intros Hl Hk. unfold extractEntry, storeEntry, markMissing, set_prop.
  fold (entryValue args data h e).
  set (v := entryValue args data h e).
  assert (l < length (store l (set_object (fst e) v (deref h l)) h)) as Hl'
      by (by rewrite length_store).
  unfold get_prop. rewrite !deref_store_eq by done.
  unfold set_object at 1. rewrite Hk.
  rewrite (get_object_own _ _ v); [|done|simpl; apply own_set_own_eq].
  unfold set_object. rewrite Hk. simpl. unfold store.
  destruct (isNullish v).
  - rewrite list_insert_insert_eq. by rewrite orb_true_r.
  - by rewrite orb_false_r.
Qed.

(** the entries that follow leave a key they do not mention, and a raised
    flag, as they are *)
Lemma extractEntries_other args data l es h :
  l < length h -> okind (deref h l) = KObject ->
  let h' := fold_left (extractEntry args data l) es h in
  length h' = length h /\
  okind (deref h' l) = KObject /\
  (forall x, x <> l -> deref h' x = deref h x) /\
  (proto_missing (deref h l) = true -> proto_missing (deref h' l) = true) /\
  (forall k, k ∉ map fst es -> own (oprops (deref h' l)) k = own (oprops (deref h l)) k).
Proof.
  revert h. induction es as [|e es IH]; intros h Hl Hk; simpl; [done|].
  set (h1 := extractEntry args data l h e).
  assert (h1 = store l (Obj KObject (elems (deref h l))
                 (set_own (fst e) (entryValue args data h e) (oprops (deref h l)))
                 (proto_missing (deref h l) || isNullish (entryValue args data h e))) h) as E1
      by (by apply extractEntry_object).
  assert (length h1 = length h) as Hlen by (by rewrite E1, length_store).
  assert (deref h1 l = Obj KObject (elems (deref h l))
                 (set_own (fst e) (entryValue args data h e) (oprops (deref h l)))
                 (proto_missing (deref h l) || isNullish (entryValue args data h e))) as Hd1
      by (by rewrite E1, deref_store_eq).
  destruct (IH h1) as (Hlen' & Hk' & Hother & Hpm & Hown).
  { lia. } { by rewrite Hd1. }
  split; [lia|]. split; [done|]. split.
  { intros x Hx. rewrite Hother by done. rewrite E1. by apply deref_store_ne. }
  split.
  { intros Hm. apply Hpm. rewrite Hd1. simpl. by rewrite Hm. }
  intros k Hnotin. apply not_elem_of_cons in Hnotin as [Hne Hnotin].
  rewrite Hown by done. rewrite Hd1. simpl. by apply own_set_own_ne.
Qed.

(** the value of an entry whose key is declared once, when the store it is
    computed in does not matter beyond the object being filled *)
Lemma extractEntries_entry args data l es h k e v :
  l < length h -> okind (deref h l) = KObject ->
  (k, e) ∈ es -> NoDup (map fst es) ->
  (forall h', length h' = length h -> (forall x, x <> l -> deref h' x = deref h x) ->
              entryValue args data h' (k, e) = v) ->
  let h' := fold_left (extractEntry args data l) es h in
  own (oprops (deref h' l)) k = Some v /\
  (isNullish v = true -> proto_missing (deref h' l) = true).
Proof.
  revert h. induction es as [|e0 es IH]; intros h Hl Hk Hin Hnd Hval; simpl.
  { by apply elem_of_nil in Hin. }
  simpl in Hnd. apply NoDup_cons in Hnd as [Hfresh Hnd].
  set (h1 := extractEntry args data l h e0).
  assert (h1 = store l (Obj KObject (elems (deref h l))
                 (set_own (fst e0) (entryValue args data h e0) (oprops (deref h l)))
                 (proto_missing (deref h l) || isNullish (entryValue args data h e0))) h) as E1
      by (by apply extractEntry_object).
  assert (length h1 = length h) as Hlen by (by rewrite E1, length_store).
  assert (deref h1 l = Obj KObject (elems (deref h l))
                 (set_own (fst e0) (entryValue args data h e0) (oprops (deref h l)))
                 (proto_missing (deref h l) || isNullish (entryValue args data h e0))) as Hd1
      by (by rewrite E1, deref_store_eq).
  assert (forall x, x <> l -> deref h1 x = deref h x) as Hsame
      by (intros x Hx; rewrite E1; by apply deref_store_ne).
  apply elem_of_cons in Hin as [<-|Hin].
  - destruct (extractEntries_other args data l es h1) as (_ & _ & _ & Hpm & Hown).
    { lia. } { by rewrite Hd1. }
    simpl in Hfresh. fold h1. rewrite Hown by done. rewrite Hd1. simpl.
    rewrite (Hval h) by done. split; [apply own_set_own_eq|].
    intros Hn. apply Hpm. rewrite Hd1. simpl. rewrite (Hval h) by done.
    rewrite Hn. apply orb_true_r.
  - apply (IH h1); try done; [lia | by rewrite Hd1 |].
    intros h' Hlen' Hsame'. apply Hval; [lia|].
    intros x Hx. rewrite Hsame' by done. by apply Hsame.
Qed.

Lemma extractParams_map es args data w v w' :
  extractParams (Some (PMap es)) args data w = Ok v w' ->
  v = VRef (length (w_heap w)) /\
  w' = World (fold_left (extractEntry args data (length (w_heap w))) es
                        (w_heap w ++ [empty_object])) (w_log w).
Proof.
  unfold extractParams. mstep.
  destruct (extractEntries _ _ _ _ _) as [[] w1|] eqn:E; [|done].
  apply extractEntries_Ok in E as ->. by intros [= <- <-].
Qed.

(** ** The request configuration *)

Lemma get_prop_set_prop_eq h l k v :
  l < length h -> okind (deref h l) = KObject ->
  get_prop (set_prop l k v h) (VRef l) k = v.
Proof.
  intros Hl Hk. unfold get_prop, set_prop. rewrite deref_store_eq by done.
  apply get_object_own; unfold set_object; rewrite Hk; simpl; [done|apply own_set_own_eq].
Qed.

Lemma get_prop_set_prop_ne h l k k' v :
  l < length h -> okind (deref h l) = KObject -> k <> k' ->
  get_prop (set_prop l k v h) (VRef l) k' = get_prop h (VRef l) k'.
Proof.
  intros Hl Hk Hne. unfold get_prop, set_prop. rewrite deref_store_eq by done.
  unfold get_object, set_object. rewrite Hk. simpl. by rewrite own_set_own_ne.
Qed.

Lemma okind_set_prop h l k v l' :
  okind (deref (set_prop l k v h) l') = okind (deref h l').
Proof.
  unfold set_prop. destruct (decide (l = l')) as [<-|Hne].
  - destruct (decide (l < length h)) as [Hl|Hl].
    + rewrite deref_store_eq by done. unfold set_object.
      destruct (okind (deref h l)) eqn:E; simpl; try done.
      destruct (index_of_key k); [done|]. destruct (String.eqb k "length"); [|done].
      destruct v; try done. by destruct (Z.leb 0 n).
    + unfold store. rewrite list_insert_ge by lia. done.
  - by rewrite deref_store_ne.
Qed.

Lemma get_prop_other_store h l o l' k :
  l <> l' -> get_prop (store l o h) (VRef l') k = get_prop h (VRef l') k.
Proof. intros Hne. unfold get_prop. by rewrite deref_store_ne. Qed.

Section ActionFacts.

Variable actionsDefaults : gmap string Action.t.
Variable instancedInterceptors : list Interceptor.
Variable http : handler.
Variable replace : heap -> string -> string -> value -> string.
Variable invoke : nat -> value -> list value -> heap -> completion.
Variable resourceConfig : Config.
Variable name : string.
Variable definition : Action.t.

#[local] Abbreviation the_action := (action actionsDefaults name definition).
#[local] Abbreviation has_body := (hasBody actionsDefaults name definition).
#[local] Abbreviation method_value := (methodValue actionsDefaults name definition).
#[local] Abbreviation request_config :=
  (requestConfig actionsDefaults replace resourceConfig name definition).
#[local] Abbreviation perform_action :=
  (performAction actionsDefaults replace resourceConfig name definition).

Lemma configAt_alloc h0 o0 : okind o0 = KObject -> configAt h0 o0 (h0 ++ [o0]).
Proof.
  intros Hk. unfold configAt. rewrite length_app. simpl.
  split; [by apply prefix_app_r|]. split; [lia|].
  unfold get_prop. by rewrite deref_alloc_new.
Qed.

Lemma configAt_set_prop h0 o0 h k v :
  k <> "method" -> configAt h0 o0 h -> configAt h0 o0 (set_prop (length h0) k v h).
Proof.
  intros Hne (Hp & Hl & Hk & Hm). unfold configAt.
  rewrite length_set_prop, okind_set_prop.
  split; [by apply prefix_store|]. split; [done|]. split; [done|].
  by rewrite get_prop_set_prop_ne.
Qed.

Lemma configAt_prefix h0 o0 h h' :
  h `prefix_of` h' -> configAt h0 o0 h -> configAt h0 o0 h'.
Proof.
  intros Hp (Hp0 & Hl & Hk & Hm). unfold configAt.
  pose proof (prefix_length _ _ Hp).
  split; [by etrans|]. split; [lia|].
  unfold get_prop in *. rewrite (prefix_deref h h') by done. done.
Qed.

Lemma requestConfig_inv data args w r w' :
  request_config data args w = Ok r w' ->
  exists h1 up w2 url2 qp w3,
    configAt (w_heap w)
      (extend (Obj KObject [] [("method", method_value)] false) (Config_props resourceConfig)) h1 /\
    extractParams (Action.params the_action) args data (World h1 (w_log w)) = Ok up w2 /\
    extractParams (Action.queryParams the_action) args data
      (World (set_prop (length (w_heap w)) "url" url2 (w_heap w2)) (w_log w2)) = Ok qp w3 /\
    r = (length (w_heap w), up, qp) /\
    w' = World (set_prop (length (w_heap w)) "params" qp (w_heap w3)) (w_log w3).
Proof.
  unfold requestConfig. mstep.
  set (o0 := extend _ _).
  assert (okind o0 = KObject) as Hk0 by (unfold o0; by rewrite extend_object).
  pose proof (configAt_alloc (w_heap w) o0 Hk0) as Hc.
  destruct has_body; destruct (withSubRoute _ _); mstep;
    (match goal with |- context [extractParams _ args data ?w1] =>
       destruct (extractParams (Action.params the_action) args data w1) as [up w2|] eqn:E1; [|done] end;
     match goal with |- context [extractParams (Action.queryParams _) args data ?w1] =>
       destruct (extractParams (Action.queryParams the_action) args data w1) as [qp w3|] eqn:E2; [|done] end;
     intros [= <- <-]; eexists _, up, w2, _, qp, w3;
     (split; [|split; [exact E1|split; [exact E2|done]]]);
     repeat (apply configAt_set_prop; [done|]); exact Hc).
Qed.

(** the configuration object and the extracted objects are new; nothing that
    existed before the call is touched, nothing is logged *)
Lemma requestConfig_frame data args w cfg up qp w' :
  request_config data args w = Ok (cfg, up, qp) w' ->
  cfg = length (w_heap w) /\
  w_log w' = w_log w /\
  w_heap w `prefix_of` w_heap w' /\
  length (w_heap w) < length (w_heap w') /\
  okind (deref (w_heap w') cfg) = KObject /\
  get_prop (w_heap w') (VRef cfg) "params" = qp /\
  get_prop (w_heap w') (VRef cfg) "method"
    = get_object (extend (Obj KObject [] [("method", method_value)] false)
                         (Config_props resourceConfig)) "method".
Proof.
  intros H. apply requestConfig_inv in H as (h1 & up' & w2 & url2 & qp' & w3 & Hc & E1 & E2 & [= -> -> ->] & ->).
  apply extractParams_frame in E1 as [Hlg1 Hp1]. apply extractParams_frame in E2 as [Hlg2 Hp2].
  cbn [w_heap w_log] in *.
  assert (configAt (w_heap w) (extend (Obj KObject [] [("method", method_value)] false)
                                      (Config_props resourceConfig)) (w_heap w3)) as Hc3.
  { eapply configAt_prefix; [exact Hp2|]. apply configAt_set_prop; [done|].
    eapply configAt_prefix; [exact Hp1|done]. }
  destruct Hc3 as (Hp3 & Hl3 & Hk3 & Hm3).
  split; [done|]. split; [congruence|]. split; [by apply prefix_store|].
  rewrite length_set_prop, okind_set_prop. split; [done|]. split; [done|].
  split; [by apply get_prop_set_prop_eq|].
  by rewrite get_prop_set_prop_ne.
Qed.

(** what the preparation of the request throws is what an extraction
    throws; nothing is logged and the store has only grown *)
Lemma requestConfig_throws data args w e w' :
  request_config data args w = Throw e w' ->
  (e = ExpectedTypeError "Params for http request" "Object" \/
   exists es k f h v,
     (Action.params the_action = Some (PMap es) \/
      Action.queryParams the_action = Some (PMap es)) /\
     (k, PFunction f) ∈ es /\ f h = Throws v /\ e = Raised v) /\
  w_log w' = w_log w /\ w_heap w `prefix_of` w_heap w'.
Proof.
  unfold requestConfig. mstep.
  destruct has_body; destruct (withSubRoute _ _); mstep;
    (match goal with |- context [extractParams _ args data ?w1] =>
       destruct (extractParams (Action.params the_action) args data w1) as [up w2|e1 w2] eqn:E1 end;
     [ apply extractParams_frame in E1 as [Hlg1 Hp1]; cbn [w_heap w_log] in Hlg1, Hp1;
       match goal with |- context [extractParams (Action.queryParams _) args data ?w1] =>
         destruct (extractParams (Action.queryParams the_action) args data w1)
           as [qp w3|e2 w3] eqn:E2 end; [done|];
       apply extractParams_throws in E2 as (He & Hlg2 & Hp2);
       cbn [w_heap w_log] in Hlg2, Hp2; intros [= <- <-];
       split; [destruct He as [He|(es & k & f & h & v & He & Hin & Hf & Hv)];
               [by left|right; exists es, k, f, h, v; split; [by right|done]]|];
       split; [congruence|];
       (etrans; [|exact Hp2]); unfold set_prop; apply prefix_store; [|done];
       (etrans; [|exact Hp1]); unfold set_prop; repeat apply prefix_store;
       try done; by apply prefix_app_r
     | apply extractParams_throws in E1 as (He & Hlg1 & Hp1);
       cbn [w_heap w_log] in Hlg1, Hp1; intros [= <- <-];
       split; [destruct He as [He|(es & k & f & h & v & He & Hin & Hf & Hv)];
               [by left|right; exists es, k, f, h, v; split; [by left|done]]|];
       split; [done|];
       (etrans; [|exact Hp1]); unfold set_prop; repeat apply prefix_store;
       try done; by apply prefix_app_r ]).
Qed.

Lemma performAction_inv data args w p w' :
  perform_action data args w = Ok p w' ->
  exists cfg up qp,
    request_config data args w = Ok (cfg, up, qp) w' /\
    p = if enabled (Action.skipOnMissingParams the_action)
           && (missing (w_heap w') up || missing (w_heap w') qp)
        then Skipped
        else Request (VRef cfg) (interceptorLimit resourceConfig).
Proof.
  unfold performAction. mstep.
  destruct (request_config data args w) as [[[cfg up] qp] w1|] eqn:E; [|done].
  mstep. intros H. exists cfg, up, qp.
  assert (w1 = w') as -> by (destruct (enabled _ && _) in H; by injection H).
  destruct (enabled _ && _); by injection H as <-.
Qed.

Lemma performAction_throws data args w e w' :
  perform_action data args w = Throw e w' ->
  (e = ExpectedTypeError "Params for http request" "Object" \/
   exists es k f h v,
     (Action.params the_action = Some (PMap es) \/
      Action.queryParams the_action = Some (PMap es)) /\
     (k, PFunction f) ∈ es /\ f h = Throws v /\ e = Raised v) /\
  w_log w' = w_log w /\ w_heap w `prefix_of` w_heap w'.
Proof.
  unfold performAction. mstep.
  destruct (request_config data args w) as [[[cfg up] qp] w1|e1 w1] eqn:E.
  - mstep. destruct (enabled _ && _); done.
  - intros [= <- <-]. by apply requestConfig_throws in E.
Qed.

Lemma extractedEntry_get o k v es : extractedEntry o k v es -> get_object o k = v.
Proof. intros (Hk & Ho & _). by apply get_object_own. Qed.

Lemma extractedEntry_missing h l k v es :
  extractedEntry (deref h l) k v es -> isNullish v = true -> "$$missing" ∉ map fst es ->
  missing h (VRef l) = true.
Proof.
  intros (Hk & _ & Hpm & Hno) Hn Hnotin. unfold missing, get_prop, get_object. simpl.
  by rewrite Hk, Hno, Hpm.
Qed.

(** an entry of a map given as [params] or [queryParams], as it is found on
    the extracted object; [v] is its value in any store that agrees with the
    caller's on what existed before *)
Lemma extractParams_entry es args data w k e v up0 w0 :
  NoDup (map fst es) -> (k, e) ∈ es ->
  (forall h', (forall x, x < length (w_heap w) -> deref h' x = deref (w_heap w) x) ->
              entryValue args data h' (k, e) = v) ->
  extractParams (Some (PMap es)) args data w = Ok up0 w0 ->
  exists w',
    extractParams (Some (PMap es)) args data w = Ok (VRef (length (w_heap w))) w' /\
    length (w_heap w') = S (length (w_heap w)) /\
    extractedEntry (deref (w_heap w') (length (w_heap w))) k v es.
Proof.
  intros Hnd Hin Hval E. pose proof (extractParams_map _ _ _ _ _ _ E) as [-> ->].
  eexists. split; [exact E|]. cbn [w_heap].
  set (l := length (w_heap w)). set (h := w_heap w ++ [empty_object]).
  assert (l < length h) as Hl by (unfold h; rewrite length_app; simpl; lia).
  assert (okind (deref h l) = KObject) as Hk by (unfold h, l; by rewrite deref_alloc_new).
  destruct (extractEntries_other args data l es h Hl Hk) as (Hlen & Hk' & _ & _ & Hoth).
  destruct (extractEntries_entry args data l es h k e v Hl Hk Hin Hnd) as [Hown Hpm].
  { intros h' Hlen' Hsame. apply Hval. intros x Hx. rewrite Hsame by (unfold l; lia).
    unfold h. by apply deref_alloc_old. }
  split; [rewrite Hlen; unfold h; rewrite length_app; simpl; lia|].
  split; [done|]. split; [done|]. split; [done|].
  intros Hnotin. rewrite Hoth by done. unfold h, l. by rewrite deref_alloc_new.
Qed.

Lemma requestConfig_entry es data args w cfg up qp w' k e v :
  request_config data args w = Ok (cfg, up, qp) w' ->
  NoDup (map fst es) -> (k, e) ∈ es ->
  (forall h', (forall x, x < length (w_heap w) -> deref h' x = deref (w_heap w) x) ->
              entryValue args data h' (k, e) = v) ->
  (Action.params the_action = Some (PMap es) ->
   exists l, up = VRef l /\ cfg < l < length (w_heap w') /\
             extractedEntry (deref (w_heap w') l) k v es) /\
  (Action.queryParams the_action = Some (PMap es) ->
   exists l, qp = VRef l /\ cfg < l < length (w_heap w') /\
             extractedEntry (deref (w_heap w') l) k v es).
Proof.
  intros H Hnd Hin Hval.
  apply requestConfig_inv in H as (h1 & up' & w2 & url2 & qp' & w3 & Hc & E1 & E2 & [= -> <- <-] & ->).
  destruct Hc as (Hp1 & Hl1 & _ & _).
  pose proof (extractParams_frame _ _ _ _ _ _ E1) as [_ Hp2].
  pose proof (extractParams_frame _ _ _ _ _ _ E2) as [_ Hp3].
  cbn [w_heap w_log] in *.
  pose proof (prefix_length _ _ Hp2) as Hlen2.
  pose proof (prefix_length _ _ Hp3) as Hlen3. rewrite length_set_prop in Hlen3.
  split.
  - intros Hps. rewrite Hps in E1.
    destruct (extractParams_entry es args data (World h1 (w_log w)) k e v up w2 Hnd Hin)
      as (w2' & E1' & Hlen & Hent); [|exact E1|].
    { cbn [w_heap]. intros h' Hsame. apply Hval. intros x Hx.
      rewrite Hsame by lia. by apply prefix_deref. }
    rewrite E1 in E1'. injection E1' as -> <-. cbn [w_heap] in *.
    exists (length h1). split; [done|]. rewrite length_set_prop.
    split; [lia|].
    assert (deref (set_prop (length (w_heap w)) "params" qp (w_heap w3)) (length h1)
            = deref (w_heap w2) (length h1)) as ->; [|done].
    rewrite deref_set_prop_ne by lia.
    rewrite (prefix_deref _ _ _ Hp3) by (rewrite length_set_prop; lia).
    by rewrite deref_set_prop_ne by lia.
  - intros Hqs. rewrite Hqs in E2.
    match type of E2 with extractParams _ _ _ ?W = _ =>
      destruct (extractParams_entry es args data W k e v qp w3 Hnd Hin)
        as (w3' & E2' & Hlen & Hent) end; [|exact E2|].
    { intros h' Hsame. cbn [w_heap] in Hsame. rewrite length_set_prop in Hsame.
      apply Hval. intros x Hx. rewrite Hsame by lia.
      rewrite deref_set_prop_ne by lia.
      rewrite (prefix_deref _ _ _ Hp2) by lia. by apply prefix_deref. }
    rewrite E2 in E2'. injection E2' as -> <-. cbn [w_heap] in *.
    rewrite length_set_prop in *.
    exists (length (w_heap w2)). split; [done|]. rewrite ?length_set_prop. split; [lia|].
    by rewrite deref_set_prop_ne by lia.
Qed.

End ActionFacts.

(** ** The resolution flag *)

Lemma get_prop_delete_unresolved t h :
  get_prop (delete_prop t "$$unresolved" h) (VRef t) "$$unresolved" = VUndef.
Proof.
  unfold get_prop, delete_prop. destruct (decide (t < length h)) as [Hl|Hl].
  - rewrite deref_store_eq by done. unfold get_object, delete_object. cbn [oprops okind elems proto_missing].
    rewrite own_delete_own_eq. rewrite andb_false_r.
    destruct (okind (deref h t)); reflexivity.
  - unfold store. rewrite list_insert_ge by lia.
    unfold deref. rewrite lookup_ge_None_2 by lia. reflexivity.
Qed.

Lemma get_prop_set_unresolved t v h :
  t < length h -> get_prop (set_prop t "$$unresolved" v h) (VRef t) "$$unresolved" = v.
Proof.
  intros Hl. unfold get_prop, set_prop. rewrite deref_store_eq by done.
  unfold get_object, set_object.
  destruct (okind (deref h t)); cbn; by rewrite own_set_own_eq.
Qed.

Lemma deref_attached_other t h x : x <> t -> x < length h -> deref (attached t h) x = deref h x.
Proof.
  intros Hne Hl. unfold attached. rewrite !deref_set_prop_ne by done.
  by apply deref_alloc_old.
Qed.

Lemma get_prop_attached_flag t h :
  t < length h -> get_prop (attached t h) (VRef t) "$$unresolved" = VBool true.
Proof.
  intros Hl. unfold attached. apply get_prop_set_unresolved.
  rewrite length_set_prop, length_app. simpl. lia.
Qed.

Lemma length_attached t h : length (attached t h) = S (length h).
Proof. unfold attached. rewrite !length_set_prop, length_app. simpl. lia. Qed.

(** ** Mapper strings *)

Lemma extract_at2 h args data dflt :
  extract h args data "@2" dflt = default VUndef (args !! 2).
Proof. reflexivity. Qed.

Lemma extract_at3ab h args data dflt :
  extract h args data "@3.a.b" dflt = lookupDottedPath h (default VUndef (args !! 3)) "a.b".
Proof. reflexivity. Qed.

Lemma lookupDottedPath_ab h v :
  lookupDottedPath h v "a.b"
  = let a := if isNullish v then VUndef else get_prop h v "a" in
    if isNullish a then VUndef else get_prop h a "b".
Proof.
  unfold lookupDottedPath. change (split_dots "a.b") with ["a"; "b"].
  unfold lookupKeys. destruct v as [| | | |s| |l]; try reflexivity.
  cbn [isDefined isUndefined isNull isNullish negb orb].
  destruct (get_prop h (VRef l) "a"); reflexivity.
Qed.

Lemma get_prop_agree (h h' : heap) n v k :
  refs_below n v -> (forall x, x < n -> deref h' x = deref h x) ->
  get_prop h' v k = get_prop h v k.
Proof.
  intros Hb Hsame. destruct v; try done. simpl in *. by rewrite Hsame.
Qed.

(** ** [$unwrap] only allocates *)

(** the test leaves the world as it is, whatever it answers; it throws when
    the wrapper carries an own [hasOwnProperty] that is not a function, or
    one that throws *)
Lemma hasOwnProperty_frame invoke this key w :
  match hasOwnProperty invoke this key w with
  | Ok _ w1 => w1 = w
  | Throw e w1 => w1 = w /\ (e = NativeTypeError \/ exists v, e = Raised v)
  end.
Proof.
  unfold hasOwnProperty. mstep.
  destruct (own (oprops (deref (w_heap w) this)) "hasOwnProperty") as [m|]; [|done].
  destruct m; try (split; [done|by left]).
  destruct (invoke f (VRef this) [VStr key] (w_heap w)) as [v|v]; [done|].
  split; [done|]. right. by exists v.
Qed.

Lemma unwrap_frame invoke this w v w1 :
  unwrap invoke this w = Ok v w1 -> w_log w1 = w_log w /\ w_heap w `prefix_of` w_heap w1.
Proof.
  unfold unwrap. unfold mbind at 1, M_bind at 1.
  pose proof (hasOwnProperty_frame invoke this "$value" w) as H1.
  destruct (hasOwnProperty invoke this "$value" w) as [boxed w0|]; [subst w0|done].
  destruct boxed.
  - mstep. by intros [= <- <-].
  - unfold mbind at 1, M_bind at 1.
    pose proof (hasOwnProperty_frame invoke this "$$length" w) as H2.
    destruct (hasOwnProperty invoke this "$$length" w) as [isArr w0|]; [subst w0|done].
    mstep. destruct isArr; mstep; intros [= <- <-];
      (split; [done|]; cbn [w_heap];
       unfold delete_prop; repeat apply prefix_store; try done; by apply prefix_app_r).
Qed.

Lemma unwrap_throws invoke this w e w1 :
  unwrap invoke this w = Throw e w1 ->
  w1 = w /\ (e = NativeTypeError \/ exists v, e = Raised v).
Proof.
  unfold unwrap. unfold mbind at 1, M_bind at 1.
  pose proof (hasOwnProperty_frame invoke this "$value" w) as H1.
  destruct (hasOwnProperty invoke this "$value" w) as [boxed w0|e0 w0].
  - subst w0. destruct boxed; [by mstep|].
    unfold mbind at 1, M_bind at 1.
    pose proof (hasOwnProperty_frame invoke this "$$length" w) as H2.
    destruct (hasOwnProperty invoke this "$$length" w) as [isArr w0|e0 w0].
    + subst w0. mstep. by destruct isArr.
    + destruct H2 as [-> He]. by intros [= <- <-].
  - destruct H1 as [-> He]. by intros [= <- <-].
Qed.

(** ** The generated methods, step by step *)

Lemma AbstractResource_promise t p w :
  AbstractResource t (VRef p) w
  = Ok tt (World (set_prop t "$$unresolved" (VBool true)
                    (set_prop t "$promise" (VRef p) (w_heap w))) (w_log w)).
Proof. reflexivity. Qed.

Lemma AbstractResource_true t w :
  AbstractResource t (VBool true) w
  = Ok tt (World (delete_prop t "$$unresolved" (w_heap w)) (w_log w)).
Proof. reflexivity. Qed.

Lemma new_Resource_wrapperOf h lg item :
  refs_below (length h) item ->
  new_Resource item (World h lg) = Ok (length h) (World (h ++ [wrapperOf h item]) lg).
Proof.
  intros Hb. rewrite new_Resource_merge. cbn [w_heap w_log]. do 2 f_equal.
  unfold merge, wrapperOf, mergedObject. destruct (isNullish item); [done|].
  destruct item; try apply set_prop_last.
  simpl in Hb. rewrite deref_alloc_new, deref_alloc_old, store_last by done.
  unfold isArray, get_prop. rewrite !deref_alloc_old by done.
  destruct (bool_decide _); [|done]. apply set_prop_last.
Qed.

Lemma wrapperOf_prefix (h h' : heap) item :
  h `prefix_of` h' -> refs_below (length h) item -> wrapperOf h' item = wrapperOf h item.
Proof.
  intros Hp Hb. unfold wrapperOf, mergedObject. destruct (isNullish item); [done|].
  destruct item; try done. simpl in Hb.
  unfold isArray, get_prop. by rewrite !(prefix_deref h h').
Qed.

Lemma mapResource_spec items w :
  exists w0,
    mapResource items w = Ok (map VRef (seq (length (w_heap w)) (length items))) w0 /\
    w_log w0 = w_log w /\
    w_heap w `prefix_of` w_heap w0 /\
    length (w_heap w0) = length (w_heap w) + length items /\
    (forall i item, items !! i = Some item -> refs_below (length (w_heap w)) item ->
                    w_heap w0 !! (length (w_heap w) + i) = Some (wrapperOf (w_heap w) item)).
Proof.
  revert w. induction items as [|item items IH]; intros w; simpl.
  - exists w. mstep. repeat split; [done|lia|]. intros i item Hi. done.
  - mstep. rewrite new_Resource_merge.
    set (w1 := World (merge (length (w_heap w)) item (w_heap w ++ [empty_object])) (w_log w)).
    destruct (IH w1) as (w0 & E & Hlg & Hp & Hlen & Hel).
    assert (length (w_heap w1) = S (length (w_heap w))) as Hl1.
    { unfold w1. cbn [w_heap]. rewrite length_merge, length_app. simpl. lia. }
    assert (w_heap w `prefix_of` w_heap w1) as Hp1.
    { unfold w1. cbn [w_heap]. apply prefix_merge; [by apply prefix_app_r | done]. }
    rewrite E. rewrite Hl1. exists w0.
    split; [done|]. split; [by rewrite Hlg|]. split; [by etrans|]. split; [lia|].
    intros [|i] it Hi Hb; simpl in Hi.
    + injection Hi as ->. rewrite Nat.add_0_r.
      pose proof (new_Resource_wrapperOf (w_heap w) (w_log w) it Hb) as Hn.
      rewrite new_Resource_merge in Hn. cbn [w_heap w_log] in Hn.
      injection Hn as Hn.
      destruct Hp as [ext Hext]. rewrite Hext. unfold w1. cbn [w_heap]. rewrite Hn.
      rewrite <- app_assoc. by apply list_lookup_middle.
    + replace (length (w_heap w) + S i) with (length (w_heap w1) + i) by lia.
      rewrite (Hel i it Hi).
      * f_equal. by apply wrapperOf_prefix.
      * destruct it; try done. simpl in *. lia.
Qed.

Section MethodFacts.

Variable actionsDefaults : gmap string Action.t.
Variable instancedInterceptors : list Interceptor.
Variable http : handler.
Variable replace : heap -> string -> string -> value -> string.
Variable invoke : nat -> value -> list value -> heap -> completion.
Variable resourceConfig : Config.
Variable name : string.
Variable definition : Action.t.

#[local] Abbreviation the_action := (action actionsDefaults name definition).
#[local] Abbreviation has_body := (hasBody actionsDefaults name definition).
#[local] Abbreviation perform_action :=
  (performAction actionsDefaults replace resourceConfig name definition).
#[local] Abbreviation static_call :=
  (static actionsDefaults replace resourceConfig name definition).
#[local] Abbreviation instance_call :=
  (instance actionsDefaults replace invoke resourceConfig name definition).

(** a static call of a singular action that returns *)
Lemma static_single_inv arguments w c w' :
  enabled (Action.isArray the_action) = false ->
  static_call arguments w = Ok c w' ->
  exists w1 p w2,
    let data := if has_body then default VUndef (arguments !! 0) else VNull in
    (has_body = true -> isNullish data = false) /\
    new_Resource data w = Ok (target c) w1 /\
    perform_action data (drop (if has_body then 1 else 0) arguments) w1 = Ok p w2 /\
    c = Call (VRef (target c)) (target c) p /\
    w' = World (attached (target c) (w_heap w2)) (w_log w2).
Proof.
  intros Hs. unfold static. rewrite Hs. mstep.
  destruct has_body.
  - destruct (isNullish (default VUndef (arguments !! 0))) eqn:Hn; [done|]. mstep.
    rewrite new_Resource_merge. cbn [w_heap w_log].
    match goal with |- context [perform_action ?d ?a ?w1] =>
      destruct (perform_action d a w1) as [p w2|] eqn:E; [|done] end.
    mstep. intros [= <- <-]. eexists _, p, w2. cbn [target].
    split; [done|]. split; [reflexivity|]. split; [exact E|]. done.
  - mstep. rewrite new_Resource_merge. cbn [w_heap w_log].
    match goal with |- context [perform_action ?d ?a ?w1] =>
      destruct (perform_action d a w1) as [p w2|] eqn:E; [|done] end.
    mstep. intros [= <- <-]. eexists _, p, w2. cbn [target].
    split; [done|]. split; [reflexivity|]. split; [exact E|]. done.
Qed.

(** a static call of a collection action that carries a body and returns *)
Lemma static_array_inv arguments w c w' :
  enabled (Action.isArray the_action) = true -> has_body = true ->
  static_call arguments w = Ok c w' ->
  exists d w0 p w2,
    arguments !! 0 = Some (VRef d) /\
    okind (deref (w_heap w) d) = KArray /\
    mapResource (elems (deref (w_heap w) d)) w
      = Ok (map VRef (seq (length (w_heap w)) (length (elems (deref (w_heap w) d))))) w0 /\
    target c = length (w_heap w0) /\
    perform_action (VRef d) (drop 1 arguments)
      (World (w_heap w0 ++ [Obj KArray (map VRef (seq (length (w_heap w))
                                                      (length (elems (deref (w_heap w) d)))))
                                [] false]) (w_log w0)) = Ok p w2 /\
    c = Call (VRef (target c)) (target c) p /\
    w' = World (attached (target c) (w_heap w2)) (w_log w2).
Proof.
  intros Hs Hb. unfold static. rewrite Hs, Hb. mstep.
  destruct (isNullish (default VUndef (arguments !! 0))) eqn:Hn; [done|]. mstep.
  destruct (isArray (w_heap w) (default VUndef (arguments !! 0))) eqn:Ha; [|done].
  destruct (arguments !! 0) as [[| | | | | |d]|] eqn:E0; try done.
  cbn [default from_option id] in *. unfold isArray in Ha. apply bool_decide_eq_true_1 in Ha.
  mstep.
  destruct (mapResource_spec (elems (deref (w_heap w) d)) w) as (w0 & Em & _).
  rewrite Em. mstep.
  match goal with |- context [perform_action ?d ?a ?w1] =>
    destruct (perform_action d a w1) as [p w2|] eqn:E; [|done] end.
  mstep. intros [= <- <-]. exists d, w0, p, w2. cbn [target].
  repeat split; try done.
Qed.

(** a static call of a collection action without a body that returns *)
Lemma static_fetch_inv arguments w c w' :
  enabled (Action.isArray the_action) = true -> has_body = false ->
  static_call arguments w = Ok c w' ->
  exists p w2,
    target c = length (w_heap w) /\
    perform_action VNull arguments (World (w_heap w ++ [empty_array]) (w_log w)) = Ok p w2 /\
    c = Call (VRef (target c)) (target c) p /\
    w' = World (attached (target c) (w_heap w2)) (w_log w2).
Proof.
  intros Hs Hb. unfold static. rewrite Hs, Hb. mstep. rewrite drop_0.
  match goal with |- context [perform_action ?d ?a ?w1] =>
    destruct (perform_action d a w1) as [p w2|] eqn:E; [|done] end.
  mstep. intros [= <- <-]. exists p, w2. cbn [target]. done.
Qed.

(** every static call that returns has run [performAction] on the arguments
    that follow the body *)
Lemma static_performs arguments w c w' :
  static_call arguments w = Ok c w' ->
  exists w1 p w2,
    w_log w1 = w_log w /\
    w_heap w `prefix_of` w_heap w1 /\
    length (w_heap w) <= target c < length (w_heap w1) /\
    perform_action (if has_body then default VUndef (arguments !! 0) else VNull)
      (drop (if has_body then 1 else 0) arguments) w1 = Ok p w2 /\
    c = Call (VRef (target c)) (target c) p /\
    w' = World (attached (target c) (w_heap w2)) (w_log w2).
Proof.
  intros H. destruct (enabled (Action.isArray the_action)) eqn:Hs.
  - destruct has_body eqn:Hb.
    + apply static_array_inv in H as (d & w0 & p & w2 & E0 & Hk & Em & Ht & E & Hc & Hw); try done.
      destruct (mapResource_spec (elems (deref (w_heap w) d)) w) as (w0' & Em' & Hlg & Hp & Hlen & _).
      rewrite Em in Em'. injection Em' as <-.
      match type of E with perform_action _ _ ?W = _ => exists W, p, w2 end. cbn [w_heap w_log]. rewrite E0. cbn [default from_option id].
      split; [exact Hlg|]. split; [by apply prefix_app_r|].
      split; [|done]. rewrite length_app, Ht. simpl. lia.
    + apply static_fetch_inv in H as (p & w2 & Ht & E & Hc & Hw); try done.
      match type of E with perform_action _ _ ?W = _ => exists W, p, w2 end. cbn [w_heap w_log]. rewrite drop_0.
      split; [done|]. split; [by apply prefix_app_r|].
      split; [|done]. rewrite length_app, Ht. simpl. lia.
  - apply static_single_inv in H as (w1 & p & w2 & _ & En & E & Hc & Hw); try done.
    rewrite new_Resource_merge in En. injection En as Ht <-.
    match type of E with perform_action _ _ ?W = _ => exists W, p, w2 end. cbn [w_heap w_log].
    split; [done|]. split; [apply prefix_merge; [by apply prefix_app_r|done]|].
    split; [|done]. rewrite length_merge, length_app, <- Ht. simpl. lia.
Qed.

(** an instance call that returns *)
Lemma instance_inv this arguments w c w' :
  instance_call this arguments w = Ok c w' ->
  exists data w1 p w2,
    truthy (get_prop (w_heap w) (VRef this) "$$unresolved") = false /\
    unwrap invoke this w = Ok data w1 /\
    perform_action data arguments w1 = Ok p w2 /\
    c = Call (VRef (length (w_heap w2))) this p /\
    w' = World (attached this (w_heap w2)) (w_log w2).
Proof.
  unfold instance. mstep.
  destruct (truthy (get_prop (w_heap w) (VRef this) "$$unresolved")) eqn:Hf; [done|].
  destruct (unwrap invoke this w) as [data w1|] eqn:Eu; [|done].
  destruct (perform_action data arguments w1) as [p w2|] eqn:E; [|done].
  mstep. intros [= <- <-]. by exists data, w1, p, w2.
Qed.

(** an instance call on a wrapper whose flag is not set fails, if at all,
    with another error than the reentrancy error *)
Lemma instance_not_reentrant this arguments w n w' :
  truthy (get_prop (w_heap w) (VRef this) "$$unresolved") = false ->
  instance_call this arguments w <> Throw (UnresolvedRequest n) w'.
Proof.
  intros Hf. unfold instance. mstep. rewrite Hf.
  destruct (unwrap invoke this w) as [data w1|e w1] eqn:Eu.
  - destruct (perform_action data arguments w1) as [p w2|e w2] eqn:E.
    + mstep. done.
    + apply performAction_throws in E as [[->|(? & ? & ? & ? & ? & _ & _ & _ & ->)] _]; done.
  - apply unwrap_throws in Eu as [_ [->|[v ->]]]; done.
Qed.

End MethodFacts.

(** ** Merging data into a wrapper *)

Lemma okind_set_object k v o : okind (set_object k v o) = okind o.
Proof.
  unfold set_object. destruct (okind o) eqn:E; simpl; try done.
  destruct (index_of_key k); [done|]. destruct (String.eqb k "length"); [|done].
  destruct v; try done. by destruct (Z.leb 0 n).
Qed.

Lemma okind_extend o xs : okind (extend o xs) = okind o.
Proof.
  revert o. unfold extend. induction xs as [|[k v] xs IH]; intros o; simpl; [done|].
  by rewrite IH, okind_set_object.
Qed.

Lemma okind_delete_prop t k h x : okind (deref (delete_prop t k h) x) = okind (deref h x).
Proof.
  unfold delete_prop. destruct (decide (t = x)) as [<-|Hne].
  - destruct (decide (t < length h)) as [Hl|Hl].
    + by rewrite deref_store_eq.
    + unfold store. by rewrite list_insert_ge by lia.
  - by rewrite deref_store_ne.
Qed.

Lemma elems_delete_prop t k h x : elems (deref (delete_prop t k h) x) = elems (deref h x).
Proof.
  unfold delete_prop. destruct (decide (t = x)) as [<-|Hne].
  - destruct (decide (t < length h)) as [Hl|Hl].
    + by rewrite deref_store_eq.
    + unfold store. by rewrite list_insert_ge by lia.
  - by rewrite deref_store_ne.
Qed.

Lemma isArray_delete_prop t k h v : isArray (delete_prop t k h) v = isArray h v.
Proof. destruct v; try done. unfold isArray. by rewrite okind_delete_prop. Qed.

(** the wrapper after [Resource.call(wrapper, item)], for an item that is not
    the wrapper itself *)
Lemma merge_deref r item h :
  r < length h -> item <> VRef r ->
  deref (merge r item h) r = mergedObject (deref h r) h item.
Proof.
  intros Hl Hne. unfold merge, mergedObject. destruct (isNullish item); [done|].
  destruct item as [| | | | | |x];
    try (unfold set_prop; by rewrite deref_store_eq).
  assert (x <> r) as Hx by congruence.
  unfold isArray, get_prop. rewrite !deref_store_ne by done.
  destruct (bool_decide _).
  - unfold set_prop. rewrite deref_store_eq by (by rewrite length_store).
    by rewrite deref_store_eq.
  - by rewrite deref_store_eq.
Qed.

Lemma mergedObject_agree o (h h' : heap) item :
  (forall x, item = VRef x -> deref h' x = deref h x) ->
  mergedObject o h' item = mergedObject o h item.
Proof.
  intros Hsame. unfold mergedObject. destruct (isNullish item); [done|].
  destruct item as [| | | | | |x]; try done.
  unfold isArray, get_prop. by rewrite (Hsame x eq_refl).
Qed.

Lemma okind_mergedObject o h item : okind (mergedObject o h item) = okind o.
Proof.
  unfold mergedObject. destruct (isNullish item); [done|].
  destruct item; rewrite ?okind_set_object; try done.
  destruct (isArray _ _); by rewrite ?okind_set_object, okind_extend.
Qed.

(** a plain object merged into a plain wrapper: the wrapper reads the keys of
    the data *)
Lemma mergedObject_plain_get o h d ds k v :
  okind o = KObject ->
  deref h d = Obj KObject [] ds false ->
  NoDup (map fst ds) -> own ds k = Some v ->
  get_object (mergedObject o h (VRef d)) k = v.
Proof.
  intros Hk Hd Hnd Hown. unfold mergedObject. cbn [isNullish isUndefined isNull orb].
  unfold isArray. rewrite Hd. cbn [okind]. rewrite bool_decide_eq_false_2 by done.
  unfold own_enumerable. cbn [elems oprops index_props app].
  rewrite extend_object by done. apply get_object_own; [done|]. cbn [oprops].
  by apply own_fold_assign.
Qed.

Lemma okind_store_same l o h x :
  okind o = okind (deref h l) -> okind (deref (store l o h) x) = okind (deref h x).
Proof.
  intros Hk. destruct (decide (l = x)) as [<-|Hne].
  - destruct (decide (l < length h)) as [Hl|Hl].
    + by rewrite deref_store_eq.
    + unfold store. by rewrite list_insert_ge by lia.
  - by rewrite deref_store_ne.
Qed.

Lemma okind_merge l data h x : okind (deref (merge l data h) x) = okind (deref h x).
Proof.
  unfold merge. destruct (isNullish data); [done|].
  destruct data; rewrite ?okind_set_prop; try done.
  destruct (isArray _ _); rewrite ?okind_set_prop; apply okind_store_same, okind_extend.
Qed.

Lemma lookup_attached_promise t h :
  t < length h -> attached t h !! length h = Some promise_object.
Proof.
  intros Hl. unfold attached, set_prop, store.
  rewrite !list_lookup_insert_ne by lia. by apply list_lookup_middle.
Qed.

Lemma get_prop_attached_promise t h :
  t < length h -> okind (deref h t) = KObject ->
  get_prop (attached t h) (VRef t) "$promise" = VRef (length h).
Proof.
  intros Hl Hk. unfold attached.
  assert (t < length (h ++ [promise_object])) as Hl' by (rewrite length_app; simpl; lia).
  assert (okind (deref (h ++ [promise_object]) t) = KObject) as Hk'
      by (by rewrite deref_alloc_old).
  rewrite get_prop_set_prop_ne; [|by rewrite length_set_prop|by rewrite okind_set_prop|done].
  by apply get_prop_set_prop_eq.
Qed.

Lemma get_prop_attached_data t h k :
  t < length h -> okind (deref h t) = KObject ->
  k <> "$promise" -> k <> "$$unresolved" ->
  get_prop (attached t h) (VRef t) k = get_prop h (VRef t) k.
Proof.
  intros Hl Hk Hp Hu. unfold attached.
  assert (t < length (h ++ [promise_object])) as Hl' by (rewrite length_app; simpl; lia).
  assert (okind (deref (h ++ [promise_object]) t) = KObject) as Hk'
      by (by rewrite deref_alloc_old).
  rewrite get_prop_set_prop_ne; [|by rewrite length_set_prop|by rewrite okind_set_prop|done].
  rewrite get_prop_set_prop_ne by done.
  unfold get_prop. by rewrite deref_alloc_old.
Qed.

(** ** Updating the wrappers of a collection by index *)

Lemma modifyResource_step t rs i r item h lg :
  elems (deref h t) = map VRef rs -> rs !! i = Some r ->
  modifyResource t item i (World h lg) = Ok tt (World (merge r item h) lg).
Proof.
  intros Ht Hi. unfold modifyResource, element. mstep.
  rewrite Ht, list_lookup_fmap, Hi. cbn [fmap option_fmap option_map default from_option id].
  by rewrite Resource_merge.
Qed.

(** past the wrappers [resources[index]] is undefined: an element that is
    undefined or null is passed over, any other makes the merge throw *)
Lemma modifyResource_beyond t rs i item w :
  elems (deref (w_heap w) t) = map VRef rs -> rs !! i = None ->
  modifyResource t item i w
  = if isNullish item then Ok tt w else Throw NativeTypeError w.
Proof.
  intros Ht Hi. unfold modifyResource, element. mstep.
  rewrite Ht, list_lookup_fmap, Hi. cbn [fmap option_fmap option_map default from_option id].
  unfold Resource, isNullish. by destruct (isUndefined item || isNull item).
Qed.

Lemma modify_loop n : forall i h lg (d t : loc) (rs : list loc) (ds : list value),
  elems (deref h d) = ds -> elems (deref h t) = map VRef rs ->
  i + n = length ds ->
  (forall j item, ds !! j = Some item -> length rs <= j -> isNullish item = true) ->
  NoDup rs -> t ∉ rs -> d ∉ rs ->
  (forall r, r ∈ rs -> r < length h) ->
  (forall item r, item ∈ ds -> r ∈ rs -> item <> VRef r) ->
  exists h',
    forEachFrom d (modifyResource t) i n (World h lg) = Ok tt (World h' lg) /\
    length h' = length h /\
    (forall x, x ∉ rs -> deref h' x = deref h x) /\
    (forall j r, rs !! j = Some r ->
       (i <= j < i + n ->
        exists item, ds !! j = Some item /\ deref h' r = mergedObject (deref h r) h item) /\
       (~ (i <= j < i + n) -> deref h' r = deref h r)).
Proof.
  induction n as [|n IH]; intros i h lg d t rs ds Hd Ht Hn Hlen Hnd Htr Hdr Hlive Hitems.
  - exists h. split; [reflexivity|]. split; [done|]. split; [done|].
    intros j r Hj. split; [lia|done].
  - cbn [forEachFrom]. mstep. rewrite Hd.
    destruct (lookup_lt_is_Some_2 ds i) as [item Hitem]; [lia|].
    rewrite Hitem.
    destruct (rs !! i) as [ri|] eqn:Hri; cycle 1.
    { rewrite (modifyResource_beyond t rs i item (World h lg) Ht Hri).
      apply lookup_ge_None in Hri. rewrite (Hlen i item Hitem Hri).
      destruct (IH (S i) h lg d t rs ds) as (h' & E & Hlen' & Hout & Hidx); try done; [lia|].
      exists h'. split; [exact E|]. split; [done|]. split; [done|].
      intros j r Hj. destruct (Hidx j r Hj) as [Hin' Hout'].
      pose proof (lookup_lt_Some _ _ _ Hj) as Hjlt.
      split; [intros Hrange; apply Hin'; lia|intros Hrange; apply Hout'; lia]. }
    rewrite (modifyResource_step t rs i ri item h lg Ht Hri).
    assert (ri ∈ rs) as Hin by (by eapply list_elem_of_lookup_2).
    assert (item ∈ ds) as Hiin by (by eapply list_elem_of_lookup_2).
    set (h1 := merge ri item h).
    assert (forall x, x <> ri -> deref h1 x = deref h x) as Hsame
        by (intros x Hx; by apply deref_merge_ne).
    assert (deref h1 ri = mergedObject (deref h ri) h item) as Hri1
        by (apply merge_deref; [by apply Hlive|by apply Hitems]).
    destruct (IH (S i) h1 lg d t rs ds) as (h' & E & Hlen' & Hout & Hidx); try done.
    { rewrite Hsame; [done|]. intros ->. done. }
    { rewrite Hsame; [done|]. intros ->. done. }
    { lia. }
    { intros r Hr. unfold h1. rewrite length_merge. by apply Hlive. }
    exists h'. split; [exact E|]. split; [rewrite Hlen'; unfold h1; by rewrite length_merge|]. split.
    { intros x Hx. rewrite Hout by done. apply Hsame. intros ->. done. }
    intros j r Hj. destruct (Hidx j r Hj) as [Hin' Hout'].
    assert (r ∈ rs) as Hrin by (by eapply list_elem_of_lookup_2).
    split.
    + intros Hrange. destruct (decide (j = i)) as [->|Hji].
      * assert (r = ri) as -> by congruence.
        exists item. split; [done|]. rewrite Hout' by lia. done.
      * assert (r <> ri) as Hne.
        { intros ->. apply Hji. by eapply NoDup_lookup. }
        destruct Hin' as (it & Hit & Hr'); [lia|].
        exists it. split; [done|]. rewrite Hr', Hsame by done.
        apply mergedObject_agree. intros x ->. apply Hsame. intros ->.
        eapply Hitems; [by eapply list_elem_of_lookup_2|exact Hin|done].
    + intros Hrange. rewrite Hout' by lia. apply Hsame. intros ->.
      apply Hrange. assert (j = i) as -> by (by eapply NoDup_lookup). lia.
Qed.

Lemma elems_attached t h : t < length h -> elems (deref (attached t h) t) = elems (deref h t).
Proof.
  intros Hl. unfold attached, set_prop.
  assert (t < length (h ++ [promise_object])) as Hl' by (rewrite length_app; simpl; lia).
  rewrite deref_store_eq by (by rewrite length_store).
  rewrite deref_store_eq by done. rewrite deref_alloc_old by done.
  destruct (deref h t) as [[] es ps pm]; reflexivity.
Qed.

(** * The claims *)

Section Claims.

Variable actionsDefaults : gmap string Action.t.
Variable instancedInterceptors : list Interceptor.
Variable http : handler.
Variable replace : heap -> string -> string -> value -> string.
Variable invoke : nat -> value -> list value -> heap -> completion.
Variable resourceConfig : Config.
Variable name : string.
Variable definition : Action.t.

#[local] Abbreviation the_action := (action actionsDefaults name definition).
#[local] Abbreviation has_body := (hasBody actionsDefaults name definition).
#[local] Abbreviation request_config :=
  (requestConfig actionsDefaults replace resourceConfig name definition).
#[local] Abbreviation perform_action :=
  (performAction actionsDefaults replace resourceConfig name definition).
#[local] Abbreviation static_call :=
  (static actionsDefaults replace resourceConfig name definition).
#[local] Abbreviation instance_call :=
  (instance actionsDefaults replace invoke resourceConfig name definition).
#[local] Abbreviation response_phase := (responsePhase instancedInterceptors http).
#[local] Abbreviation settle_perform :=
  (settlePerformAction actionsDefaults instancedInterceptors http name definition).
#[local] Abbreviation settle_static :=
  (settleStatic actionsDefaults instancedInterceptors http name definition).
#[local] Abbreviation settle_instance :=
  (settleInstance actionsDefaults instancedInterceptors http name definition).
#[local] Abbreviation update_resource := (updateResource actionsDefaults name definition).
#[local] Abbreviation update_array := (updateResourceArray actionsDefaults name definition).

(** C5: an instance-level [$action] call on a resource whose [$$unresolved]
    flag is set throws the reentrancy error at once: the world is left as it
    was, so no request configuration has been built and nothing has been
    handed to the transport.  In particular this is what happens on the
    wrapper a static call has just returned. *)
Theorem instance_call_while_unresolved :
  (forall this arguments w,
      truthy (get_prop (w_heap w) (VRef this) "$$unresolved") = true ->
      instance_call this arguments w = Throw (UnresolvedRequest name) w) /\
  (forall arguments0 w0 c w arguments,
      static_call arguments0 w0 = Ok c w ->
      instance_call (target c) arguments w = Throw (UnresolvedRequest name) w).
Proof.
  assert (forall this arguments w,
      truthy (get_prop (w_heap w) (VRef this) "$$unresolved") = true ->
      instance_call this arguments w = Throw (UnresolvedRequest name) w) as Hthrow.
  { intros this arguments w H. unfold instance. mstep. by rewrite H. }
  split; [exact Hthrow|].
  intros arguments0 w0 c w arguments H. apply Hthrow.
  apply static_performs in H as (w1 & p & w2 & _ & _ & Ht & E & _ & ->).
  apply performAction_inv in E as (cfg & up & qp & E & _).
  apply requestConfig_frame in E as (_ & _ & Hp & _).
  apply prefix_length in Hp. cbn [w_heap].
  rewrite get_prop_attached_flag by lia. done.
Qed.

(** X22: the method of the merged action is the one of the definition, else
    the one of [actionsDefaults[name]], else the name of the action; and
    when the resource configuration has no method of its own the request
    configuration carries it, so that an action that omits the method, with
    defaults that omit it too, requests with its own name as the method. *)
Theorem method_defaults_to_action_name :
  Action.method the_action
  = match Action.method definition with
    | Some m => Some m
    | None =>
        match actionsDefaults !! name ≫= Action.method with
        | Some m => Some m
        | None => Some name
        end
    end /\
  (forall data args w cfg up qp w',
      own (settings resourceConfig) "method" = None ->
      request_config data args w = Ok (cfg, up, qp) w' ->
      get_prop (w_heap w') (VRef cfg) "method"
      = match Action.method the_action with Some m => VStr m | None => VUndef end) /\
  (forall data args w cfg up qp w',
      Action.method definition = None ->
      actionsDefaults !! name ≫= Action.method = None ->
      own (settings resourceConfig) "method" = None ->
      request_config data args w = Ok (cfg, up, qp) w' ->
      get_prop (w_heap w') (VRef cfg) "method" = VStr name).
Proof.
  assert (Action.method the_action
          = match Action.method definition with
            | Some m => Some m
            | None =>
                match actionsDefaults !! name ≫= Action.method with
                | Some m => Some m
                | None => Some name
                end
            end) as Hm.
  { unfold action, Action.extend, Action.override. cbn [Action.method].
    destruct (Action.method definition); [done|].
    destruct (actionsDefaults !! name) as [d|]; cbn; [|done].
    by destruct (Action.method d). }
  assert (forall data args w cfg up qp w',
      own (settings resourceConfig) "method" = None ->
      request_config data args w = Ok (cfg, up, qp) w' ->
      get_prop (w_heap w') (VRef cfg) "method"
      = match Action.method the_action with Some m => VStr m | None => VUndef end) as Hreq.
  { intros data args w cfg up qp w' Hs H.
    apply requestConfig_frame in H as (_ & _ & _ & _ & _ & _ & ->).
    rewrite extend_object by done. unfold get_object. cbn [okind oprops proto_missing].
    rewrite own_fold_assign_other.
    - reflexivity.
    - unfold Config_props. cbn [map fst]. rewrite !not_elem_of_cons.
      split; [done|]. split; [done|]. by apply own_None_notin. }
  split; [exact Hm|]. split; [exact Hreq|].
  intros data args w cfg up qp w' Hd Hdef Hs H.
  rewrite (Hreq _ _ _ _ _ _ _ Hs H), Hm, Hd, Hdef. done.
Qed.

(** an entry of [queryParams], read back from the configuration of the
    request once the promise has been attached to the target of the call *)
Lemma attached_request_param es k e v data args w1 cfg up qp w2 t :
  request_config data args w1 = Ok (cfg, up, qp) w2 ->
  t < length (w_heap w1) ->
  Action.queryParams the_action = Some (PMap es) ->
  NoDup (map fst es) -> (k, e) ∈ es ->
  (forall h', (forall x, x < length (w_heap w1) -> deref h' x = deref (w_heap w1) x) ->
              entryValue args data h' (k, e) = v) ->
  get_prop (attached t (w_heap w2)) (get_prop (attached t (w_heap w2)) (VRef cfg) "params") k = v.
Proof.
  intros E Ht Hq Hnd Hin Hval.
  destruct (requestConfig_entry _ _ _ _ _ es data args w1 cfg up qp w2 k e v E Hnd Hin Hval) as [_ Hqp].
  destruct (Hqp Hq) as (l & -> & Hl & Hent).
  apply requestConfig_frame in E as (-> & _ & _ & Hlen & _ & Hparams & _).
  assert (get_prop (attached t (w_heap w2)) (VRef (length (w_heap w1))) "params" = VRef l) as ->.
  { unfold get_prop. rewrite deref_attached_other by lia. exact Hparams. }
  unfold get_prop. rewrite deref_attached_other by lia.
  by eapply extractedEntry_get.
Qed.

(** C7, as the code has it: the mapper string ["@2"] yields element 2 of the
    [args] the extractor is given, whatever the body and the default are.
    An instance call passes all its arguments, so this is its argument 2; a
    static call passes the arguments that follow the body, so this is
    argument 2 for an action without a body and argument 3 for an action
    that carries one. *)
Theorem mapper_at2_reads_args_2 :
  (forall h args data dflt, extract h args data "@2" dflt = default VUndef (args !! 2)) /\
  (forall es k data args w cfg up qp w',
      NoDup (map fst es) -> (k, PValue (VStr "@2")) ∈ es ->
      request_config data args w = Ok (cfg, up, qp) w' ->
      (Action.params the_action = Some (PMap es) ->
       get_prop (w_heap w') up k = default VUndef (args !! 2)) /\
      (Action.queryParams the_action = Some (PMap es) ->
       get_prop (w_heap w') qp k = default VUndef (args !! 2))) /\
  (forall es k arguments w c w' cfg limit,
      NoDup (map fst es) -> (k, PValue (VStr "@2")) ∈ es ->
      Action.queryParams the_action = Some (PMap es) ->
      static_call arguments w = Ok c w' ->
      outstanding c = Request cfg limit ->
      get_prop (w_heap w') (get_prop (w_heap w') cfg "params") k
      = default VUndef (arguments !! (if has_body then 3 else 2))) /\
  (forall es k this arguments w c w' cfg limit,
      NoDup (map fst es) -> (k, PValue (VStr "@2")) ∈ es ->
      Action.queryParams the_action = Some (PMap es) ->
      this < length (w_heap w) ->
      instance_call this arguments w = Ok c w' ->
      outstanding c = Request cfg limit ->
      get_prop (w_heap w') (get_prop (w_heap w') cfg "params") k
      = default VUndef (arguments !! 2)).
Proof.
  split; [intros; apply extract_at2|]. split; [|split].
  - intros es k data args w cfg up qp w' Hnd Hin E.
    destruct (requestConfig_entry _ _ _ _ _ es data args w cfg up qp w' k _ (default VUndef (args !! 2)) E Hnd Hin)
      as [Hup Hqp]; [done|].
    split; intros Hs.
    + destruct (Hup Hs) as (l & -> & _ & Hent). by eapply extractedEntry_get.
    + destruct (Hqp Hs) as (l & -> & _ & Hent). by eapply extractedEntry_get.
  - intros es k arguments w c w' cfg limit Hnd Hin Hq H Hout.
    apply static_performs in H as (w1 & p & w2 & _ & _ & Ht & E & Hc & ->).
    rewrite Hc in Hout. cbn [outstanding] in Hout. subst p.
    apply performAction_inv in E as (cfg' & up & qp & E & Hp).
    assert (cfg = VRef cfg') as -> by (destruct (enabled _ && _); congruence).
    cbn [w_heap].
    rewrite (attached_request_param es k (PValue (VStr "@2"))
               (default VUndef (drop (if has_body then 1 else 0) arguments !! 2))
               _ _ w1 cfg' up qp w2 (target c) E); try done; [|lia].
    rewrite lookup_drop. by destruct has_body.
  - intros es k this arguments w c w' cfg limit Hnd Hin Hq Hthis H Hout.
    apply instance_inv in H as (data & w1 & p & w2 & _ & Eu & E & Hc & ->).
    rewrite Hc in Hout. cbn [outstanding] in Hout. subst p.
    pose proof (unwrap_frame _ _ _ _ _ Eu) as [_ Hpre]. apply prefix_length in Hpre.
    apply performAction_inv in E as (cfg' & up & qp & E & Hp).
    assert (cfg = VRef cfg') as -> by (destruct (enabled _ && _); congruence).
    cbn [w_heap].
    by rewrite (attached_request_param es k (PValue (VStr "@2")) (default VUndef (arguments !! 2))
                  _ _ w1 cfg' up qp w2 this E); try done; try lia.
Qed.

(** the value of an entry ["@3.a.b"] does not depend on what was allocated
    after the argument it reads *)
Lemma at3ab_stable (h0 h' : heap) args data k :
  refs_below (length h0) (default VUndef (args !! 3)) ->
  refs_below (length h0) (get_prop h0 (default VUndef (args !! 3)) "a") ->
  (forall x, x < length h0 -> deref h' x = deref h0 x) ->
  entryValue args data h' (k, PValue (VStr "@3.a.b"))
  = lookupDottedPath h0 (default VUndef (args !! 3)) "a.b".
Proof.
  intros Hb3 Hba Hsame.
  change (lookupDottedPath h' (default VUndef (args !! 3)) "a.b"
          = lookupDottedPath h0 (default VUndef (args !! 3)) "a.b").
  rewrite !lookupDottedPath_ab. cbn zeta.
  rewrite (get_prop_agree h0 h' _ (default VUndef (args !! 3)) "a" Hb3 Hsame).
  destruct (isNullish (default VUndef (args !! 3))); [done|].
  destruct (isNullish (get_prop h0 (default VUndef (args !! 3)) "a")); [done|].
  by apply (get_prop_agree h0 h' (length h0)).
Qed.

(** [a.b] of a value is undefined when the value, or its member [a], is *)
Lemma lookupDottedPath_ab_undefined h v :
  isUndefined v = true \/ isUndefined (get_prop h v "a") = true ->
  lookupDottedPath h v "a.b" = VUndef.
Proof.
  intros H. rewrite lookupDottedPath_ab.
  destruct v as [| | | |s| |l]; try done;
    destruct H as [H|H]; try done; cbn [isNullish isUndefined isNull orb] in *.
  destruct (get_prop h (VRef l) "a"); done.
Qed.

(** C8, as the code has it: the mapper string ["@3.a.b"] yields the dotted
    lookup [a.b] on element 3 of the [args] the extractor is given; the
    result is undefined when that element, or its member [a], is undefined.
    An entry of a parameter map with this mapper is stored under its key
    with exactly that value, whatever it is, and when the value is undefined
    (or null) the missing flag of the extraction is raised, which a caller
    reading [$$missing] sees unless the map declares a key of that very
    name.  An instance call passes all its arguments, so the element is its
    argument 3; a static call passes the arguments that follow the body, so
    it is argument 3 for an action without a body and argument 4 for an
    action that carries one. *)
Theorem mapper_at3_dotted_lookup :
  (forall h args data dflt,
      extract h args data "@3.a.b" dflt = lookupDottedPath h (default VUndef (args !! 3)) "a.b") /\
  (forall h v,
      lookupDottedPath h v "a.b"
      = let a := if isNullish v then VUndef else get_prop h v "a" in
        if isNullish a then VUndef else get_prop h a "b") /\
  (forall h args data dflt,
      isUndefined (default VUndef (args !! 3)) = true \/
      isUndefined (get_prop h (default VUndef (args !! 3)) "a") = true ->
      extract h args data "@3.a.b" dflt = VUndef) /\
  (forall es k data args w cfg up qp w',
      NoDup (map fst es) -> (k, PValue (VStr "@3.a.b")) ∈ es ->
      refs_below (length (w_heap w)) (default VUndef (args !! 3)) ->
      refs_below (length (w_heap w)) (get_prop (w_heap w) (default VUndef (args !! 3)) "a") ->
      request_config data args w = Ok (cfg, up, qp) w' ->
      let argument := default VUndef (args !! 3) in
      let v := lookupDottedPath (w_heap w) argument "a.b" in
      (Action.params the_action = Some (PMap es) ->
       exists l, up = VRef l /\
         get_prop (w_heap w') up k = v /\
         (isNullish v = true ->
          proto_missing (deref (w_heap w') l) = true /\
          ("$$missing" ∉ map fst es -> missing (w_heap w') up = true)) /\
         (isUndefined argument = true \/
          isUndefined (get_prop (w_heap w) argument "a") = true ->
          get_prop (w_heap w') up k = VUndef /\
          proto_missing (deref (w_heap w') l) = true)) /\
      (Action.queryParams the_action = Some (PMap es) ->
       exists l, qp = VRef l /\
         get_prop (w_heap w') qp k = v /\
         (isNullish v = true ->
          proto_missing (deref (w_heap w') l) = true /\
          ("$$missing" ∉ map fst es -> missing (w_heap w') qp = true)) /\
         (isUndefined argument = true \/
          isUndefined (get_prop (w_heap w) argument "a") = true ->
          get_prop (w_heap w') qp k = VUndef /\
          proto_missing (deref (w_heap w') l) = true))) /\
  (forall es k arguments w c w' cfg limit,
      NoDup (map fst es) -> (k, PValue (VStr "@3.a.b")) ∈ es ->
      Action.queryParams the_action = Some (PMap es) ->
      let argument := default VUndef (arguments !! (if has_body then 4 else 3)) in
      refs_below (length (w_heap w)) argument ->
      refs_below (length (w_heap w)) (get_prop (w_heap w) argument "a") ->
      static_call arguments w = Ok c w' ->
      outstanding c = Request cfg limit ->
      get_prop (w_heap w') (get_prop (w_heap w') cfg "params") k
      = lookupDottedPath (w_heap w) argument "a.b") /\
  (forall es k this arguments w c w' cfg limit,
      NoDup (map fst es) -> (k, PValue (VStr "@3.a.b")) ∈ es ->
      Action.queryParams the_action = Some (PMap es) ->
      let argument := default VUndef (arguments !! 3) in
      refs_below (length (w_heap w)) argument ->
      refs_below (length (w_heap w)) (get_prop (w_heap w) argument "a") ->
      this < length (w_heap w) ->
      instance_call this arguments w = Ok c w' ->
      outstanding c = Request cfg limit ->
      get_prop (w_heap w') (get_prop (w_heap w') cfg "params") k
      = lookupDottedPath (w_heap w) argument "a.b").
Proof.
  split; [intros; apply extract_at3ab|]. split; [intros; apply lookupDottedPath_ab|].
  split; [|split; [|split]].
  - intros h args data dflt H. rewrite extract_at3ab.
    by apply lookupDottedPath_ab_undefined.
  - intros es k data args w cfg up qp w' Hnd Hin Hb3 Hba E argument v.
    destruct (requestConfig_entry _ _ _ _ _ es data args w cfg up qp w' k _ v E Hnd Hin) as [Hup Hqp].
    { intros h' Hsame. by apply at3ab_stable. }
    split; intros Hs.
    + destruct (Hup Hs) as (l & -> & _ & Hent). exists l. split; [done|].
      split; [by eapply extractedEntry_get|]. split.
      * intros Hnull. split; [by apply Hent|]. intros Hno. by eapply extractedEntry_missing.
      * intros Hundef. apply lookupDottedPath_ab_undefined in Hundef. fold v in Hundef.
        split; [rewrite <- Hundef; by eapply extractedEntry_get|].
        apply Hent. by rewrite Hundef.
    + destruct (Hqp Hs) as (l & -> & _ & Hent). exists l. split; [done|].
      split; [by eapply extractedEntry_get|]. split.
      * intros Hnull. split; [by apply Hent|]. intros Hno. by eapply extractedEntry_missing.
      * intros Hundef. apply lookupDottedPath_ab_undefined in Hundef. fold v in Hundef.
        split; [rewrite <- Hundef; by eapply extractedEntry_get|].
        apply Hent. by rewrite Hundef.
  - intros es k arguments w c w' cfg limit Hnd Hin Hq argument Hb3 Hba H Hout.
    apply static_performs in H as (w1 & p & w2 & _ & Hpre & Ht & E & Hc & ->).
    rewrite Hc in Hout. cbn [outstanding] in Hout. subst p.
    apply performAction_inv in E as (cfg' & up & qp & E & Hp).
    assert (cfg = VRef cfg') as -> by (destruct (enabled _ && _); congruence).
    cbn [w_heap].
    assert (default VUndef (drop (if has_body then 1 else 0) arguments !! 3) = argument) as Harg.
    { unfold argument. rewrite lookup_drop. by destruct has_body. }
    rewrite (attached_request_param es k (PValue (VStr "@3.a.b"))
               (lookupDottedPath (w_heap w) argument "a.b")
               _ _ w1 cfg' up qp w2 (target c) E); try done; [lia|].
    intros h' Hsame. rewrite <- Harg. apply at3ab_stable; rewrite ?Harg; try done.
    intros x Hx. pose proof (prefix_length _ _ Hpre).
    rewrite Hsame by lia. by apply prefix_deref.
  - intros es k this arguments w c w' cfg limit Hnd Hin Hq argument Hb3 Hba Hthis H Hout.
    apply instance_inv in H as (data & w1 & p & w2 & _ & Eu & E & Hc & ->).
    rewrite Hc in Hout. cbn [outstanding] in Hout. subst p.
    pose proof (unwrap_frame _ _ _ _ _ Eu) as [_ Hpre].
    pose proof (prefix_length _ _ Hpre) as Hlen.
    apply performAction_inv in E as (cfg' & up & qp & E & Hp).
    assert (cfg = VRef cfg') as -> by (destruct (enabled _ && _); congruence).
    cbn [w_heap].
    rewrite (attached_request_param es k (PValue (VStr "@3.a.b"))
               (lookupDottedPath (w_heap w) argument "a.b")
               _ _ w1 cfg' up qp w2 this E); try done; [lia|].
    intros h' Hsame. apply at3ab_stable; try done.
    intros x Hx. rewrite Hsame by lia. by apply prefix_deref.
Qed.

(** the finalizer of a call, [AbstractResource.bind(target, true)], on a world *)
Lemma finally_clears t (p : settled) :
  finally (AbstractResource t (VBool true)) p
  = (World (delete_prop t "$$unresolved" (w_heap (fst p))) (w_log (fst p)), snd p).
Proof. reflexivity. Qed.

(** C2: with [skipOnMissingParams], when the extraction of the path
    parameters or of the query parameters signals missing, [performAction]
    short-circuits: its promise is fulfilled with [null], nothing is logged
    (neither the transport nor an interceptor nor [postProcess] has run), and
    once the call is settled the target of the call has lost its
    [$$unresolved] flag. *)
Theorem skip_on_missing_params :
  forall data args w cfg up qp w',
    enabled (Action.skipOnMissingParams the_action) = true ->
    request_config data args w = Ok (cfg, up, qp) w' ->
    missing (w_heap w') up || missing (w_heap w') qp = true ->
    perform_action data args w = Ok Skipped w' /\
    w_log w' = w_log w /\
    (forall w1, settle_perform Skipped w1 = (w1, Fulfilled VNull)) /\
    (forall c w1,
        outstanding c = Skipped ->
        let wf := World (delete_prop (target c) "$$unresolved" (w_heap w1)) (w_log w1) in
        let v := if has_body && enabled (Action.ignoreResponse the_action)
                 then VNull else VRef (target c) in
        settle_static c w1 = (wf, Fulfilled v) /\
        settle_instance c w1 = (wf, Fulfilled v) /\
        w_log wf = w_log w1 /\
        get_prop (w_heap wf) (VRef (target c)) "$$unresolved" = VUndef).
Proof.
  intros data args w cfg up qp w' Hskip E Hmiss.
  split; [|split; [|split]].
  - unfold performAction. unfold mbind, M_bind. rewrite E. unfold read. cbn [w_heap].
    by rewrite Hskip, Hmiss.
  - by apply requestConfig_frame in E as (_ & -> & _).
  - reflexivity.
  - intros c w1 Hout wf v.
    split; [|split; [|split]].
    + unfold settleStatic. rewrite Hout. cbn [settlePerformAction].
      rewrite finally_clears. cbn [fst snd]. fold wf.
      destruct (enabled (Action.isArray the_action)).
      * unfold thenM, updateResourceArray, v.
        destruct (has_body && enabled (Action.ignoreResponse the_action)); reflexivity.
      * unfold thenM, updateResource, v.
        destruct (has_body && enabled (Action.ignoreResponse the_action)); reflexivity.
    + unfold settleInstance. rewrite Hout. cbn [settlePerformAction].
      rewrite finally_clears. cbn [fst snd]. fold wf.
      unfold thenM, updateResource, v.
      destruct (has_body && enabled (Action.ignoreResponse the_action)); reflexivity.
    + reflexivity.
    + apply get_prop_delete_unresolved.
Qed.

(** X20: the unwrapping step of the invoker, case by case.  When the response
    phase fulfils with [response] and [rawResponse] is what the transport
    fulfilled with ([undefined] when it did not fulfil, or was not run): if
    the two are different, [response] is handed on as it is; if they are the
    same and not undefined or null, [response.data] is; if they are the same
    and undefined or null, reading [response.data] throws and the promise is
    rejected with a TypeError.  [postProcess], when there is one, is then
    given the result, and is not run on the rejection. *)
Theorem response_unwrapped_by_identity :
  forall config limit w w3 response rawResponse,
    response_phase config limit w = ((w3, Fulfilled response), rawResponse) ->
    let result := if decide (rawResponse = response)
                  then get_prop (w_heap w3) response "data" else response in
    let unwrapped := if bool_decide (rawResponse = response) && isNullish response
                     then Rejected (Thrown NativeTypeError) else Fulfilled result in
    (Action.postProcess the_action = None ->
     settle_perform (Request config limit) w = (w3, unwrapped)) /\
    (forall f, Action.postProcess the_action = Some f ->
     settle_perform (Request config limit) w
     = match unwrapped with
       | Fulfilled v => callback PostProcess (f v) w3
       | Rejected r => (w3, Rejected r)
       end) /\
    (forall l, rawResponse = VRef l -> response = VRef l ->
               unwrapped = Fulfilled (get_prop (w_heap w3) (VRef l) "data")) /\
    (rawResponse <> response -> unwrapped = Fulfilled response) /\
    (rawResponse = response -> isNullish response = true ->
     unwrapped = Rejected (Thrown NativeTypeError)) /\
    (forall wr config' h' r,
        throughRequestInterceptors instancedInterceptors (w, Fulfilled config) limit
          = (wr, Fulfilled config') ->
        http config' (w_heap wr) = (h', Fulfilled r) ->
        rawResponse = r) /\
    (forall wr config' h' r,
        throughRequestInterceptors instancedInterceptors (w, Fulfilled config) limit
          = (wr, Fulfilled config') ->
        http config' (w_heap wr) = (h', Rejected r) ->
        rawResponse = VUndef) /\
    (forall wr r,
        throughRequestInterceptors instancedInterceptors (w, Fulfilled config) limit
          = (wr, Rejected r) ->
        rawResponse = VUndef).
Proof.
  intros config limit w w3 response rawResponse E result unwrapped.
  assert (thenM (unwrapResponse rawResponse) (w3, Fulfilled response) = (w3, unwrapped)) as Hu.
  { unfold thenM, unwrapResponse, strict_eq, unwrapped, result, member.
    destruct (decide (rawResponse = response)) as [Heq|Hne].
    - rewrite bool_decide_eq_true_2 by done. cbn [andb].
      by destruct (isNullish response).
    - rewrite bool_decide_eq_false_2 by done. reflexivity. }
  split; [|split; [|split; [|split; [|split; [|split; [|split]]]]]].
  - intros Hpp. unfold settlePerformAction. rewrite E, Hu, Hpp. reflexivity.
  - intros f Hpp. unfold settlePerformAction. rewrite E, Hu, Hpp.
    by destruct unwrapped.
  - intros l -> ->. unfold unwrapped, result.
    rewrite decide_True by done. by rewrite bool_decide_eq_true_2.
  - intros Hne. unfold unwrapped, result.
    rewrite bool_decide_eq_false_2 by done. by rewrite decide_False.
  - intros Heq Hn. unfold unwrapped. rewrite bool_decide_eq_true_2 by done. by rewrite Hn.
  - intros wr config' h' r Ereq Ehttp. unfold responsePhase in E. rewrite Ereq in E.
    unfold transport, callback in E. rewrite Ehttp in E. cbn [snd] in E.
    by injection E as _ <-.
  - intros wr config' h' r Ereq Ehttp. unfold responsePhase in E. rewrite Ereq in E.
    unfold transport, callback in E. rewrite Ehttp in E. cbn [snd] in E.
    by injection E as _ <-.
  - intros wr r Ereq. unfold responsePhase in E. rewrite Ereq in E.
    unfold transport in E. by injection E as _ <-.
Qed.

(** C6: when the transport or an interceptor leaves the promise of the
    invoker rejected, the promise of the call is rejected with the same
    reason (neither the unwrapping nor [postProcess] nor the update catches
    it), all the same the finalizer has deleted [$$unresolved] from the
    target, and an instance call on that target does not raise the
    reentrancy error.  On every outcome the flag is deleted before the
    update callback is given the result. *)
Theorem rejection_propagates_and_flag_is_cleared :
  (forall c config limit w w1 r rawResponse,
      outstanding c = Request config limit ->
      response_phase config limit w = ((w1, Rejected r), rawResponse) ->
      let wf := World (delete_prop (target c) "$$unresolved" (w_heap w1)) (w_log w1) in
      settle_perform (outstanding c) w = (w1, Rejected r) /\
      settle_static c w = (wf, Rejected r) /\
      settle_instance c w = (wf, Rejected r) /\
      get_prop (w_heap wf) (VRef (target c)) "$$unresolved" = VUndef /\
      (forall arguments n w',
          instance_call (target c) arguments wf <> Throw (UnresolvedRequest n) w')) /\
  (forall c w w1 o,
      settle_perform (outstanding c) w = (w1, o) ->
      let wf := World (delete_prop (target c) "$$unresolved" (w_heap w1)) (w_log w1) in
      get_prop (w_heap wf) (VRef (target c)) "$$unresolved" = VUndef /\
      settle_instance c w = thenM (update_resource (VRef (target c))) (wf, o) /\
      (enabled (Action.isArray the_action) = false ->
       settle_static c w = thenM (update_resource (VRef (target c))) (wf, o))).
Proof.
  split.
  - intros c config limit w w1 r rawResponse Hout E wf.
    assert (settle_perform (outstanding c) w = (w1, Rejected r)) as Hs.
    { rewrite Hout. unfold settlePerformAction. rewrite E. cbn [thenM].
      by destruct (Action.postProcess the_action). }
    split; [exact Hs|]. split; [|split; [|split]].
    + unfold settleStatic. rewrite Hs, finally_clears. cbn [fst snd].
      by destruct (enabled (Action.isArray the_action)).
    + unfold settleInstance. by rewrite Hs, finally_clears.
    + apply get_prop_delete_unresolved.
    + intros arguments n w'. apply instance_not_reentrant.
      unfold wf. cbn [w_heap]. by rewrite get_prop_delete_unresolved.
  - intros c w w1 o Hs wf. split; [apply get_prop_delete_unresolved|]. split.
    + unfold settleInstance. by rewrite Hs, finally_clears.
    + intros Hsingle. unfold settleStatic. by rewrite Hs, finally_clears, Hsingle.
Qed.

(** C3, as the code has it.  A static call of a singular action that returns
    has built a wrapper at a new location, from the first argument when the
    action carries a body and from [null] (an empty shell) otherwise; it
    returns that wrapper with a promise attached and [$$unresolved] set.
    When the promise of the invoker is fulfilled with [data], the promise of
    the call is fulfilled with the same wrapper, into which [data] has been
    merged by [Resource.call(wrapper, data)] (nothing else changes; the keys
    of a plain object are then read on the wrapper), unless the action
    carries a body and [ignoreResponse] is set: then the wrapper only loses
    its flag and the promise is fulfilled with [data]. *)
Theorem static_single_wrapper :
  (forall arguments w c w',
      enabled (Action.isArray the_action) = false ->
      static_call arguments w = Ok c w' ->
      let data := if has_body then default VUndef (arguments !! 0) else VNull in
      returned c = VRef (target c) /\
      target c = length (w_heap w) /\
      (exists w1, new_Resource data w = Ok (target c) w1 /\
                  forall k, k <> "$promise" -> k <> "$$unresolved" ->
                            get_prop (w_heap w') (VRef (target c)) k
                            = get_prop (w_heap w1) (VRef (target c)) k) /\
      get_prop (w_heap w') (VRef (target c)) "$$unresolved" = VBool true /\
      (exists p, get_prop (w_heap w') (VRef (target c)) "$promise" = VRef p /\
                 w_heap w' !! p = Some promise_object)) /\
  (forall c w w1 data,
      enabled (Action.isArray the_action) = false ->
      settle_perform (outstanding c) w = (w1, Fulfilled data) ->
      let wf := World (delete_prop (target c) "$$unresolved" (w_heap w1)) (w_log w1) in
      (has_body && enabled (Action.ignoreResponse the_action) = false ->
       exists w2,
         Resource (VRef (target c)) data wf = Ok tt w2 /\
         settle_static c w = (w2, Fulfilled (VRef (target c))) /\
         w_log w2 = w_log w1 /\
         (forall x, x <> target c -> deref (w_heap w2) x = deref (w_heap wf) x) /\
         (forall d ds k v,
             data = VRef d -> d <> target c -> target c < length (w_heap w1) ->
             okind (deref (w_heap w1) (target c)) = KObject ->
             deref (w_heap w1) d = Obj KObject [] ds false ->
             NoDup (map fst ds) -> own ds k = Some v ->
             get_prop (w_heap w2) (VRef (target c)) k = v)) /\
      (has_body && enabled (Action.ignoreResponse the_action) = true ->
       settle_static c w = (wf, Fulfilled data))).
Proof.
  split.
  - intros arguments w c w' Hs H data.
    apply static_single_inv in H as (w1 & p & w2 & _ & En & E & Hc & ->); [|done].
    fold data in En, E.
    pose proof En as En'. rewrite new_Resource_merge in En'. injection En' as Ht Hw1.
    apply performAction_inv in E as (cfg & up & qp & E & _).
    apply requestConfig_frame in E as (_ & _ & Hp & _).
    assert (length (w_heap w1) = S (length (w_heap w))) as Hl1.
    { rewrite <- Hw1. cbn [w_heap]. rewrite length_merge, length_app. simpl. lia. }
    pose proof (prefix_length _ _ Hp) as Hl2.
    assert (okind (deref (w_heap w1) (target c)) = KObject) as Hk1.
    { rewrite <- Hw1, <- Ht. cbn [w_heap]. rewrite okind_merge. by rewrite deref_alloc_new. }
    assert (okind (deref (w_heap w2) (target c)) = KObject) as Hk2.
    { rewrite (prefix_deref _ _ _ Hp) by lia. done. }
    cbn [w_heap].
    split; [by rewrite Hc|]. split; [done|]. split; [|split].
    + exists w1. split; [done|]. intros k Hkp Hku.
      rewrite get_prop_attached_data by (done || lia).
      unfold get_prop. by rewrite (prefix_deref _ _ _ Hp) by lia.
    + apply get_prop_attached_flag. lia.
    + exists (length (w_heap w2)). split.
      * apply get_prop_attached_promise; [lia|done].
      * apply lookup_attached_promise. lia.
  - intros c w w1 data Hs Hperf wf. subst wf. split.
    + intros Hig. eexists. split; [apply Resource_merge|]. cbn [w_heap w_log].
      split; [|split; [done|split]].
      * unfold settleStatic. rewrite Hs, Hperf, finally_clears. cbn [fst snd].
        unfold thenM, updateResource. rewrite Hig. unfold mbind, M_bind.
        by rewrite Resource_merge.
      * intros x Hx. by apply deref_merge_ne.
      * intros d ds k v -> Hd Hl Hk Hds Hnd Hown. unfold get_prop.
        rewrite merge_deref; [|by rewrite length_delete_prop|congruence].
        eapply mergedObject_plain_get; [|  |exact Hnd|exact Hown].
        -- by rewrite okind_delete_prop.
        -- rewrite deref_delete_prop_ne by done. exact Hds.
    + intros Hig. unfold settleStatic. rewrite Hs, Hperf, finally_clears. cbn [fst snd].
      unfold thenM, updateResource. by rewrite Hig.
Qed.

(** X19: a collection action that carries a body.  Such an action, called
    with an array of [n] elements, builds [n] wrappers at [n] new locations,
    the one at index [i] from element [i], and returns the array of them with
    the flag set.  When the promise of the invoker is fulfilled with [data]
    and [ignoreResponse] is not set: an array whose elements from index [n]
    on, if it has any, are undefined or null updates the wrapper at index
    [i] in place with its element [i], whatever its length, by
    [Resource.call(wrapper, element)], leaves the other wrappers and
    everything else as they are, and fulfils the promise of the call with
    the same array of wrappers; a value that is defined, not null and not an
    array rejects it with the array-type error; undefined and null update
    nothing. *)
Theorem collection_with_body :
  (forall arguments w c w',
      enabled (Action.isArray the_action) = true -> has_body = true ->
      static_call arguments w = Ok c w' ->
      exists d,
        arguments !! 0 = Some (VRef d) /\
        okind (deref (w_heap w) d) = KArray /\
        returned c = VRef (target c) /\
        okind (deref (w_heap w') (target c)) = KArray /\
        elems (deref (w_heap w') (target c))
          = map VRef (seq (length (w_heap w)) (length (elems (deref (w_heap w) d)))) /\
        (forall i item,
            elems (deref (w_heap w) d) !! i = Some item ->
            refs_below (length (w_heap w)) item ->
            deref (w_heap w') (length (w_heap w) + i) = wrapperOf (w_heap w) item) /\
        get_prop (w_heap w') (VRef (target c)) "$$unresolved" = VBool true) /\
  (forall c w w1 data,
      enabled (Action.isArray the_action) = true -> has_body = true ->
      enabled (Action.ignoreResponse the_action) = false ->
      settle_perform (outstanding c) w = (w1, Fulfilled data) ->
      let wf := World (delete_prop (target c) "$$unresolved" (w_heap w1)) (w_log w1) in
      (forall d rs,
          data = VRef d -> okind (deref (w_heap w1) d) = KArray ->
          elems (deref (w_heap w1) (target c)) = map VRef rs ->
          (forall j item, elems (deref (w_heap w1) d) !! j = Some item ->
                          length rs <= j -> isNullish item = true) ->
          NoDup rs -> target c ∉ rs -> d ∉ rs ->
          (forall r, r ∈ rs -> r < length (w_heap w1)) ->
          (forall item r, item ∈ elems (deref (w_heap w1) d) -> r ∈ rs -> item <> VRef r) ->
          exists w2,
            settle_static c w = (w2, Fulfilled (VRef (target c))) /\
            w_log w2 = w_log w1 /\
            (forall x, x ∉ rs -> deref (w_heap w2) x = deref (w_heap wf) x) /\
            (forall i r, rs !! i = Some r ->
               match elems (deref (w_heap w1) d) !! i with
               | Some item =>
                   deref (w_heap w2) r = mergedObject (deref (w_heap wf) r) (w_heap wf) item
               | None => deref (w_heap w2) r = deref (w_heap wf) r
               end)) /\
      (isNullish data = false -> isArray (w_heap w1) data = false ->
       settle_static c w = (wf, Rejected (Thrown (ExpectedArrayError name)))) /\
      (isNullish data = true ->
       settle_static c w = (wf, Fulfilled (VRef (target c))))).
Proof.
  split.
  - intros arguments w c w' Hs Hb H.
    apply static_array_inv in H as (d & w0 & p & w2 & E0 & Hk & Em & Ht & E & Hc & ->); try done.
    destruct (mapResource_spec (elems (deref (w_heap w) d)) w)
      as (w0' & Em' & _ & Hp0 & Hlen0 & Hwrap).
    rewrite Em in Em'. injection Em' as <-.
    apply performAction_inv in E as (cfg & up & qp & E & _).
    apply requestConfig_frame in E as (_ & _ & Hp & _). cbn [w_heap] in *.
    pose proof (prefix_length _ _ Hp) as Hl2. rewrite length_app in Hl2. simpl in Hl2.
    assert (deref (w_heap w2) (target c)
            = Obj KArray (map VRef (seq (length (w_heap w))
                                        (length (elems (deref (w_heap w) d))))) [] false) as Harr.
    { rewrite (prefix_deref _ _ _ Hp) by (rewrite length_app; simpl; lia).
      rewrite Ht. apply deref_alloc_new. }
    exists d. split; [done|]. split; [done|]. split; [by rewrite Hc|].
    split; [|split; [|split]].
    + unfold attached. rewrite !okind_set_prop, deref_alloc_old by lia. by rewrite Harr.
    + rewrite elems_attached by lia. by rewrite Harr.
    + intros i item Hi Hbelow.
      pose proof (lookup_lt_Some _ _ _ Hi) as Hilt.
      rewrite deref_attached_other by lia.
      rewrite (prefix_deref _ _ _ Hp) by (rewrite length_app; simpl; lia).
      rewrite deref_alloc_old by lia. apply deref_Some. by apply Hwrap.
    + apply get_prop_attached_flag. lia.
  - intros c w w1 data Hs Hb Hig Hperf wf. subst wf.
    assert (settle_static c w
            = thenM (update_array (target c) (modifyResource (target c)))
                    (World (delete_prop (target c) "$$unresolved" (w_heap w1)) (w_log w1),
                     Fulfilled data)) as Hsettle.
    { unfold settleStatic. by rewrite Hs, Hb, Hperf, finally_clears. }
    rewrite Hsettle. unfold thenM, updateResourceArray. rewrite Hb, Hig. cbn [andb].
    split; [|split].
    + intros d rs -> Hk Helems Hlen Hnd Htr Hdr Hlive Hitems.
      cbn [isDefined isUndefined isNull negb andb]. mstep.
      rewrite isArray_delete_prop. unfold isArray. rewrite bool_decide_eq_true_2 by done.
      unfold forEach. mstep. rewrite elems_delete_prop.
      destruct (modify_loop (length (elems (deref (w_heap w1) d))) 0
                  (delete_prop (target c) "$$unresolved" (w_heap w1)) (w_log w1)
                  d (target c) rs (elems (deref (w_heap w1) d)))
        as (h' & E & Hlen' & Hout & Hidx); try done.
      { apply elems_delete_prop. }
      { by rewrite elems_delete_prop. }
      { intros r Hr. rewrite length_delete_prop. by apply Hlive. }
      rewrite E. eexists. split; [reflexivity|]. cbn [w_heap w_log].
      split; [done|]. split; [exact Hout|].
      intros i r Hi. destruct (Hidx i r Hi) as [Hin Hnot].
      destruct (elems (deref (w_heap w1) d) !! i) as [item|] eqn:Hitem.
      * destruct Hin as (it & Hit & Hr); [apply lookup_lt_Some in Hitem; lia|].
        by injection Hit as <-.
      * apply Hnot. apply lookup_ge_None in Hitem. lia.
    + intros Hnn Harr. unfold isNullish in Hnn. apply orb_false_elim in Hnn as [Hu Hn].
      unfold isDefined. rewrite Hu, Hn. cbn [negb andb]. mstep.
      by rewrite isArray_delete_prop, Harr.
    + intros Hnn. unfold isNullish in Hnn. unfold isDefined.
      destruct data; try discriminate; reflexivity.
Qed.

End Claims.

(** * The claims on concrete scenarios *)

(** C5 on [Resource.get()]: the wrapper just returned refuses [$get]. *)
Lemma instance_call_while_unresolved_witness :
  truthy (get_prop (w_heap (snd Scenario.getCalled))
                   (VRef (target (fst Scenario.getCalled))) "$$unresolved") = true /\
  instance Scenario.noDefaults Scenario.replace Scenario.invoke Scenario.userConfig "get" Scenario.getQuiet
           (target (fst Scenario.getCalled)) [] (snd Scenario.getCalled)
  = Throw (UnresolvedRequest "get") (snd Scenario.getCalled) /\
  instance Scenario.noDefaults Scenario.replace Scenario.invoke Scenario.userConfig "get" Scenario.getQuiet
           (target (fst Scenario.getCalled)) [VNum 1] (snd Scenario.getCalled)
  = Throw (UnresolvedRequest "get") (snd Scenario.getCalled).
Proof.
  split; [reflexivity|]. split.
  - apply (proj1 (instance_call_while_unresolved
                    Scenario.noDefaults Scenario.replace Scenario.invoke Scenario.userConfig "get" Scenario.getQuiet)).
    reflexivity.
  - apply (proj2 (instance_call_while_unresolved
                    Scenario.noDefaults Scenario.replace Scenario.invoke Scenario.userConfig "get" Scenario.getQuiet)
                 [] (World [] [])).
    reflexivity.
Defined.

(** [find] names no method: the request is a [find] request. *)
Lemma method_defaults_to_action_name_witness :
  requestConfig Scenario.noDefaults Scenario.replace Scenario.userConfig "find" Scenario.find
                VNull [VRef 0] (World [Scenario.plain []] [])
  = Ok (1, VRef 2, VNull) (snd Scenario.findConfigured) /\
  get_prop (w_heap (snd Scenario.findConfigured)) (VRef 1) "method" = VStr "find".
Proof.
  assert (requestConfig Scenario.noDefaults Scenario.replace Scenario.userConfig "find" Scenario.find
                VNull [VRef 0] (World [Scenario.plain []] [])
          = Ok (1, VRef 2, VNull) (snd Scenario.findConfigured)) as E
      by (vm_compute; reflexivity).
  split; [exact E|].
  exact (proj2 (proj2 (method_defaults_to_action_name
                         Scenario.noDefaults Scenario.replace Scenario.userConfig "find" Scenario.find))
               VNull [VRef 0] (World [Scenario.plain []] []) 1 (VRef 2) VNull
               (snd Scenario.findConfigured) eq_refl eq_refl eq_refl E).
Defined.

(** C7 on [Resource.save(body, 10, 20, 30)]: [id] is the argument at index 3. *)
Lemma mapper_at2_reads_args_2_witness :
  static Scenario.noDefaults Scenario.replace Scenario.userConfig "save" Scenario.saveAt2
         Scenario.saveArguments (World Scenario.store0 [])
  = Ok (fst Scenario.saveCalled) (snd Scenario.saveCalled) /\
  hasBody Scenario.noDefaults "save" Scenario.saveAt2 = true /\
  get_prop (w_heap (snd Scenario.saveCalled))
           (get_prop (w_heap (snd Scenario.saveCalled)) (VRef 13) "params") "id"
  = default VUndef (Scenario.saveArguments !! 3).
Proof.
  assert (static Scenario.noDefaults Scenario.replace Scenario.userConfig "save" Scenario.saveAt2
                 Scenario.saveArguments (World Scenario.store0 [])
          = Ok (fst Scenario.saveCalled) (snd Scenario.saveCalled)) as E
      by (vm_compute; reflexivity).
  split; [exact E|]. split; [reflexivity|].
  exact (proj1 (proj2 (proj2 (mapper_at2_reads_args_2
                                Scenario.noDefaults Scenario.replace Scenario.invoke Scenario.userConfig "save" Scenario.saveAt2)))
               [("id", PValue (VStr "@2"))] "id" Scenario.saveArguments
               (World Scenario.store0 []) (fst Scenario.saveCalled) (snd Scenario.saveCalled)
               (VRef 13) 0
               (NoDup_singleton "id")
               (proj2 (list_elem_of_singleton _ _) eq_refl)
               eq_refl E eq_refl).
Defined.

(** C8 on [fetch] with the arguments [(1, 2, 3, {a: 1})]: [deep] is undefined
    and the missing flag is raised; and on
    [Resource.save(body, 10, 20, 30, {a: {b: 7}})], an action with a body:
    [deep] is 7, read from the argument at index 4. *)
Lemma mapper_at3_dotted_lookup_witness :
  (requestConfig Scenario.noDefaults Scenario.replace Scenario.userConfig "fetch" Scenario.fetch
                 VNull Scenario.fetchArguments (World Scenario.store0 [])
   = Ok (12, VNull, VRef 13) (snd Scenario.fetchConfigured) /\
   lookupDottedPath Scenario.store0 (default VUndef (Scenario.fetchArguments !! 3)) "a.b" = VUndef /\
   exists l,
     VRef 13 = VRef l /\
     get_prop (w_heap (snd Scenario.fetchConfigured)) (VRef 13) "deep"
     = lookupDottedPath Scenario.store0 (default VUndef (Scenario.fetchArguments !! 3)) "a.b" /\
     (isNullish (lookupDottedPath Scenario.store0
                   (default VUndef (Scenario.fetchArguments !! 3)) "a.b") = true ->
      proto_missing (deref (w_heap (snd Scenario.fetchConfigured)) l) = true /\
      ("$$missing" ∉ map fst [("id", PValue (VStr "@2")); ("deep", PValue (VStr "@3.a.b"))] ->
       missing (w_heap (snd Scenario.fetchConfigured)) (VRef 13) = true)) /\
     (isUndefined (default VUndef (Scenario.fetchArguments !! 3)) = true \/
      isUndefined (get_prop Scenario.store0
                     (default VUndef (Scenario.fetchArguments !! 3)) "a") = true ->
      get_prop (w_heap (snd Scenario.fetchConfigured)) (VRef 13) "deep" = VUndef /\
      proto_missing (deref (w_heap (snd Scenario.fetchConfigured)) l) = true)) /\
  (static Scenario.noDefaults Scenario.replace Scenario.userConfig "save" Scenario.saveDeep
          Scenario.saveDeeperArguments (World Scenario.storeDeep [])
   = Ok (fst Scenario.saveDeeperCalled) (snd Scenario.saveDeeperCalled) /\
   hasBody Scenario.noDefaults "save" Scenario.saveDeep = true /\
   lookupDottedPath Scenario.storeDeep
                    (default VUndef (Scenario.saveDeeperArguments !! 4)) "a.b" = VNum 7 /\
   get_prop (w_heap (snd Scenario.saveDeeperCalled))
            (get_prop (w_heap (snd Scenario.saveDeeperCalled)) (VRef 4) "params") "deep"
   = lookupDottedPath Scenario.storeDeep
                      (default VUndef (Scenario.saveDeeperArguments !! 4)) "a.b").
Proof.
  split.
  - assert (requestConfig Scenario.noDefaults Scenario.replace Scenario.userConfig "fetch" Scenario.fetch
                  VNull Scenario.fetchArguments (World Scenario.store0 [])
            = Ok (12, VNull, VRef 13) (snd Scenario.fetchConfigured)) as E
        by (vm_compute; reflexivity).
    split; [exact E|]. split; [reflexivity|].
    refine (proj2 (proj1 (proj2 (proj2 (proj2 (mapper_at3_dotted_lookup
                Scenario.noDefaults Scenario.replace Scenario.invoke Scenario.userConfig
                "fetch" Scenario.fetch))))
              [("id", PValue (VStr "@2")); ("deep", PValue (VStr "@3.a.b"))] "deep"
              VNull Scenario.fetchArguments (World Scenario.store0 [])
              12 VNull (VRef 13) (snd Scenario.fetchConfigured)
              _ _ _ I E) eq_refl).
    + cbn [map fst]. apply NoDup_cons. split; [|apply NoDup_singleton].
      intros H. apply list_elem_of_singleton in H. discriminate H.
    + apply elem_of_cons. right. apply list_elem_of_singleton. reflexivity.
    + simpl. lia.
  - assert (static Scenario.noDefaults Scenario.replace Scenario.userConfig "save" Scenario.saveDeep
                   Scenario.saveDeeperArguments (World Scenario.storeDeep [])
            = Ok (fst Scenario.saveDeeperCalled) (snd Scenario.saveDeeperCalled)) as E
        by (vm_compute; reflexivity).
    split; [exact E|]. split; [reflexivity|]. split; [reflexivity|].
    refine (proj1 (proj2 (proj2 (proj2 (proj2 (mapper_at3_dotted_lookup
                Scenario.noDefaults Scenario.replace Scenario.invoke Scenario.userConfig
                "save" Scenario.saveDeep)))))
              [("deep", PValue (VStr "@3.a.b"))] "deep" Scenario.saveDeeperArguments
              (World Scenario.storeDeep []) (fst Scenario.saveDeeperCalled)
              (snd Scenario.saveDeeperCalled) (VRef 4) 0
              (NoDup_singleton "deep")
              (proj2 (list_elem_of_singleton _ _) eq_refl)
              eq_refl _ _ E eq_refl).
    + vm_compute. lia.
    + vm_compute. lia.
Defined.

(** C2 on [Resource.find({})]: no [id], so the call is skipped. *)
Lemma skip_on_missing_params_witness :
  performAction Scenario.noDefaults Scenario.replace Scenario.userConfig "find" Scenario.find
                VNull [VRef 0] (World [Scenario.plain []] [])
  = Ok Skipped (snd Scenario.findConfigured) /\
  w_log (snd Scenario.findConfigured) = [] /\
  settleStatic Scenario.noDefaults [] Scenario.refuse "find" Scenario.find
               (fst Scenario.findCalled) (snd Scenario.findCalled)
  = (World (delete_prop 1 "$$unresolved" (w_heap (snd Scenario.findCalled))) [],
     Fulfilled (VRef 1)) /\
  get_prop (delete_prop 1 "$$unresolved" (w_heap (snd Scenario.findCalled)))
           (VRef 1) "$$unresolved" = VUndef.
Proof.
  assert (requestConfig Scenario.noDefaults Scenario.replace Scenario.userConfig "find" Scenario.find
                VNull [VRef 0] (World [Scenario.plain []] [])
          = Ok (1, VRef 2, VNull) (snd Scenario.findConfigured)) as E
      by (vm_compute; reflexivity).
  destruct (skip_on_missing_params Scenario.noDefaults [] Scenario.refuse Scenario.replace Scenario.userConfig
              "find" Scenario.find VNull [VRef 0] (World [Scenario.plain []] [])
              1 (VRef 2) VNull (snd Scenario.findConfigured) eq_refl E eq_refl)
    as (Hperform & Hlog & _ & Hsettle).
  destruct (Hsettle (fst Scenario.findCalled) (snd Scenario.findCalled) eq_refl)
    as (Hstatic & _ & _ & Hflag).
  split; [exact Hperform|]. split; [exact Hlog|]. split; [exact Hstatic|exact Hflag].
Defined.

(** the unwrapping step on [Resource.get()]: the raw response is unwrapped,
    the data an interceptor already unwrapped is not, and a recovery with
    [undefined] after the transport has rejected ends in a TypeError. *)
Lemma response_unwrapped_by_identity_witness :
  settlePerformAction Scenario.noDefaults [] Scenario.respondAnn "get" Scenario.getQuiet
                      (Request (VRef 1) 0) (snd Scenario.getCalled)
  = (fst (fst Scenario.annResponded), Fulfilled (VRef 3)) /\
  settlePerformAction Scenario.noDefaults [Scenario.unwrapping] Scenario.respondAnn "get" Scenario.getQuiet
                      (Request (VRef 1) 1) (snd Scenario.getCalled)
  = (fst (fst Scenario.annUnwrapped), Fulfilled (VRef 3)) /\
  settlePerformAction Scenario.noDefaults [Scenario.recovering] Scenario.refuse "get" Scenario.getQuiet
                      (Request (VRef 1) 1) (snd Scenario.getIntercepted)
  = (fst (fst Scenario.recovered), Rejected (Thrown NativeTypeError)).
Proof.
  split; [|split].
  - exact (proj1 (response_unwrapped_by_identity Scenario.noDefaults [] Scenario.respondAnn "get" Scenario.getQuiet
                    (VRef 1) 0 (snd Scenario.getCalled) (fst (fst Scenario.annResponded))
                    (VRef 4) (VRef 4) eq_refl) eq_refl).
  - exact (proj1 (response_unwrapped_by_identity Scenario.noDefaults [Scenario.unwrapping] Scenario.respondAnn
                    "get" Scenario.getQuiet
                    (VRef 1) 1 (snd Scenario.getCalled) (fst (fst Scenario.annUnwrapped))
                    (VRef 3) (VRef 4) eq_refl) eq_refl).
  - exact (proj1 (response_unwrapped_by_identity Scenario.noDefaults [Scenario.recovering] Scenario.refuse
                    "get" Scenario.getQuiet
                    (VRef 1) 1 (snd Scenario.getIntercepted) (fst (fst Scenario.recovered))
                    VUndef VUndef eq_refl) eq_refl).
Defined.

(** C6 on [Resource.get()] with a transport that rejects. *)
Lemma rejection_propagates_and_flag_is_cleared_witness :
  settleStatic Scenario.noDefaults [] Scenario.refuse "get" Scenario.getQuiet
               (fst Scenario.getCalled) (snd Scenario.getCalled)
  = (World (delete_prop 0 "$$unresolved" (w_heap (fst (fst Scenario.refused))))
           (w_log (fst (fst Scenario.refused))),
     Rejected (Reason (VStr "offline"))) /\
  (forall arguments n w',
      instance Scenario.noDefaults Scenario.replace Scenario.invoke Scenario.userConfig "get" Scenario.getQuiet 0 arguments
               (World (delete_prop 0 "$$unresolved" (w_heap (fst (fst Scenario.refused))))
                      (w_log (fst (fst Scenario.refused))))
      <> Throw (UnresolvedRequest n) w').
Proof.
  destruct (proj1 (rejection_propagates_and_flag_is_cleared
                     Scenario.noDefaults [] Scenario.refuse Scenario.replace Scenario.invoke Scenario.userConfig
                     "get" Scenario.getQuiet)
                  (fst Scenario.getCalled) (VRef 1) 0 (snd Scenario.getCalled)
                  (fst (fst Scenario.refused)) (Reason (VStr "offline")) VUndef
                  eq_refl eq_refl)
    as (_ & Hstatic & _ & _ & Hinstance).
  split; [exact Hstatic|exact Hinstance].
Defined.

(** C3 on [Resource.get()] answered with [{name: 'Ann'}]. *)
Lemma static_single_wrapper_witness :
  (returned (fst Scenario.getCalled) = VRef 0 /\
   get_prop (w_heap (snd Scenario.getCalled)) (VRef 0) "$$unresolved" = VBool true) /\
  exists w2,
    Resource (VRef 0) (VRef 3)
      (World (delete_prop 0 "$$unresolved" (w_heap (fst Scenario.getResponded)))
             (w_log (fst Scenario.getResponded))) = Ok tt w2 /\
    settleStatic Scenario.noDefaults [] Scenario.respondAnn "get" Scenario.getQuiet
                 (fst Scenario.getCalled) (snd Scenario.getCalled)
    = (w2, Fulfilled (VRef 0)) /\
    get_prop (w_heap w2) (VRef 0) "name" = VStr "Ann".
Proof.
  split.
  - destruct (proj1 (static_single_wrapper
                       Scenario.noDefaults [] Scenario.respondAnn Scenario.replace Scenario.userConfig
                       "get" Scenario.getQuiet)
                    [] (World [] []) (fst Scenario.getCalled) (snd Scenario.getCalled)
                    ltac:(vm_compute; reflexivity) ltac:(vm_compute; reflexivity))
      as (Hret & _ & _ & Hflag & _).
    split; [exact Hret|exact Hflag].
  - destruct (proj1 (proj2 (static_single_wrapper
                       Scenario.noDefaults [] Scenario.respondAnn Scenario.replace Scenario.userConfig
                       "get" Scenario.getQuiet)
                    (fst Scenario.getCalled) (snd Scenario.getCalled)
                    (fst Scenario.getResponded) (VRef 3)
                    ltac:(vm_compute; reflexivity) ltac:(vm_compute; reflexivity))
                 ltac:(vm_compute; reflexivity))
      as (w2 & HResource & Hsettle & _ & _ & Hkeys).
    exists w2. split; [exact HResource|]. split; [exact Hsettle|].
    apply (Hkeys 3 [("name", VStr "Ann")] "name" (VStr "Ann")); try reflexivity.
    + discriminate.
    + simpl. lia.
    + apply NoDup_singleton.
Defined.

(** [Resource.saveAll(items)] answered with an array of two elements:
    the first two wrappers are updated, the third is left as it was. *)
Lemma collection_with_body_witness :
  (elems (deref (w_heap (snd Scenario.saveAllCalled)) 15) = [VRef 12; VRef 13; VRef 14] /\
   deref (w_heap (snd Scenario.saveAllCalled)) 13 = Scenario.plain [("a", VNum 2)]) /\
  exists w2,
    settleStatic Scenario.noDefaults [] (Scenario.respondWith 11) "saveAll" Scenario.saveAll
                 (fst Scenario.saveAllCalled) (snd Scenario.saveAllCalled)
    = (w2, Fulfilled (VRef 15)) /\
    deref (w_heap w2) 12 = Scenario.plain [("a", VNum 1); ("b", VNum 1)] /\
    deref (w_heap w2) 13 = Scenario.plain [("a", VNum 2); ("b", VNum 2)] /\
    deref (w_heap w2) 14 = Scenario.plain [("a", VNum 3)].
Proof.
  split.
  - destruct (proj1 (collection_with_body
                       Scenario.noDefaults [] (Scenario.respondWith 11) Scenario.replace Scenario.userConfig
                       "saveAll" Scenario.saveAll)
                    [VRef 3] (World Scenario.store0 []) (fst Scenario.saveAllCalled)
                    (snd Scenario.saveAllCalled) ltac:(vm_compute; reflexivity)
                    ltac:(vm_compute; reflexivity) ltac:(vm_compute; reflexivity))
      as (d & Hd & _ & _ & _ & Helems & Hwrap & _).
    injection Hd as <-. split; [exact Helems|].
    apply (Hwrap 1 (VRef 1)); [reflexivity|]. simpl. lia.
  - destruct (proj1 (proj2 (collection_with_body
                       Scenario.noDefaults [] (Scenario.respondWith 11) Scenario.replace Scenario.userConfig
                       "saveAll" Scenario.saveAll)
                    (fst Scenario.saveAllCalled) (snd Scenario.saveAllCalled)
                    (fst Scenario.saveAllResponded) (VRef 10)
                    ltac:(vm_compute; reflexivity) ltac:(vm_compute; reflexivity)
                    ltac:(vm_compute; reflexivity) ltac:(vm_compute; reflexivity))
                 10 [12; 13; 14])
      as (w2 & Hsettle & _ & _ & Hidx); try reflexivity.
    + intros j item Hj Hge. apply lookup_lt_Some in Hj.
      change (j < 2) in Hj. change (3 <= j) in Hge. lia.
    + repeat (apply NoDup_cons; split); try apply NoDup_nil_2;
        rewrite ?not_elem_of_cons; repeat split; try lia; apply not_elem_of_nil.
    + rewrite !not_elem_of_cons. repeat split; try discriminate. apply not_elem_of_nil.
    + rewrite !not_elem_of_cons. repeat split; try discriminate. apply not_elem_of_nil.
    + intros r Hr. rewrite !elem_of_cons, elem_of_nil in Hr.
      destruct Hr as [->|[->|[->|[]]]]; simpl; lia.
    + intros item r Hitem Hr. rewrite !elem_of_cons, elem_of_nil in Hr.
      change (item ∈ [VRef 4; VRef 5]) in Hitem.
      rewrite !elem_of_cons, elem_of_nil in Hitem.
      destruct Hitem as [->|[->|[]]]; destruct Hr as [->|[->|[->|[]]]]; discriminate.
    + exists w2. split; [exact Hsettle|].
      split; [exact (Hidx 0 12 eq_refl)|]. split; [exact (Hidx 1 13 eq_refl)|].
      exact (Hidx 2 14 eq_refl).
Defined.

Lemma reserved_keys_absent (xs : props) :
  own xs "$value" = None -> own xs "$$length" = None ->
  own xs "$promise" = None -> own xs "$$unresolved" = None ->
  forall k, reservedKey k = true -> own xs k = None.
Proof.
  intros Hv Hl Hp Hu k Hk. unfold reservedKey in Hk.
  repeat (apply orb_true_iff in Hk as [Hk|Hk]);
    apply String.eqb_eq in Hk; by subst k.
Qed.


(** C1, the defect: [saveAll] is a collection action that carries a body and
    does not set [ignoreResponse]; it is called with an array of three
    elements and the transport answers with an array of four.  The claim has
    a response of another length succeed; the code updates the three
    wrappers with the first three elements, finds no wrapper at index 3
    ([resources[3]] is undefined), and [Resource.call(undefined, item)]
    throws: the promise of the call is rejected with a TypeError, the three
    wrappers already updated. *)
Lemma collection_longer_response_is_rejected :
  enabled (Action.isArray (action Scenario.noDefaults "saveAll" Scenario.saveAll)) = true /\
  hasBody Scenario.noDefaults "saveAll" Scenario.saveAll = true /\
  enabled (Action.ignoreResponse (action Scenario.noDefaults "saveAll" Scenario.saveAll)) = false /\
  length (elems (deref Scenario.store0 3)) = 3 /\
  get_prop Scenario.store0 (VRef 9) "data" = VRef 8 /\
  isArray Scenario.store0 (VRef 8) = true /\
  length (elems (deref Scenario.store0 8)) = 4 /\
  snd <$> staticSettled Scenario.noDefaults [] (Scenario.respondWith 9) Scenario.replace
            Scenario.userConfig "saveAll" Scenario.saveAll [VRef 3] (World Scenario.store0 [])
  = Some (Rejected (Thrown NativeTypeError)) /\
  (fun s : settled => map (deref (w_heap (fst s))) [12; 13; 14])
    <$> staticSettled Scenario.noDefaults [] (Scenario.respondWith 9) Scenario.replace
          Scenario.userConfig "saveAll" Scenario.saveAll [VRef 3] (World Scenario.store0 [])
  = Some [ Scenario.plain [("a", VNum 1); ("b", VNum 1)];
           Scenario.plain [("a", VNum 2); ("b", VNum 2)];
           Scenario.plain [("a", VNum 3); ("b", VNum 3)] ].
Proof. vm_compute. repeat split; reflexivity. Qed.

(** C4, the defect: the transport rejects, so there is no raw response, and
    the [responseError] of the interceptor in use recovers with [undefined].
    The response phase is fulfilled with [undefined], the replacement of the
    interceptor, which the claim has handed on as it is; but [rawResponse],
    never assigned, is [undefined] as well, [rawResponse === response]
    holds, reading [response.data] throws, and the promise of the invoker,
    as that of the call, is rejected with a TypeError. *)
Lemma recovery_with_undefined_is_rejected :
  static Scenario.noDefaults Scenario.replace Scenario.interceptedConfig "get" Scenario.getQuiet []
         (World [] [])
  = Ok (fst Scenario.getIntercepted) (snd Scenario.getIntercepted) /\
  outstanding (fst Scenario.getIntercepted) = Request (VRef 1) 1 /\
  responsePhase [Scenario.recovering] Scenario.refuse (VRef 1) 1 (snd Scenario.getIntercepted)
  = Scenario.recovered /\
  w_log (fst (fst Scenario.recovered)) = [Transport (VRef 1); ResponseErrorInterceptor 0] /\
  snd (fst Scenario.recovered) = Fulfilled VUndef /\
  snd Scenario.recovered = VUndef /\
  snd (settlePerformAction Scenario.noDefaults [Scenario.recovering] Scenario.refuse
         "get" Scenario.getQuiet (Request (VRef 1) 1) (snd Scenario.getIntercepted))
  = Rejected (Thrown NativeTypeError) /\
  snd <$> staticSettled Scenario.noDefaults [Scenario.recovering] Scenario.refuse Scenario.replace
            Scenario.interceptedConfig "get" Scenario.getQuiet [] (World [] [])
  = Some (Rejected (Thrown NativeTypeError)).
Proof. vm_compute. repeat split; reflexivity. Qed.

(** C9, the defect: [{hasOwnProperty: 1}] is a plain keyed object with none
    of the reserved keys.  [new Resource(x)] copies its keys onto the
    wrapper, so [this.hasOwnProperty] is the number 1 there, and [$unwrap],
    which starts with [this.hasOwnProperty('$value')], throws a TypeError
    where the claim has it return an object deep-equal to [x]; this whatever
    the functions of the caller do. *)
Lemma unwrap_of_a_key_hasOwnProperty_throws :
  Scenario.shadowing !! 0 = Some (Scenario.plain [("hasOwnProperty", VNum 1)]) /\
  (forall k, reservedKey k = true -> own [("hasOwnProperty", VNum 1)] k = None) /\
  new_Resource (VRef 0) (World Scenario.shadowing [])
  = Ok 1 (World (Scenario.shadowing ++ Scenario.shadowing) []) /\
  forall invoke,
    unwrap invoke 1 (World (Scenario.shadowing ++ Scenario.shadowing) [])
    = Throw NativeTypeError (World (Scenario.shadowing ++ Scenario.shadowing) []).
Proof.
  split; [reflexivity|]. split; [by apply reserved_keys_absent|].
  split; [vm_compute; reflexivity|]. intros invoke. reflexivity.
Qed.

(** C10, the defect: the action [get] names no method and nothing is
    registered for it, so its method is its name, [get]; the resource
    configuration is [{method: 'DELETE'}].  The configuration of the request
    is [extend({method: action.method}, resourceConfig)], where the method
    of the resource configuration replaces the one of the action: the
    request is a [DELETE] request, where the claim has it be a [get]
    request.  Likewise for [save], which names [POST] itself. *)
Lemma resourceConfig_method_replaces_the_actions :
  Action.method Action.empty = None /\
  Scenario.noDefaults !! "get" ≫= Action.method = None /\
  Action.method (action Scenario.noDefaults "get" Action.empty) = Some "get" /\
  requestSetting "method"
    (static Scenario.noDefaults Scenario.replace Scenario.deletingConfig "get" Action.empty []
            (World [] []))
  = Some (VStr "DELETE") /\
  Action.method (action Scenario.noDefaults "save" Scenario.saveAt2) = Some "POST" /\
  requestSetting "method"
    (static Scenario.noDefaults Scenario.replace Scenario.deletingConfig "save" Scenario.saveAt2
            Scenario.saveArguments (World Scenario.store0 []))
  = Some (VStr "DELETE").
Proof. vm_compute. repeat split; reflexivity. Qed.

(** C3 fails as stated: [get] carries no body and sets [ignoreResponse]; the
    wrapper returned by [Resource.get()] has no [name], and once the
    transport has answered [{name: 'Ann'}] the same wrapper has it. *)
Lemma ignoreResponse_without_body_still_merges :
  enabled (Action.ignoreResponse (action Scenario.noDefaults "get" Scenario.getQuiet)) = true /\
  hasBody Scenario.noDefaults "get" Scenario.getQuiet = false /\
  static Scenario.noDefaults Scenario.replace Scenario.userConfig "get" Scenario.getQuiet []
         (World [] [])
  = Ok (fst Scenario.getCalled) (snd Scenario.getCalled) /\
  returned (fst Scenario.getCalled) = VRef 0 /\
  get_prop (w_heap (snd Scenario.getCalled)) (VRef 0) "name" = VUndef /\
  (fun s : settled => (snd s, get_prop (w_heap (fst s)) (VRef 0) "name"))
    <$> staticSettled Scenario.noDefaults [] Scenario.respondAnn Scenario.replace
          Scenario.userConfig "get" Scenario.getQuiet [] (World [] [])
  = Some (Fulfilled (VRef 0), VStr "Ann").
Proof. vm_compute. repeat split; reflexivity. Qed.

(** C7 fails as stated: [save] carries a body, its query parameter [id] is
    mapped by ["@2"], and [Resource.save(body, 10, 20, 30)] requests with
    [id = 30], the argument at index 3, not with the argument at index 2. *)
Lemma at2_with_body_reads_argument_3 :
  hasBody Scenario.noDefaults "save" Scenario.saveAt2 = true /\
  Scenario.saveArguments !! 2 = Some (VNum 20) /\
  requestParam "id" (static Scenario.noDefaults Scenario.replace Scenario.userConfig
                            "save" Scenario.saveAt2 Scenario.saveArguments
                            (World Scenario.store0 []))
  = Some (VNum 30) /\
  requestParam "id" (static Scenario.noDefaults Scenario.replace Scenario.userConfig
                            "save" Scenario.saveAt2 Scenario.saveArguments
                            (World Scenario.store0 []))
  <> Scenario.saveArguments !! 2.
Proof. vm_compute. repeat split; try reflexivity. discriminate. Qed.

(** C8 fails as stated: [save] carries a body, its query parameter [deep]
    is mapped by ["@3.a.b"], and [Resource.save(body, 10, 20, {a: {b: 7}})]
    requests with [deep] undefined, although [a.b] of the argument at index
    3 is 7 and is not undefined: the mapper has read [a.b] of the argument
    at index 4, which was not given. *)
Lemma at3_with_body_reads_argument_4 :
  hasBody Scenario.noDefaults "save" Scenario.saveDeep = true /\
  lookupDottedPath Scenario.storeDeep
                   (default VUndef (Scenario.saveDeepArguments !! 3)) "a.b" = VNum 7 /\
  requestParam "deep" (static Scenario.noDefaults Scenario.replace Scenario.userConfig
                              "save" Scenario.saveDeep Scenario.saveDeepArguments
                              (World Scenario.storeDeep []))
  = Some VUndef /\
  requestParam "deep" (static Scenario.noDefaults Scenario.replace Scenario.userConfig
                              "save" Scenario.saveDeep Scenario.saveDeepArguments
                              (World Scenario.storeDeep []))
  <> Some (lookupDottedPath Scenario.storeDeep
                            (default VUndef (Scenario.saveDeepArguments !! 3)) "a.b").
Proof. vm_compute. repeat split; try reflexivity. discriminate. Qed.

(** * Further properties *)

(** * Further properties of the code *)

(** ** Keys of array elements *)

Lemma string_of_uint_digits (d : Decimal.uint) :
  digits_prefix (NilEmpty.string_of_uint d) = NilEmpty.string_of_uint d.
Proof. induction d; simpl; try done; by rewrite IHd. Qed.

Lemma to_uint_not_Nil (i : nat) : Nat.to_uint i <> Decimal.Nil.
Proof.
  intros H. pose proof (f_equal Nat.of_uint H) as E.
  rewrite DecimalNat.Unsigned.of_to in E. subst i. discriminate H.
Qed.

Lemma key_of_index_NilEmpty (i : nat) :
  key_of_index i = NilEmpty.string_of_uint (Nat.to_uint i).
Proof.
  unfold key_of_index, NilZero.string_of_uint.
  pose proof (to_uint_not_Nil i). by destruct (Nat.to_uint i).
Qed.

Lemma index_of_key_of_index (i : nat) : index_of_key (key_of_index i) = Some i.
Proof.
  unfold index_of_key. rewrite key_of_index_NilEmpty at 1.
  rewrite NilEmpty.usu. rewrite DecimalNat.Unsigned.of_to. by rewrite String.eqb_refl.
Qed.

Lemma key_of_index_inj (i j : nat) : key_of_index i = key_of_index j -> i = j.
Proof.
  intros H. apply (f_equal index_of_key) in H.
  rewrite !index_of_key_of_index in H. by injection H.
Qed.

Lemma digits_prefix_key_of_index (i : nat) : digits_prefix (key_of_index i) = key_of_index i.
Proof. rewrite key_of_index_NilEmpty. apply string_of_uint_digits. Qed.

Lemma key_of_index_not_empty (i : nat) : key_of_index i <> EmptyString.
Proof.
  intros H. pose proof (index_of_key_of_index i) as E. rewrite H in E. discriminate.
Qed.

(** ** Strings *)

Lemma length_append (s t : string) :
  String.length (s +:+ t) = String.length s + String.length t.
Proof.
  induction s as [|c s IH]; [done|].
  change (S (String.length (s +:+ t)) = S (String.length s + String.length t)). by f_equal.
Qed.

Lemma append_assoc (s t u : string) : (s +:+ t) +:+ u = s +:+ (t +:+ u).
Proof.
  induction s as [|c s IH]; [done|].
  change (String c ((s +:+ t) +:+ u) = String c (s +:+ (t +:+ u))). by f_equal.
Qed.

Lemma substring_whole (s : string) : substring 0 (String.length s) s = s.
Proof. induction s as [|c s IH]; simpl; [done|]. by rewrite IH. Qed.

Lemma slice_0 (s : string) : slice 0 s = s.
Proof. unfold slice. rewrite Nat.sub_0_r. apply substring_whole. Qed.

Lemma slice_cons (i : nat) (c : ascii) (s : string) : slice (S i) (String c s) = slice i s.
Proof. reflexivity. Qed.

Lemma slice_app (d s : string) : slice (String.length d) (d +:+ s) = s.
Proof.
  induction d as [|c d IH]; [apply slice_0|].
  change (String c d +:+ s) with (String c (d +:+ s)). cbn [String.length].
  by rewrite slice_cons.
Qed.

Lemma charAt_app (d s : string) : charAt (d +:+ s) (String.length d) = charAt s 0.
Proof.
  unfold charAt. induction d as [|c d IH]; [done|].
  change (String c d +:+ s) with (String c (d +:+ s)). cbn [String.length String.get].
  exact IH.
Qed.

Lemma digits_prefix_before_dot (d p : string) :
  digits_prefix d = d -> digits_prefix (d +:+ String "."%char p) = d.
Proof.
  induction d as [|c d IH]; intros H; [done|].
  change (String c d +:+ String "."%char p) with (String c (d +:+ String "."%char p)).
  simpl in *. destruct (is_digit c); [|done].
  injection H as H. by rewrite IH.
Qed.

Lemma append_dot_neq (d p : string) : d <> d +:+ String "."%char p.
Proof.
  intros H. apply (f_equal String.length) in H.
  rewrite length_append in H. simpl in H. lia.
Qed.

(** ** Mapper strings, in general *)

(** [path.split('.')] never yields an empty array *)
Lemma split_dots_cons (s : string) : exists k ks, split_dots s = k :: ks.
Proof.
  induction s as [|c s (k & ks & IH)]; simpl; [by eexists _, _|].
  destruct (Ascii.eqb c "."); [by eexists _, _|]. rewrite IH. by eexists _, _.
Qed.

Lemma split_dots_app (p q : string) :
  split_dots (p +:+ String "."%char q) = split_dots p ++ split_dots q.
Proof.
  induction p as [|c p IH]; [done|].
  change (String c p +:+ String "."%char q) with (String c (p +:+ String "."%char q)).
  simpl. rewrite IH. destruct (Ascii.eqb c "."); [done|].
  destruct (split_dots_cons p) as (k & ks & ->). done.
Qed.

Lemma lookupKeys_undefined h keys : lookupKeys h VUndef keys = VUndef.
Proof. by destruct keys. Qed.

Lemma lookupKeys_app h obj ks1 ks2 :
  lookupKeys h obj (ks1 ++ ks2) = lookupKeys h (lookupKeys h obj ks1) ks2.
Proof.
  revert obj. induction ks1 as [|k ks1 IH]; intros obj; [done|].
  simpl. destruct (isDefined obj) eqn:E; [apply IH|].
  destruct obj; try discriminate. by rewrite lookupKeys_undefined.
Qed.

Lemma lookupDottedPath_nullish h obj path :
  isNullish obj = true -> lookupDottedPath h obj path = VUndef.
Proof.
  intros Hn. unfold lookupDottedPath.
  destruct (split_dots_cons path) as (k & ks & ->).
  destruct obj; try discriminate; [done|]. simpl. apply lookupKeys_undefined.
Qed.

(** X10: a dotted path is looked up key by key.  Looking up [p.q] is
    looking up [q] in what the lookup of [p] gives; a root that is undefined
    or null gives undefined whatever the path; and a path without a dot is a
    plain member read. *)
Theorem lookupDottedPath_composes :
  (forall h obj p q,
      lookupDottedPath h obj (p +:+ String "."%char q)
      = lookupDottedPath h (lookupDottedPath h obj p) q) /\
  (forall h obj path, isNullish obj = true -> lookupDottedPath h obj path = VUndef) /\
  (forall h obj key,
      isNullish obj = false -> split_dots key = [key] ->
      lookupDottedPath h obj key = get_prop h obj key).
Proof.
  split; [|split].
  - intros h obj p q. unfold lookupDottedPath. by rewrite split_dots_app, lookupKeys_app.
  - intros h obj path Hn. by apply lookupDottedPath_nullish.
  - intros h obj key Hn Hk. unfold lookupDottedPath. rewrite Hk. simpl.
    destruct obj; try discriminate; reflexivity.
Qed.

Lemma extract_at (h : heap) args data s dflt :
  extract h args data (String "@"%char s) dflt
  = let pos := digits_prefix s in
    if negb (String.eqb pos EmptyString) && String.eqb pos s then arg_at args pos
    else if negb (String.eqb pos EmptyString)
            && String.eqb (charAt s (String.length pos)) "."
         then lookupDottedPath h (arg_at args pos) (slice (String.length pos + 1) s)
         else lookupDottedPath h data s.
Proof.
  unfold extract. change (slice 1 (String "@"%char s)) with (slice 0 s).
  rewrite slice_0. reflexivity.
Qed.

Lemma extract_data_path (h : heap) args data dflt path :
  digits_prefix path = EmptyString ->
  extract h args data ("@" +:+ path) dflt = lookupDottedPath h data path.
Proof.
  intros Hp. change ("@" +:+ path) with (String "@"%char path).
  rewrite extract_at. cbn zeta. by rewrite Hp.
Qed.

Lemma extract_arg (h : heap) args data dflt n :
  extract h args data ("@" +:+ key_of_index n) dflt = default VUndef (args !! n).
Proof.
  change ("@" +:+ key_of_index n) with (String "@"%char (key_of_index n)).
  rewrite extract_at. cbn zeta. rewrite digits_prefix_key_of_index, String.eqb_refl.
  pose proof (key_of_index_not_empty n) as Hne. apply String.eqb_neq in Hne. rewrite Hne.
  cbn [negb andb]. unfold arg_at. by rewrite index_of_key_of_index.
Qed.

Lemma extract_literal (h : heap) args data dflt str :
  str <> "=" -> charAt str 0 <> "@" -> extract h args data str dflt = VStr str.
Proof.
  intros Heq Hat. unfold extract. apply String.eqb_neq in Heq, Hat. by rewrite Heq, Hat.
Qed.

(** X7: the mapper ["@n"], for the decimal numeral of any natural number
    [n], yields element [n] of the arguments handed to the extractor
    (undefined when there are not that many); and ["@n.path"] yields the
    dotted lookup of [path] in that element.  Neither the body nor the
    default matters. *)
Theorem extract_positional :
  (forall h args data dflt n,
      extract h args data ("@" +:+ key_of_index n) dflt = default VUndef (args !! n)) /\
  (forall h args data dflt n path,
      extract h args data ("@" +:+ key_of_index n +:+ String "."%char path) dflt
      = lookupDottedPath h (default VUndef (args !! n)) path).
Proof.
  split.
  - intros h args data dflt n. apply extract_arg.
  - intros h args data dflt n path.
    change ("@" +:+ key_of_index n +:+ String "."%char path)
      with (String "@"%char (key_of_index n +:+ String "."%char path)).
    rewrite extract_at. cbn zeta.
    rewrite digits_prefix_before_dot by apply digits_prefix_key_of_index.
    pose proof (key_of_index_not_empty n) as Hne. apply String.eqb_neq in Hne. rewrite Hne.
    pose proof (append_dot_neq (key_of_index n) path) as Hd. apply String.eqb_neq in Hd.
    rewrite Hd. cbn [negb andb]. rewrite charAt_app. cbn [charAt String.get].
    rewrite String.eqb_refl.
    replace (String.length (key_of_index n) + 1) with (String.length (key_of_index n +:+ ".")).
    + rewrite <- (slice_app (key_of_index n +:+ ".") path) at 2.
      rewrite append_assoc. unfold arg_at. by rewrite index_of_key_of_index.
    + rewrite length_append. reflexivity.
Qed.

(** X8: the mapper ["@path"], when [path] does not begin with a digit, yields
    the dotted lookup of [path] in the body data, whatever the arguments; a
    string that is neither ["="] nor begins with ["@"] is a constant and
    yields itself. *)
Theorem extract_from_data :
  (forall h args data dflt path,
      digits_prefix path = EmptyString ->
      extract h args data ("@" +:+ path) dflt = lookupDottedPath h data path) /\
  (forall h args data dflt str,
      str <> "=" -> charAt str 0 <> "@" ->
      extract h args data str dflt = VStr str).
Proof.
  split.
  - intros h args data dflt path Hp. by apply extract_data_path.
  - intros h args data dflt str Heq Hat. by apply extract_literal.
Qed.

Lemma extractParams_string args data w str :
  extractParams (Some (PString str)) args data w
  = if isObject (extract (w_heap w) args data str data)
    then Ok (extract (w_heap w) args data str data) w
    else Throw (ExpectedTypeError "Params for http request" "Object") w.
Proof. unfold extractParams. mstep. by destruct (isObject _). Qed.

(** X6: [params] or [queryParams] given as one string.  The mapper ["="]
    hands over the body itself and ["@n"] argument [n] itself, the same
    object and not a copy, and the store is left as it is; when what the
    string yields is not an object the extraction throws the type error of
    the parameters, which is always the case for a string that is not a
    mapper, and for ["="] and ["@path"] when there is no body
    ([data] is null). *)
Theorem extractParams_of_a_string :
  (forall args data w,
      extractParams (Some (PString "=")) args data w
      = if isObject data then Ok data w
        else Throw (ExpectedTypeError "Params for http request" "Object") w) /\
  (forall args data w n,
      extractParams (Some (PString ("@" +:+ key_of_index n))) args data w
      = if isObject (default VUndef (args !! n)) then Ok (default VUndef (args !! n)) w
        else Throw (ExpectedTypeError "Params for http request" "Object") w) /\
  (forall args data w str,
      str <> "=" -> charAt str 0 <> "@" ->
      extractParams (Some (PString str)) args data w
      = Throw (ExpectedTypeError "Params for http request" "Object") w) /\
  (forall args w path,
      digits_prefix path = EmptyString ->
      extractParams (Some (PString ("@" +:+ path))) args VNull w
      = Throw (ExpectedTypeError "Params for http request" "Object") w).
Proof.
  split; [|split; [|split]].
  - intros args data w. by rewrite extractParams_string.
  - intros args data w n. by rewrite extractParams_string, extract_arg.
  - intros args data w str Heq Hat. by rewrite extractParams_string, extract_literal.
  - intros args w path Hp.
    by rewrite extractParams_string, extract_data_path, lookupDottedPath_nullish.
Qed.

(** ** Wrapping an array and unwrapping it again *)

Lemma own_index_props k vs : forall i,
  index_of_key k = None -> own (index_props i vs) k = None.
Proof.
  induction vs as [|v vs IH]; intros i Hk; [done|]. simpl.
  destruct (String.eqb_spec (key_of_index i) k) as [<-|Hne].
  - by rewrite index_of_key_of_index in Hk.
  - by apply IH.
Qed.

Lemma elem_of_index_props k vs : forall i,
  k ∈ map fst (index_props i vs) -> exists j, i <= j /\ k = key_of_index j.
Proof.
  induction vs as [|v vs IH]; intros i Hin; simpl in Hin.
  - by apply elem_of_nil in Hin.
  - apply elem_of_cons in Hin as [->|Hin]; [by exists i|].
    destruct (IH _ Hin) as (j & Hj & ->). exists j. split; [lia|done].
Qed.

Lemma NoDup_index_props vs : forall i, NoDup (map fst (index_props i vs)).
Proof.
  induction vs as [|v vs IH]; intros i; simpl; [apply NoDup_nil_2|].
  apply NoDup_cons. split; [|apply IH].
  intros Hin. apply elem_of_index_props in Hin as (j & Hj & Heq).
  apply key_of_index_inj in Heq. lia.
Qed.

Lemma own_index_props_lookup vs : forall i j,
  own (index_props i vs) (key_of_index (i + j)) = vs !! j.
Proof.
  induction vs as [|v vs IH]; intros i j; [done|]. simpl.
  destruct (String.eqb_spec (key_of_index i) (key_of_index (i + j))) as [Heq|Hne].
  - apply key_of_index_inj in Heq. assert (j = 0) as -> by lia. done.
  - destruct j as [|j]; [by rewrite Nat.add_0_r in Hne|].
    rewrite <- Nat.add_succ_comm. apply IH.
Qed.

Lemma extend_app o xs ys : extend o (xs ++ ys) = extend (extend o xs) ys.
Proof. unfold extend. apply fold_left_app. Qed.

(** assigning the indices that follow the last one appends *)
Lemma extend_array_indices vs : forall es ps pm,
  extend (Obj KArray es ps pm) (index_props (length es) vs) = Obj KArray (es ++ vs) ps pm.
Proof.
  induction vs as [|v vs IH]; intros es ps pm; [by rewrite app_nil_r|].
  cbn [index_props]. change (extend ?o (?x :: ?xs)) with (extend (set_object (fst x) (snd x) o) xs).
  cbn [fst snd]. unfold set_object at 1. cbn [okind elems oprops proto_missing].
  rewrite index_of_key_of_index. unfold array_set. rewrite Nat.ltb_irrefl, Nat.sub_diag.
  cbn [replicate app].
  replace (S (length es)) with (length (es ++ [v])) by (rewrite length_app; simpl; lia).
  rewrite IH. by rewrite <- app_assoc.
Qed.

(** the wrapper [new Resource(array)] builds *)
Lemma new_Resource_array h lg x vs :
  h !! x = Some (Obj KArray vs [] false) ->
  new_Resource (VRef x) (World h lg)
  = Ok (length h)
       (World (h ++ [Obj KObject []
                       (index_props 0 vs ++ [("$$length", VNum (Z.of_nat (length vs)))])
                       false]) lg).
Proof.
  intros Hx. assert (x < length h) as Hlt by (by eapply lookup_lt_Some).
  rewrite new_Resource_merge. cbn [w_heap w_log]. do 2 f_equal.
  unfold merge. cbn [isNullish isUndefined isNull orb].
  rewrite deref_alloc_new, deref_alloc_old by done. rewrite (deref_Some _ _ _ Hx).
  unfold own_enumerable. cbn [elems oprops]. rewrite app_nil_r.
  rewrite extend_object by done. cbn [elems oprops proto_missing empty_object].
  rewrite fold_assign_fresh by (apply NoDup_index_props || done). cbn [app].
  rewrite store_last. unfold isArray, get_prop.
  rewrite deref_alloc_old by done. rewrite (deref_Some _ _ _ Hx).
  cbn [okind]. rewrite bool_decide_eq_true_2 by done.
  rewrite set_prop_last. unfold set_object, get_object. cbn [okind elems oprops proto_missing].
  rewrite set_own_fresh by (by apply own_index_props). reflexivity.
Qed.

(** [$unwrap] of such a wrapper, with or without a promise attached *)
Lemma unwrap_array_wrapper invoke h lg r vs n extra pm :
  h !! r = Some (Obj KObject [] (index_props 0 vs ++ ("$$length", n) :: extra) pm) ->
  extra = [] \/ (exists p, extra = [("$promise", p); ("$$unresolved", VBool true)]) ->
  unwrap invoke r (World h lg)
  = Ok (VRef (length h)) (World (h ++ [Obj KArray vs [] false]) lg).
Proof.
  intros Hr Hextra. assert (r < length h) as Hlt by (by eapply lookup_lt_Some).
  assert (own (oprops (deref (w_heap (World h lg)) r)) "hasOwnProperty" = None) as Hhas.
  { cbn [w_heap]. rewrite (deref_Some _ _ _ Hr). cbn [oprops].
    rewrite own_app, own_index_props by done.
    by destruct Hextra as [->|(p & ->)]. }
  unfold unwrap. unfold mbind at 1, M_bind at 1.
  rewrite (hasOwnProperty_inherited _ _ _ _ Hhas). cbn [w_heap].
  rewrite (deref_Some _ _ _ Hr).
  assert (has_own (Obj KObject [] (index_props 0 vs ++ ("$$length", n) :: extra) pm) "$value"
          = false) as ->.
  { rewrite has_own_object by done. cbn [oprops]. rewrite own_app, own_index_props by done.
    apply bool_decide_eq_false_2. intros [v Hv].
    destruct Hextra as [->|(p & ->)]; discriminate Hv. }
  unfold mbind at 1, M_bind at 1.
  rewrite (hasOwnProperty_inherited _ _ _ _ Hhas). cbn [w_heap].
  rewrite (deref_Some _ _ _ Hr).
  assert (has_own (Obj KObject [] (index_props 0 vs ++ ("$$length", n) :: extra) pm) "$$length"
          = true) as ->.
  { rewrite has_own_object by done. cbn [oprops]. rewrite own_app, own_index_props by done.
    apply bool_decide_eq_true_2. by exists n. }
  mstep. rewrite deref_alloc_new, deref_alloc_old by done. rewrite (deref_Some _ _ _ Hr).
  unfold own_enumerable. cbn [elems oprops index_props app].
  rewrite extend_app. pose proof (extend_array_indices vs [] [] false) as He.
  cbn [length app] in He. unfold empty_array. rewrite He.
  rewrite store_last.
  destruct Hextra as [->|(p & ->)]; rewrite !delete_prop_last; reflexivity.
Qed.

Lemma get_prop_index_wrapper h r vs rest pm i :
  h !! r = Some (Obj KObject [] (index_props 0 vs ++ rest) pm) -> i < length vs ->
  get_prop h (VRef r) (key_of_index i) = default VUndef (vs !! i).
Proof.
  intros Hr Hi. unfold get_prop. rewrite (deref_Some _ _ _ Hr).
  destruct (lookup_lt_is_Some_2 vs i Hi) as [v Hv].
  rewrite (get_object_own _ _ v); [by rewrite Hv|done|].
  cbn [oprops]. rewrite own_app. pose proof (own_index_props_lookup vs 0 i) as Ho.
  cbn [Nat.add] in Ho. by rewrite Ho, Hv.
Qed.

(** X12: wrapping an array and unwrapping it again.  For an array without
    named properties, [new Resource(array)] is an object (not an array) that
    holds the elements under their indices and the number of elements under
    [$$length]; [$unwrap] of it, also once a promise has been attached,
    returns a new array with the same elements and nothing else, and leaves
    the wrapper and the original array as they were. *)
Theorem unwrap_wrapped_array invoke (h : heap) lg x vs :
  h !! x = Some (Obj KArray vs [] false) ->
  exists r w1,
    new_Resource (VRef x) (World h lg) = Ok r w1 /\
    okind (deref (w_heap w1) r) = KObject /\
    get_prop (w_heap w1) (VRef r) "$$length" = VNum (Z.of_nat (length vs)) /\
    (forall i, i < length vs ->
               get_prop (w_heap w1) (VRef r) (key_of_index i) = default VUndef (vs !! i)) /\
    (exists d w2,
        unwrap invoke r w1 = Ok (VRef d) w2 /\
        d = length (w_heap w1) /\
        w_heap w2 = w_heap w1 ++ [Obj KArray vs [] false]) /\
    (forall p, exists w1' d w2,
        AbstractResource r (VRef p) w1 = Ok tt w1' /\
        unwrap invoke r w1' = Ok (VRef d) w2 /\
        d = length (w_heap w1') /\
        w_heap w2 = w_heap w1' ++ [Obj KArray vs [] false]).
Proof.
  intros Hx. eexists _, _. split; [by apply new_Resource_array|]. cbn [w_heap].
  set (W := Obj KObject [] (index_props 0 vs ++ [("$$length", VNum (Z.of_nat (length vs)))]) false).
  assert ((h ++ [W]) !! length h = Some W) as Hr by apply list_lookup_middle, eq_refl.
  split; [by rewrite deref_alloc_new|]. split; [|split; [|split]].
  - unfold get_prop. rewrite deref_alloc_new. apply get_object_own; [done|].
    cbn [oprops W]. by rewrite own_app, own_index_props.
  - intros i Hi. by eapply get_prop_index_wrapper.
  - eexists _, _. split; [eapply unwrap_array_wrapper; [exact Hr|by left]|].
    split; reflexivity.
  - intros p. eexists _, _, _. split; [apply AbstractResource_promise|]. cbn [w_heap w_log].
    rewrite !set_prop_last. split.
    + eapply (unwrap_array_wrapper _ _ _ _ vs (VNum (Z.of_nat (length vs)))
                [("$promise", VRef p); ("$$unresolved", VBool true)] false);
        [|right; by exists (VRef p)].
      unfold set_object. cbn [W okind elems oprops proto_missing].
      rewrite (set_own_fresh "$promise") by (by rewrite own_app, own_index_props).
      rewrite set_own_fresh by (by rewrite !own_app, own_index_props).
      rewrite <- !app_assoc. cbn [app].
      apply list_lookup_middle. done.
    + split; reflexivity.
Qed.

(** ** The provider and the factory *)

Lemma has_own_named o k :
  index_of_key k = None -> k <> "length" ->
  has_own o k = bool_decide (is_Some (own (oprops o) k)).
Proof.
  intros Hi Hl. unfold has_own. rewrite Hi. apply String.eqb_neq in Hl.
  destruct (okind o); try done. by rewrite Hl.
Qed.

Lemma get_object_named o k :
  index_of_key k = None -> k <> "length" -> k <> "$$missing" ->
  get_object o k = default VUndef (own (oprops o) k).
Proof.
  intros Hi Hl Hm. unfold get_object. rewrite Hi.
  apply String.eqb_neq in Hl, Hm. rewrite Hl, Hm, andb_false_r.
  destruct (okind o); by destruct (own (oprops o) k).
Qed.

Lemma own_own_enumerable o k :
  index_of_key k = None -> own (own_enumerable o) k = own (oprops o) k.
Proof. intros Hi. unfold own_enumerable. by rewrite own_app, own_index_props. Qed.

Lemma own_base_config u n k :
  k <> "url" -> k <> "interceptorLimit" ->
  own [("url", u); ("interceptorLimit", n)] k = None.
Proof.
  intros Hu Hl. cbn [own].
  destruct (String.eqb_spec "url" k); [congruence|].
  destruct (String.eqb_spec "interceptorLimit" k); [congruence|done].
Qed.

(** X13: the configuration of a resource.  [ResourceFactory] fails for an
    empty route, for a configuration that is defined and not an object, for
    an own [interceptorLimit] that is not a number, and for one that exceeds
    the number of instanced interceptors.  When it does not fail, the merged
    configuration holds an [interceptorLimit] that is a number not above the
    number of instanced interceptors (so every interceptor the loops visit
    exists), which is that number itself when the caller gave none; the
    [url] is the base url followed by the route unless the caller gave one;
    every other member is the caller's. *)
Theorem factory_configuration (h : heap) baseUrl instanced route config :
  (forall c, config = VRef c -> NoDup (map fst (own_enumerable (deref h c)))) ->
  let n := length instanced in
  let given k := match config with
                 | VRef c => own (own_enumerable (deref h c)) k
                 | _ => None
                 end in
  match ResourceFactory h baseUrl instanced route config with
  | inl f =>
      (route = EmptyString /\ f = PlainError "Argument route is missing") \/
      (route <> EmptyString /\ isUndefined config = false /\ isObject config = false /\
       f = Library (ExpectedTypeError "Argument config" "Object")) \/
      (route <> EmptyString /\
       exists v, given "interceptorLimit" = Some v /\
         ((isNumber v = false /\
           f = Library (ExpectedTypeError "Property interceptorLimit for config" "number")) \/
          (exists z, v = VNum z /\ (Z.of_nat n < z)%Z /\
           f = PlainError "Property interceptorLimit for configmust be less than interceptors.length")))
  | inr merged =>
      route <> EmptyString /\
      (config = VUndef \/ isObject config = true) /\
      okind merged = KObject /\
      (exists z, get_object merged "interceptorLimit" = VNum z /\
                 (z <= Z.of_nat n)%Z /\
                 length (take (Z.to_nat z) instanced) = Z.to_nat z /\
                 (given "interceptorLimit" = None -> z = Z.of_nat n) /\
                 (forall v, given "interceptorLimit" = Some v -> v = VNum z)) /\
      get_object merged "url" = default (VStr (baseUrl +:+ route)) (given "url") /\
      (forall k, k <> "url" -> k <> "interceptorLimit" ->
                 own (oprops merged) k = given k)
  end.
Proof.
  intros Hnd n given. unfold ResourceFactory.
  destruct (String.eqb_spec route EmptyString) as [->|Hroute]; [by left|].
  fold n. unfold verifyConfig.
  destruct config as [| | | | | |c]; cbn [isUndefined isObject negb];
    try (right; left; done).
  - (* undefined *)
    split; [done|]. split; [by left|]. split; [done|]. split.
    + exists (Z.of_nat n). split; [done|]. split; [lia|].
      split; [rewrite length_take, Nat2Z.id; unfold n; lia|]. done.
    + split; [done|]. intros k Hu Hl. by apply own_base_config.
  - (* an object *)
    specialize (Hnd c eq_refl). subst given. cbn beta iota.
    set (o := deref h c) in *.
    assert (forall k,
              own (oprops (mergedConfig h baseUrl route n (VRef c))) k
              = match own (own_enumerable o) k with
                | Some v => Some v
                | None => own [("url", VStr (baseUrl +:+ route));
                               ("interceptorLimit", VNum (Z.of_nat n))] k
                end) as Hmerged.
    { intros k. unfold mergedConfig. fold o.
      rewrite extend_object by done. cbn [oprops extend fold_left set_object okind fst snd
        elems proto_missing set_own String.eqb Ascii.eqb Bool.eqb].
      destruct (own (own_enumerable o) k) as [v|] eqn:Ho.
      - by apply own_fold_assign.
      - rewrite own_fold_assign_other; [done|]. by apply own_None_notin. }
    assert (okind (mergedConfig h baseUrl route n (VRef c)) = KObject) as Hkind.
    { unfold mergedConfig. by rewrite extend_object. }
    rewrite has_own_named by done. rewrite <- (own_own_enumerable o) by done.
    destruct (own (own_enumerable o) "interceptorLimit") as [v|] eqn:Hlim.
    + rewrite bool_decide_eq_true_2 by eauto.
      unfold get_prop. fold o. rewrite get_object_named by done.
      rewrite <- (own_own_enumerable o) by done. rewrite Hlim.
      cbn [default from_option id].
      destruct v as [| | |z| | |]; try (right; right; split; [done|]; eexists; split; [done|];
                                        left; done).
      destruct (Z.ltb_spec (Z.of_nat n) z) as [Hgt|Hle].
      * right; right. split; [done|]. eexists. split; [done|]. right. by exists z.
      * split; [done|]. split; [by right|]. split; [done|]. split; [|split].
        -- exists z. rewrite get_object_named by done. rewrite Hmerged, Hlim.
           split; [done|]. split; [lia|]. split; [rewrite length_take; unfold n in *; lia|].
           split; [done|]. by intros v [= <-].
        -- rewrite get_object_named by done. rewrite Hmerged.
           by destruct (own (own_enumerable o) "url").
        -- intros k Hu Hl. rewrite Hmerged. destruct (own (own_enumerable o) k); [done|].
           by apply own_base_config.
    + rewrite bool_decide_eq_false_2 by (by intros [? ?]).
      split; [done|]. split; [by right|]. split; [done|]. split; [|split].
      * exists (Z.of_nat n). rewrite get_object_named by done. rewrite Hmerged, Hlim.
        split; [done|]. split; [lia|].
        split; [rewrite length_take, Nat2Z.id; unfold n; lia|]. done.
      * rewrite get_object_named by done. rewrite Hmerged.
        by destruct (own (own_enumerable o) "url").
      * intros k Hu Hl. rewrite Hmerged. destruct (own (own_enumerable o) k); [done|].
        by apply own_base_config.
Qed.

(** ** The verification of action definitions *)

Lemma set_object_named o k v :
  index_of_key k = None -> k <> "length" ->
  set_object k v o = Obj (okind o) (elems o) (set_own k v (oprops o)) (proto_missing o).
Proof.
  intros Hi Hl. unfold set_object. rewrite Hi. apply String.eqb_neq in Hl. rewrite Hl.
  by destruct (okind o).
Qed.

Lemma has_own_in_store (h : heap) a k : has_own (deref h a) k = true -> a < length h.
Proof.
  intros H. destruct (decide (a < length h)) as [|Hge]; [done|].
  unfold deref in H. rewrite lookup_ge_None_2 in H by lia. by destruct (index_of_key k).
Qed.

Section VerificationFacts.

Variable toString : heap -> value -> string.
Variable keysOf : heap -> loc -> list string.

(** one verification, as a function of the own [subRoute] and [postProcess]
    of the object *)
Lemma verifyAction_object a nm w :
  verifyAction toString (VRef a) nm w
  = let o := deref (w_heap w) a in
    match own (oprops o) "subRoute" with
    | Some (VStr _) | None =>
        match own (oprops o) "postProcess" with
        | Some (VFun _) | None => Ok tt w
        | Some _ =>
            Throw (ExpectedTypeError ("Property postProcess for action " +:+ nm) "function") w
        end
    | Some VUndef | Some VNull => Throw NativeTypeError w
    | Some v =>
        let w1 := World (store a (Obj (okind o) (elems o)
                                     (set_own "subRoute" (VStr (toString (w_heap w) v)) (oprops o))
                                     (proto_missing o)) (w_heap w)) (w_log w) in
        match own (oprops o) "postProcess" with
        | Some (VFun _) | None => Ok tt w1
        | Some _ =>
            Throw (ExpectedTypeError ("Property postProcess for action " +:+ nm) "function") w1
        end
    end.
Proof.
  unfold verifyAction. mstep. cbv zeta.
  rewrite (has_own_named _ "subRoute") by done.
  unfold get_prop. rewrite (get_object_named _ "subRoute") by done.
  destruct (own (oprops (deref (w_heap w) a)) "subRoute") as [sub|] eqn:Hsub.
  - rewrite bool_decide_eq_true_2 by eauto. cbn [default from_option id andb].
    assert (a < length (w_heap w)) as Hl.
    { apply (has_own_in_store _ _ "subRoute"). rewrite has_own_named by done.
      rewrite Hsub. apply bool_decide_eq_true_2. eauto. }
    assert (forall v, own (oprops (deref (set_prop a "subRoute" v (w_heap w)) a)) "postProcess"
                      = own (oprops (deref (w_heap w) a)) "postProcess") as Hpost.
    { intros v. unfold set_prop. rewrite deref_store_eq by done.
      rewrite set_object_named by done. cbn [oprops]. by apply own_set_own_ne. }
    destruct sub; cbn [isString negb isNullish isUndefined isNull orb]; mstep;
      try reflexivity;
      rewrite ?(has_own_named _ "postProcess") by done;
      rewrite ?(get_object_named _ "postProcess") by done;
      rewrite ?Hpost;
      try (unfold set_prop; rewrite set_object_named by done);
      (destruct (own (oprops (deref (w_heap w) a)) "postProcess") as [post|] eqn:Hp;
       [rewrite bool_decide_eq_true_2 by eauto; by destruct post
       |rewrite bool_decide_eq_false_2 by (by intros [? ?]); done]).
  - rewrite bool_decide_eq_false_2 by (by intros [? ?]). cbn [andb]. mstep.
    rewrite (has_own_named _ "postProcess") by done.
    rewrite (get_object_named _ "postProcess") by done.
    destruct (own (oprops (deref (w_heap w) a)) "postProcess") as [post|] eqn:Hp.
    + rewrite bool_decide_eq_true_2 by eauto. destruct w. by destruct post.
    + rewrite bool_decide_eq_false_2 by (by intros [? ?]). by destruct w.
Qed.

Lemma own_in_store (h : heap) a k v : own (oprops (deref h a)) k = Some v -> a < length h.
Proof.
  intros H. destruct (decide (a < length h)) as [|Hge]; [done|].
  unfold deref in H. by rewrite lookup_ge_None_2 in H by lia.
Qed.

(** a verification that returns has either changed nothing, or replaced a
    [subRoute] that was not a string *)
Lemma verifyAction_cases a nm w w' :
  verifyAction toString (VRef a) nm w = Ok tt w' ->
  (w' = w /\ verified (w_heap w) a) \/
  (exists v s,
      own (oprops (deref (w_heap w) a)) "subRoute" = Some v /\ isString v = false /\
      w' = World (store a (Obj (okind (deref (w_heap w) a)) (elems (deref (w_heap w) a))
                               (set_own "subRoute" (VStr s) (oprops (deref (w_heap w) a)))
                               (proto_missing (deref (w_heap w) a))) (w_heap w)) (w_log w) /\
      (forall p, own (oprops (deref (w_heap w) a)) "postProcess" = Some p -> isFunction p = true)).
Proof.
  rewrite verifyAction_object. cbv zeta. intros H. unfold verified.
  destruct (own (oprops (deref (w_heap w) a)) "subRoute") as [sub|] eqn:Hsub;
    destruct (own (oprops (deref (w_heap w) a)) "postProcess") as [post|] eqn:Hpost;
    try destruct sub; try destruct post; try done; injection H as <-;
    first [ left; split; [done|]; split; intros v; by intros [= <-]
          | right; eexists _, _; split; [reflexivity|]; split; [done|];
            split; [reflexivity|]; intros p; by intros [= <-] ].
Qed.

(** one verification that returns *)
Lemma verifyAction_returns a nm w w' :
  verifyAction toString (VRef a) nm w = Ok tt w' ->
  verified (w_heap w') a /\
  w_log w' = w_log w /\
  length (w_heap w') = length (w_heap w) /\
  (forall x, x <> a -> deref (w_heap w') x = deref (w_heap w) x) /\
  okind (deref (w_heap w') a) = okind (deref (w_heap w) a) /\
  elems (deref (w_heap w') a) = elems (deref (w_heap w) a) /\
  (forall k, k <> "subRoute" ->
             own (oprops (deref (w_heap w') a)) k = own (oprops (deref (w_heap w) a)) k) /\
  (verified (w_heap w) a -> w' = w).
Proof.
  intros H. apply verifyAction_cases in H as [[-> Hv]|(v & s & Hsub & Hstr & -> & Hpost)];
    [done|].
  pose proof (own_in_store _ _ _ _ Hsub) as Hl. unfold verified. cbn [w_heap w_log].
  rewrite length_store, !deref_store_eq by done. cbn [okind elems oprops].
  split; [|split; [done|split; [done|split; [|split; [done|split; [done|split]]]]]].
  - split; intros v'.
    + rewrite own_set_own_eq. by intros [= <-].
    + rewrite own_set_own_ne by done. apply Hpost.
  - intros x Hx. by rewrite deref_store_ne.
  - intros k Hk. by rewrite own_set_own_ne.
  - intros [Hs _]. specialize (Hs _ Hsub). congruence.
Qed.

(** a verified definition passes, and is left as it is *)
Lemma verifyAction_verified a nm w :
  verified (w_heap w) a -> verifyAction toString (VRef a) nm w = Ok tt w.
Proof.
  intros [Hs Hp]. rewrite verifyAction_object. cbv zeta.
  destruct (own (oprops (deref (w_heap w) a)) "subRoute") as [sub|] eqn:Hsub.
  - specialize (Hs _ eq_refl). destruct sub; try discriminate.
    destruct (own (oprops (deref (w_heap w) a)) "postProcess") as [post|] eqn:Hpost; [|done].
    specialize (Hp _ eq_refl). by destruct post.
  - destruct (own (oprops (deref (w_heap w) a)) "postProcess") as [post|] eqn:Hpost; [|done].
    specialize (Hp _ eq_refl). by destruct post.
Qed.

Lemma verifyAction_preserves a nm w w' b :
  verifyAction toString (VRef a) nm w = Ok tt w' ->
  verified (w_heap w) b -> verified (w_heap w') b.
Proof.
  intros H Hb. apply verifyAction_returns in H as (Ha & _ & _ & Hother & _).
  destruct (decide (b = a)) as [->|Hne]; [done|].
  unfold verified. by rewrite Hother.
Qed.

Lemma verifyEach_returns l keys : forall w w',
  (forall k, k ∈ keys -> get_prop (w_heap w) (VRef l) k <> VRef l) ->
  verifyEach toString l keys w = Ok tt w' ->
  w_log w' = w_log w /\
  length (w_heap w') = length (w_heap w) /\
  deref (w_heap w') l = deref (w_heap w) l /\
  (forall b, verified (w_heap w) b -> verified (w_heap w') b) /\
  (forall k, k ∈ keys ->
             exists a, get_prop (w_heap w) (VRef l) k = VRef a /\ verified (w_heap w') a).
Proof.
  induction keys as [|k keys IH]; intros w w' Hself H.
  - injection H as <-. split; [done|]. split; [done|]. split; [done|]. split; [done|].
    intros k Hk. by apply elem_of_nil in Hk.
  - cbn [verifyEach] in H. mstep.
    destruct (verifyAction toString (get_prop (w_heap w) (VRef l) k) k w) as [[] w1|] eqn:E;
      [|done].
    destruct (get_prop (w_heap w) (VRef l) k) as [| | | | | |a] eqn:Hk; try done.
    assert (a <> l) as Hal.
    { intros ->. apply (Hself k); [apply elem_of_cons; by left|done]. }
    pose proof (verifyAction_returns _ _ _ _ E) as (Ha & Hlg & Hlen & Hother & _).
    assert (deref (w_heap w1) l = deref (w_heap w) l) as Hl by (apply Hother; congruence).
    assert (forall k', get_prop (w_heap w1) (VRef l) k' = get_prop (w_heap w) (VRef l) k') as Hg
      by (intros k'; unfold get_prop; by rewrite Hl).
    apply IH in H as (Hlg' & Hlen' & Hl' & Hpres & Hall).
    + split; [congruence|]. split; [congruence|]. split; [congruence|]. split.
      * intros b Hb. apply Hpres. by eapply verifyAction_preserves.
      * intros k' Hin. apply elem_of_cons in Hin as [->|Hin].
        -- exists a. split; [done|]. by apply Hpres.
        -- destruct (Hall k' Hin) as (a' & Ha' & Hv). exists a'. by rewrite <- Hg.
    + intros k' Hin. rewrite Hg. apply Hself, elem_of_cons. by right.
Qed.

(** X15: the verification of one action definition.  What is not an object
    is refused with the type error that names the action, and the world is
    left as it was.  A verification that returns has logged nothing and
    changed at most the own [subRoute] of the definition, which it has
    replaced by its string form when it was not a string; the definition
    then has a string as own [subRoute] and a function as own [postProcess],
    if it has them; a definition that already was so is left as it is, so
    verifying twice is verifying once. *)
Theorem verifyAction_normalises :
  (forall action nm w,
      isObject action = false ->
      verifyAction toString action nm w
      = Throw (ExpectedTypeError ("Options for action " +:+ nm) "Object") w) /\
  (forall a nm w w',
      verifyAction toString (VRef a) nm w = Ok tt w' ->
      verified (w_heap w') a /\
      w_log w' = w_log w /\
      (forall x, x <> a -> deref (w_heap w') x = deref (w_heap w) x) /\
      (forall k, k <> "subRoute" ->
                 own (oprops (deref (w_heap w') a)) k = own (oprops (deref (w_heap w) a)) k) /\
      (forall nm', verifyAction toString (VRef a) nm' w' = Ok tt w')) /\
  (forall a nm w, verified (w_heap w) a -> verifyAction toString (VRef a) nm w = Ok tt w).
Proof.
  split; [|split].
  - intros action nm w Hobj. by destruct action.
  - intros a nm w w' H.
    pose proof (verifyAction_returns _ _ _ _ H) as (Ha & Hlg & _ & Hother & _ & _ & Hkeys & _).
    split; [done|]. split; [done|]. split; [done|]. split; [done|].
    intros nm'. by apply verifyAction_verified.
  - intros a nm w Hv. by apply verifyAction_verified.
Qed.

(** X16: the verification of the actions of a resource.  What is not an
    object is refused with the type error of the argument.  When the
    verification of an object returns, and the object is not a member of
    itself, nothing was logged, the object itself is as before, and every
    member the host enumerates is an object that has a string as own
    [subRoute] and a function as own [postProcess], if it has them. *)
Theorem verifyActions_verifies :
  (forall actions w,
      isObject actions = false ->
      verifyActions toString keysOf actions w
      = Throw (ExpectedTypeError "Argument actions" "Object") w) /\
  (forall l w w',
      (forall k, k ∈ keysOf (w_heap w) l -> get_prop (w_heap w) (VRef l) k <> VRef l) ->
      verifyActions toString keysOf (VRef l) w = Ok tt w' ->
      w_log w' = w_log w /\
      deref (w_heap w') l = deref (w_heap w) l /\
      (forall k, k ∈ keysOf (w_heap w) l ->
                 exists a, get_prop (w_heap w') (VRef l) k = VRef a /\ verified (w_heap w') a)).
Proof.
  split.
  - intros actions w Hobj. by destruct actions.
  - intros l w w' Hself H. unfold verifyActions in H. mstep.
    apply verifyEach_returns in H as (Hlg & _ & Hl & _ & Hall); [|done].
    split; [done|]. split; [done|]. intros k Hk.
    destruct (Hall k Hk) as (a & Ha & Hv). exists a. split; [|done].
    unfold get_prop in *. by rewrite Hl.
Qed.

End VerificationFacts.

(** ** Appending the wrappers of a fetched collection *)

Lemma wrapperOf_agree (h h' : heap) item :
  (forall x, item = VRef x -> deref h' x = deref h x) ->
  wrapperOf h' item = wrapperOf h item.
Proof. apply mergedObject_agree. Qed.

Lemma pushNewResource_step t item i h lg :
  refs_below (length h) item ->
  pushNewResource t item i (World h lg)
  = Ok tt (World (store t (Obj (okind (deref (h ++ [wrapperOf h item]) t))
                               (elems (deref (h ++ [wrapperOf h item]) t) ++ [VRef (length h)])
                               (oprops (deref (h ++ [wrapperOf h item]) t))
                               (proto_missing (deref (h ++ [wrapperOf h item]) t)))
                         (h ++ [wrapperOf h item])) lg).
Proof.
  intros Hb. unfold pushNewResource. unfold mbind, M_bind.
  rewrite (new_Resource_wrapperOf h lg item Hb). reflexivity.
Qed.

Lemma push_loop n : forall i h lg (d t : loc) (ds : list value),
  elems (deref h d) = ds -> d <> t -> t < length h -> d < length h ->
  i + n = length ds ->
  (forall item, item ∈ ds -> refs_below (length h) item /\ item <> VRef t) ->
  exists h',
    forEachFrom d (pushNewResource t) i n (World h lg) = Ok tt (World h' lg) /\
    length h' = length h + n /\
    okind (deref h' t) = okind (deref h t) /\
    oprops (deref h' t) = oprops (deref h t) /\
    elems (deref h' t) = elems (deref h t) ++ map VRef (seq (length h) n) /\
    (forall x, x < length h -> x <> t -> deref h' x = deref h x) /\
    (forall j item, ds !! (i + j) = Some item ->
                    deref h' (length h + j) = wrapperOf h item).
Proof.
  induction n as [|n IH]; intros i h lg d t ds Hd Hdt Ht Hdl Hn Hitems.
  - exists h. split; [reflexivity|]. split; [lia|]. split; [done|]. split; [done|].
    split; [by rewrite app_nil_r|]. split; [done|].
    intros j item Hj. apply lookup_lt_Some in Hj. lia.
  - cbn [forEachFrom]. mstep. rewrite Hd.
    destruct (lookup_lt_is_Some_2 ds i) as [item Hitem]; [lia|].
    rewrite Hitem.
    assert (item ∈ ds) as Hin by (by eapply list_elem_of_lookup_2).
    destruct (Hitems item Hin) as [Hbelow Hnt].
    rewrite (pushNewResource_step t item i h lg Hbelow).
    rewrite (deref_alloc_old _ h t Ht).
    set (o := Obj (okind (deref h t)) (elems (deref h t) ++ [VRef (length h)])
                  (oprops (deref h t)) (proto_missing (deref h t))).
    set (h2 := store t o (h ++ [wrapperOf h item])).
    assert (length h2 = S (length h)) as Hl2.
    { unfold h2. rewrite length_store, length_app. simpl. lia. }
    assert (forall x, x <> t -> x < length h -> deref h2 x = deref h x) as Hsame.
    { intros x Hx Hxl. unfold h2. rewrite deref_store_ne by done. by apply deref_alloc_old. }
    assert (deref h2 t = o) as Ht2.
    { unfold h2. apply deref_store_eq. rewrite length_app. simpl. lia. }
    assert (deref h2 (length h) = wrapperOf h item) as Hnew.
    { unfold h2. rewrite deref_store_ne by lia. apply deref_alloc_new. }
    destruct (IH (S i) h2 lg d t ds) as (h' & E & Hlen & Hk & Hp & He & Hout & Hw); try lia.
    { rewrite Hsame; done. }
    { intros it Hit. destruct (Hitems it Hit) as [Hb Hne]. split; [|done].
      destruct it; try done. simpl in *. lia. }
    exists h'. split; [exact E|]. split; [lia|].
    rewrite Ht2 in Hk, Hp, He. unfold o in Hk, Hp, He. cbn [okind oprops elems] in Hk, Hp, He.
    split; [done|]. split; [done|]. split.
    { rewrite He, Hl2. rewrite <- app_assoc. reflexivity. }
    split.
    { intros x Hx Hxt. rewrite Hout by (done || lia). by apply Hsame. }
    intros [|j] it Hj.
    + rewrite Nat.add_0_r in *. assert (it = item) as -> by congruence.
      rewrite Hout by lia. exact Hnew.
    + replace (length h + S j) with (length h2 + j) by lia.
      rewrite (Hw j it) by (rewrite <- Hj; f_equal; lia).
      apply wrapperOf_agree. intros x ->.
      assert (VRef x ∈ ds) as Hxin by (by eapply list_elem_of_lookup_2).
      destruct (Hitems _ Hxin) as [Hb Hne]. simpl in Hb.
      apply Hsame; [congruence|done].
Qed.

(** ** The log of the interceptor loops *)

Lemma andThen_log evF f evR g (p : settled) :
  w_log (fst (andThen evF f evR g p))
  = w_log (fst p) ++ match snd p, f, g with
                     | Fulfilled _, Some _, _ => [evF]
                     | Rejected _, _, Some _ => [evR]
                     | _, _, _ => []
                     end.
Proof.
  destruct p as [w [v|r]]; simpl.
  - destruct f as [f|]; simpl; [|by rewrite app_nil_r]. unfold callback.
    by destruct (f v (w_heap w)).
  - destruct g as [g|]; simpl; [|by destruct f; rewrite app_nil_r]. unfold callback.
    destruct (g r (w_heap w)). by destruct f.
Qed.

Lemma requestLoop_log l : forall i p, exists evs,
  w_log (fst (requestLoop i l p)) = w_log (fst p) ++ evs /\
  Forall (fun ev => exists j interceptor,
            l !! j = Some interceptor /\
            ((ev = RequestInterceptor (i + j) /\ is_Some (request interceptor)) \/
             (ev = RequestErrorInterceptor (i + j) /\ is_Some (requestError interceptor)))) evs /\
  StronglySorted lt (omap requestEventIndex evs) /\
  Forall (le i) (omap requestEventIndex evs).
Proof.
  induction l as [|x l IH]; intros i p; cbn [requestLoop].
  - exists []. rewrite app_nil_r. repeat split; constructor.
  - destruct (IH (S i) (andThen (RequestInterceptor i) (request x)
                                (RequestErrorInterceptor i) (requestError x) p))
      as (evs & Hlog & Hall & Hsort & Hge).
    rewrite andThen_log in Hlog.
    assert (Forall (fun ev => exists j interceptor,
              (x :: l) !! j = Some interceptor /\
              ((ev = RequestInterceptor (i + j) /\ is_Some (request interceptor)) \/
               (ev = RequestErrorInterceptor (i + j) /\ is_Some (requestError interceptor)))) evs)
      as Hall'.
    { eapply Forall_impl; [exact Hall|]. intros ev (j & y & Hj & Hev).
      exists (S j), y. split; [done|]. by rewrite <- Nat.add_succ_comm. }
    assert (Forall (le i) (omap requestEventIndex evs)) as Hge'.
    { eapply Forall_impl; [exact Hge|]. intros; simpl in *; lia. }
    destruct (snd p) as [v|r]; [destruct (request x) as [f|] eqn:Ef
                               |destruct (requestError x) as [g|] eqn:Eg].
    + exists (RequestInterceptor i :: evs). rewrite Hlog, <- app_assoc. split; [done|].
      split; [|split].
      * constructor; [|done]. exists 0, x. rewrite Nat.add_0_r, Ef. split; [done|]. left. eauto.
      * simpl. constructor; [done|]. eapply Forall_impl; [exact Hge|]. intros; simpl in *; lia.
      * simpl. constructor; [lia|done].
    + exists evs. rewrite Hlog, app_nil_r. done.
    + exists (RequestErrorInterceptor i :: evs).
      assert (w_log (fst p) ++ RequestErrorInterceptor i :: evs
              = (w_log (fst p) ++ [RequestErrorInterceptor i]) ++ evs) as ->
        by (by rewrite <- app_assoc).
      split; [by destruct (request x)|]. split; [|split].
      * constructor; [|done]. exists 0, x. rewrite Nat.add_0_r, Eg. split; [done|]. right. eauto.
      * simpl. constructor; [done|]. eapply Forall_impl; [exact Hge|]. intros; simpl in *; lia.
      * simpl. constructor; [lia|done].
    + exists evs. rewrite Hlog. split; [by destruct (request x); rewrite app_nil_r|]. done.
Qed.

Lemma responseLoop_log l : forall i p, exists evs,
  w_log (fst (responseLoop i l p)) = w_log (fst p) ++ evs /\
  Forall (fun ev => exists j interceptor,
            l !! j = Some interceptor /\
            ((ev = ResponseInterceptor (i + j) /\ is_Some (response interceptor)) \/
             (ev = ResponseErrorInterceptor (i + j) /\ is_Some (responseError interceptor)))) evs /\
  StronglySorted lt (omap responseEventIndex evs) /\
  Forall (le i) (omap responseEventIndex evs).
Proof.
  induction l as [|x l IH]; intros i p; cbn [responseLoop].
  - exists []. rewrite app_nil_r. repeat split; constructor.
  - destruct (IH (S i) (andThen (ResponseInterceptor i) (response x)
                                (ResponseErrorInterceptor i) (responseError x) p))
      as (evs & Hlog & Hall & Hsort & Hge).
    rewrite andThen_log in Hlog.
    assert (Forall (fun ev => exists j interceptor,
              (x :: l) !! j = Some interceptor /\
              ((ev = ResponseInterceptor (i + j) /\ is_Some (response interceptor)) \/
               (ev = ResponseErrorInterceptor (i + j) /\ is_Some (responseError interceptor)))) evs)
      as Hall'.
    { eapply Forall_impl; [exact Hall|]. intros ev (j & y & Hj & Hev).
      exists (S j), y. split; [done|]. by rewrite <- Nat.add_succ_comm. }
    destruct (snd p) as [v|r]; [destruct (response x) as [f|] eqn:Ef
                               |destruct (responseError x) as [g|] eqn:Eg].
    + exists (ResponseInterceptor i :: evs). rewrite Hlog, <- app_assoc. split; [done|].
      split; [|split].
      * constructor; [|done]. exists 0, x. rewrite Nat.add_0_r, Ef. split; [done|]. left. eauto.
      * simpl. constructor; [done|]. eapply Forall_impl; [exact Hge|]. intros; simpl in *; lia.
      * simpl. constructor; [lia|]. eapply Forall_impl; [exact Hge|]. intros; simpl in *; lia.
    + exists evs. rewrite Hlog, app_nil_r. repeat split; try done.
      eapply Forall_impl; [exact Hge|]. intros; simpl in *; lia.
    + exists (ResponseErrorInterceptor i :: evs).
      assert (w_log (fst p) ++ ResponseErrorInterceptor i :: evs
              = (w_log (fst p) ++ [ResponseErrorInterceptor i]) ++ evs) as ->
        by (by rewrite <- app_assoc).
      split; [by destruct (response x)|]. split; [|split].
      * constructor; [|done]. exists 0, x. rewrite Nat.add_0_r, Eg. split; [done|]. right. eauto.
      * simpl. constructor; [done|]. eapply Forall_impl; [exact Hge|]. intros; simpl in *; lia.
      * simpl. constructor; [lia|]. eapply Forall_impl; [exact Hge|]. intros; simpl in *; lia.
    + exists evs. rewrite Hlog. split; [by destruct (response x); rewrite app_nil_r|].
      repeat split; try done.
      eapply Forall_impl; [exact Hge|]. intros; simpl in *; lia.
Qed.

Section MoreMethodFacts.

Variable actionsDefaults : gmap string Action.t.
Variable instancedInterceptors : list Interceptor.
Variable http : handler.
Variable replace : heap -> string -> string -> value -> string.
Variable invoke : nat -> value -> list value -> heap -> completion.
Variable resourceConfig : Config.
Variable name : string.
Variable definition : Action.t.

#[local] Abbreviation the_action := (action actionsDefaults name definition).
#[local] Abbreviation has_body := (hasBody actionsDefaults name definition).
#[local] Abbreviation request_config :=
  (requestConfig actionsDefaults replace resourceConfig name definition).
#[local] Abbreviation perform_action :=
  (performAction actionsDefaults replace resourceConfig name definition).
#[local] Abbreviation static_call :=
  (static actionsDefaults replace resourceConfig name definition).
#[local] Abbreviation instance_call :=
  (instance actionsDefaults replace invoke resourceConfig name definition).
#[local] Abbreviation each_call :=
  (each actionsDefaults replace resourceConfig name definition).
#[local] Abbreviation each_static :=
  (eachStatic actionsDefaults replace resourceConfig name definition).
#[local] Abbreviation response_phase := (responsePhase instancedInterceptors http).
#[local] Abbreviation settle_perform :=
  (settlePerformAction actionsDefaults instancedInterceptors http name definition).
#[local] Abbreviation settle_static :=
  (settleStatic actionsDefaults instancedInterceptors http name definition).
#[local] Abbreviation settle_instance :=
  (settleInstance actionsDefaults instancedInterceptors http name definition).
#[local] Abbreviation update_array := (updateResourceArray actionsDefaults name definition).

Lemma merged_method_named :
  exists m, Action.method the_action = Some m.
Proof.
  unfold action, Action.extend, Action.override. cbn [Action.method].
  destruct (Action.method definition); [by eexists|].
  destruct (Action.method (default Action.empty (actionsDefaults !! name))); by eexists.
Qed.

(** X1: a static call of an action that carries a body, made without a body
    (no argument at all, or [undefined] or [null] as the first one), throws
    the missing-body error, which names the action and its method; the world
    is left as it was: no wrapper, no request configuration, nothing handed
    to the host. *)
Theorem static_call_without_body :
  forall arguments w,
    has_body = true ->
    isNullish (default VUndef (arguments !! 0)) = true ->
    exists m,
      Action.method the_action = Some m /\
      static_call arguments w = Throw (MissingBodyError name m) w.
Proof.
  intros arguments w Hb Hn. destruct merged_method_named as [m Hm]. exists m.
  split; [done|]. unfold static. rewrite Hb, Hn, Hm. reflexivity.
Qed.

(** X2: a static call of a collection action that carries a body, made with
    a body that is not an array, throws the array-type error and leaves the
    world as it was. *)
Theorem static_collection_body_must_be_array :
  forall arguments w,
    has_body = true ->
    enabled (Action.isArray the_action) = true ->
    isNullish (default VUndef (arguments !! 0)) = false ->
    isArray (w_heap w) (default VUndef (arguments !! 0)) = false ->
    static_call arguments w = Throw (ExpectedArrayError name) w.
Proof.
  intros arguments w Hb Hs Hn Ha. unfold static. rewrite Hb, Hn, Hs. mstep.
  by rewrite Ha.
Qed.

(** a static call that returns has allocated its target and possibly more,
    and logged nothing *)
Lemma static_frame arguments w c w' :
  static_call arguments w = Ok c w' ->
  w_log w' = w_log w /\
  length (w_heap w) <= target c < length (w_heap w') /\
  returned c = VRef (target c).
Proof.
  intros H. apply static_performs in H as (w1 & p & w2 & Hlg & Hpre & Ht & E & Hc & ->).
  apply performAction_inv in E as (cfg & up & qp & E & _).
  apply requestConfig_frame in E as (_ & Hlg2 & Hp & _). apply prefix_length in Hp.
  cbn [w_heap w_log]. rewrite length_attached.
  split; [congruence|]. split; [lia|]. by rewrite Hc.
Qed.

Lemma eachStatic_frame items : forall w cs w',
  each_static items w = Ok cs w' ->
  w_log w' = w_log w /\
  length (w_heap w) <= length (w_heap w') /\
  length cs = length items /\
  Forall (fun c => length (w_heap w) <= target c < length (w_heap w')
                   /\ returned c = VRef (target c)) cs /\
  NoDup (map target cs).
Proof.
  induction items as [|item items IH]; intros w cs w'; simpl; mstep.
  - intros [= <- <-]. repeat split; try done. constructor.
  - destruct (static_call [item] w) as [c w1|] eqn:E; [|done].
    destruct (each_static items w1) as [cs' w2|] eqn:E'; [|done].
    intros [= <- <-].
    apply static_frame in E as (Hlg & Ht & Hr).
    apply IH in E' as (Hlg' & Hlen & Hcs & Hall & Hnd).
    split; [congruence|]. split; [lia|]. split; [simpl; lia|]. split.
    + constructor; [split; [lia|done]|].
      eapply Forall_impl; [exact Hall|]. intros c' [Hc' Hr']. split; [lia|done].
    + simpl. apply NoDup_cons. split; [|done].
      intros Hin. apply list_elem_of_fmap in Hin as (c' & Heq & Hin).
      rewrite Forall_forall in Hall. destruct (Hall c' Hin) as [Hc' _]. lia.
Qed.

(** X4: [each] requires an array: anything else throws the type error and
    leaves the world as it was.  On an array it makes one static call per
    element, in order; when it returns there are as many calls as elements,
    every one returned its own new wrapper (the targets are pairwise
    distinct and did not exist before), and nothing has been handed to the
    host yet. *)
Theorem each_maps_static_calls :
  (forall arrdata w,
      isArray (w_heap w) arrdata = false ->
      each_call arrdata w
      = Throw (ExpectedTypeError ("Argument for action " +:+ name +:+ ".each") "Array") w) /\
  (forall d w cs w',
      okind (deref (w_heap w) d) = KArray ->
      each_call (VRef d) w = Ok cs w' ->
      each_static (elems (deref (w_heap w) d)) w = Ok cs w' /\
      length cs = length (elems (deref (w_heap w) d)) /\
      NoDup (map target cs) /\
      Forall (fun c => length (w_heap w) <= target c < length (w_heap w')
                       /\ returned c = VRef (target c)) cs /\
      w_log w' = w_log w).
Proof.
  split.
  - intros arrdata w Ha. unfold each. mstep. by rewrite Ha.
  - intros d w cs w' Hk H. unfold each in H. mstep.
    unfold isArray in H. rewrite bool_decide_eq_true_2 in H by done.
    split; [exact H|]. apply eachStatic_frame in H as (Hlg & _ & Hlen & Hall & Hnd).
    done.
Qed.

(** X3: a collection action without a body (a fetch) returns an array that
    is empty, with the flag set, and hands no data to the invoker.  When the
    promise of the invoker is fulfilled with an array, one new wrapper per
    returned element is built from it and appended, in order, to the array
    returned by the call, which is what the promise of the call is fulfilled
    with; nothing else that existed changes.  [ignoreResponse] does not
    matter here.  A value that is defined, not null and not an array rejects
    the promise with the array-type error; undefined and null append
    nothing. *)
Theorem collection_fetch :
  (forall arguments w c w',
      enabled (Action.isArray the_action) = true -> has_body = false ->
      static_call arguments w = Ok c w' ->
      target c = length (w_heap w) /\
      returned c = VRef (target c) /\
      okind (deref (w_heap w') (target c)) = KArray /\
      elems (deref (w_heap w') (target c)) = [] /\
      get_prop (w_heap w') (VRef (target c)) "$$unresolved" = VBool true /\
      exists p w2, perform_action VNull arguments
                     (World (w_heap w ++ [empty_array]) (w_log w)) = Ok p w2 /\
                   outstanding c = p) /\
  (forall c w w1 data,
      enabled (Action.isArray the_action) = true -> has_body = false ->
      settle_perform (outstanding c) w = (w1, Fulfilled data) ->
      let wf := World (delete_prop (target c) "$$unresolved" (w_heap w1)) (w_log w1) in
      (forall d,
          data = VRef d -> okind (deref (w_heap w1) d) = KArray ->
          d <> target c -> target c < length (w_heap w1) -> d < length (w_heap w1) ->
          (forall item, item ∈ elems (deref (w_heap w1) d) ->
                        refs_below (length (w_heap w1)) item /\ item <> VRef (target c)) ->
          exists w2,
            settle_static c w = (w2, Fulfilled (VRef (target c))) /\
            w_log w2 = w_log w1 /\
            elems (deref (w_heap w2) (target c))
              = elems (deref (w_heap w1) (target c))
                ++ map VRef (seq (length (w_heap w1)) (length (elems (deref (w_heap w1) d)))) /\
            (forall i item,
                elems (deref (w_heap w1) d) !! i = Some item ->
                deref (w_heap w2) (length (w_heap w1) + i) = wrapperOf (w_heap wf) item) /\
            (forall x, x < length (w_heap w1) -> x <> target c ->
                       deref (w_heap w2) x = deref (w_heap w1) x)) /\
      (isNullish data = false -> isArray (w_heap w1) data = false ->
       settle_static c w = (wf, Rejected (Thrown (ExpectedArrayError name)))) /\
      (isNullish data = true ->
       settle_static c w = (wf, Fulfilled (VRef (target c))))).
Proof.
  split.
  - intros arguments w c w' Hs Hb H.
    apply static_fetch_inv in H as (p & w2 & Ht & E & Hc & ->); try done.
    pose proof E as E'.
    apply performAction_inv in E' as (cfg & up & qp & E' & _).
    apply requestConfig_frame in E' as (_ & _ & Hp & _). cbn [w_heap] in *.
    pose proof (prefix_length _ _ Hp) as Hl2. rewrite length_app in Hl2. simpl in Hl2.
    assert (deref (w_heap w2) (target c) = empty_array) as Harr.
    { rewrite (prefix_deref _ _ _ Hp) by (rewrite length_app; simpl; lia).
      rewrite Ht. apply deref_alloc_new. }
    split; [done|]. split; [by rewrite Hc|]. split; [|split; [|split]].
    + unfold attached. rewrite !okind_set_prop, deref_alloc_old by lia. by rewrite Harr.
    + rewrite elems_attached by lia. by rewrite Harr.
    + apply get_prop_attached_flag. lia.
    + exists p, w2. split; [done|]. by rewrite Hc.
  - intros c w w1 data Hs Hb Hperf wf. subst wf.
    assert (settle_static c w
            = thenM (update_array (target c) (pushNewResource (target c)))
                    (World (delete_prop (target c) "$$unresolved" (w_heap w1)) (w_log w1),
                     Fulfilled data)) as Hsettle.
    { unfold settleStatic. by rewrite Hs, Hb, Hperf, finally_clears. }
    rewrite Hsettle. unfold thenM, updateResourceArray. rewrite Hb. cbn [andb].
    split; [|split].
    + intros d -> Hk Hdt Ht Hd Hitems.
      cbn [isDefined isUndefined isNull negb andb]. mstep.
      rewrite isArray_delete_prop. unfold isArray. rewrite bool_decide_eq_true_2 by done.
      unfold forEach. mstep. rewrite elems_delete_prop.
      destruct (push_loop (length (elems (deref (w_heap w1) d))) 0
                  (delete_prop (target c) "$$unresolved" (w_heap w1)) (w_log w1)
                  d (target c) (elems (deref (w_heap w1) d)))
        as (h' & E & Hlen' & _ & _ & He & Hout & Hw); try done;
        rewrite ?length_delete_prop; try done.
      { apply elems_delete_prop. }
      rewrite E. eexists. split; [reflexivity|]. cbn [w_heap w_log].
      rewrite length_delete_prop, elems_delete_prop in He.
      split; [done|]. split; [exact He|]. split.
      * intros i item Hi. rewrite length_delete_prop in Hw. by apply (Hw i item).
      * intros x Hx Hxt. rewrite length_delete_prop in Hout.
        rewrite Hout by done. by apply deref_delete_prop_ne.
    + intros Hnn Harr. unfold isNullish in Hnn. apply orb_false_elim in Hnn as [Hu Hn].
      unfold isDefined. rewrite Hu, Hn. cbn [negb andb]. mstep.
      by rewrite isArray_delete_prop, Harr.
    + intros Hnn. unfold isNullish in Hnn. unfold isDefined.
      destruct data; try discriminate; reflexivity.
Qed.

(** X11: the pipeline of one request, read off the log.  The request loop
    runs first and only logs handlers of interceptors below the limit that
    exist and declare that handler, each interceptor at most once and in
    increasing order; the transport is called exactly once, with what the
    request loop fulfilled with, and not at all when it rejected (then
    [rawResponse] stays undefined); the response loop follows, under the same
    discipline. *)
Theorem pipeline_events config limit w :
  let p1 := throughRequestInterceptors instancedInterceptors (w, Fulfilled config) limit in
  let r := response_phase config limit w in
  exists reqs resps,
    w_log (fst p1) = w_log w ++ reqs /\
    w_log (fst (fst r))
    = w_log w ++ reqs
      ++ match snd p1 with Fulfilled cfg => [Transport cfg] | Rejected _ => [] end
      ++ resps /\
    Forall (requestEventOf instancedInterceptors limit) reqs /\
    StronglySorted lt (omap requestEventIndex reqs) /\
    Forall (responseEventOf instancedInterceptors limit) resps /\
    StronglySorted lt (omap responseEventIndex resps) /\
    snd r = match snd p1 with
            | Fulfilled cfg =>
                match snd (http cfg (w_heap (fst p1))) with
                | Fulfilled response => response
                | Rejected _ => VUndef
                end
            | Rejected _ => VUndef
            end.
Proof.
  intros p1 r. subst p1 r. unfold responsePhase, throughRequestInterceptors,
    throughResponseInterceptors.
  destruct (requestLoop_log (take limit instancedInterceptors) 0 (w, Fulfilled config))
    as (reqs & Hlog1 & Hall1 & Hsort1 & _).
  set (p1 := requestLoop 0 (take limit instancedInterceptors) (w, Fulfilled config)) in *.
  destruct (responseLoop_log (take limit instancedInterceptors) 0 (fst (transport http p1)))
    as (resps & Hlog2 & Hall2 & Hsort2 & _).
  exists reqs, resps. cbn [fst w_log] in Hlog1.
  destruct (transport http p1) as [p2 raw] eqn:Et. cbn [fst snd] in *.
  split; [done|]. split; [|split; [|split; [done|split; [|split; [done|]]]]].
  - rewrite Hlog2. rewrite !app_assoc. f_equal. rewrite <- Hlog1.
    unfold transport in Et. destruct p1 as [w1 [cfg|rs]]; cbn [fst snd] in *.
    + injection Et as <- _. unfold callback. by destruct (http cfg (w_heap w1)).
    + injection Et as <- _. by rewrite app_nil_r.
  - eapply Forall_impl; [exact Hall1|]. intros ev (j & x & Hj & Hev).
    apply lookup_take_Some in Hj as [Hj Hlt]. by exists j, x.
  - eapply Forall_impl; [exact Hall2|]. intros ev (j & x & Hj & Hev).
    apply lookup_take_Some in Hj as [Hj Hlt]. by exists j, x.
  - unfold transport in Et. destruct p1 as [w1 [cfg|rs]]; cbn [fst snd] in *.
    + injection Et as _ <-. unfold callback. by destruct (http cfg (w_heap w1)).
    + by injection Et as _ <-.
Qed.



Lemma entryValue_without_data args h k str :
  str = "=" \/ (exists path, str = "@" +:+ path /\ digits_prefix path = EmptyString) ->
  isNullish (entryValue args VNull h (k, PValue (VStr str))) = true.
Proof.
  intros [->|(path & -> & Hp)]; unfold entryValue, mapped, produced; cbn [fst snd truthy].
  - reflexivity.
  - rewrite extract_data_path by done. by rewrite lookupDottedPath_nullish.
Qed.

(** X9: a static call of an action without a body hands [null] as data to
    the extractor, so an entry of its [params] or [queryParams] map that is
    the mapper ["="], or ["@path"] with a path that does not begin with a
    digit, never resolves: the map counts as having a missing parameter, and
    with [skipOnMissingParams] such a call, when it returns, has skipped its
    request. *)
Theorem static_without_body_data_mappers es k str arguments w c w' :
  has_body = false ->
  enabled (Action.skipOnMissingParams the_action) = true ->
  Action.params the_action = Some (PMap es) \/ Action.queryParams the_action = Some (PMap es) ->
  NoDup (map fst es) -> "$$missing" ∉ map fst es ->
  (k, PValue (VStr str)) ∈ es ->
  str = "=" \/ (exists path, str = "@" +:+ path /\ digits_prefix path = EmptyString) ->
  static_call arguments w = Ok c w' ->
  outstanding c = Skipped.
Proof.
  intros Hb Hskip Hmap Hnd Hno Hin Hstr H.
  apply static_performs in H as (w1 & p & w2 & _ & _ & _ & E & -> & _).
  rewrite Hb in E. cbn [outstanding].
  apply performAction_inv in E as (cfg & up & qp & E & ->). rewrite Hskip. cbn [andb].
  set (v := entryValue arguments VNull [] (k, PValue (VStr str))).
  assert (forall h', entryValue (drop 0 arguments) VNull h' (k, PValue (VStr str)) = v) as Hval.
  { intros h'. rewrite drop_0. unfold v, entryValue, mapped, produced. cbn [fst snd truthy].
    destruct Hstr as [->|(path & -> & Hp)]; [done|].
    rewrite !extract_data_path by done. by rewrite !lookupDottedPath_nullish. }
  assert (isNullish v = true) as Hv by (by apply entryValue_without_data).
  destruct (requestConfig_entry actionsDefaults replace resourceConfig name definition
              es VNull (drop 0 arguments) w1 cfg up qp w2 k (PValue (VStr str)) v E Hnd Hin)
    as [Hup Hqp]; [intros h' _; apply Hval|].
  destruct Hmap as [Hm|Hm].
  - destruct (Hup Hm) as (l & -> & _ & Hent).
    by rewrite (extractedEntry_missing _ _ _ _ _ Hent Hv Hno).
  - destruct (Hqp Hm) as (l & -> & _ & Hent).
    rewrite (extractedEntry_missing _ _ _ _ _ Hent Hv Hno). by rewrite orb_true_r.
Qed.

(** X14: an instance call that returns.  It returns a new promise object,
    the very one it has stored as [$promise] of the wrapper it was called on,
    and has set [$$unresolved] on that wrapper; the other members of the
    wrapper and every other object that existed are as before, and nothing
    is logged; the request was prepared from [$unwrap()] of the wrapper as
    data and all the call arguments.  When the promise of the invoker is
    later fulfilled with [data], the flag is deleted and, unless the action
    carries a body and sets [ignoreResponse], [data] is merged into the
    wrapper, with which the promise of the call is fulfilled. *)
Theorem instance_call_lifecycle this arguments w c w' :
  this < length (w_heap w) -> okind (deref (w_heap w) this) = KObject ->
  instance_call this arguments w = Ok c w' ->
  target c = this /\
  (exists p, returned c = VRef p /\ length (w_heap w) <= p /\
             w_heap w' !! p = Some promise_object /\
             get_prop (w_heap w') (VRef this) "$promise" = VRef p) /\
  get_prop (w_heap w') (VRef this) "$$unresolved" = VBool true /\
  (forall k, k <> "$promise" -> k <> "$$unresolved" ->
             get_prop (w_heap w') (VRef this) k = get_prop (w_heap w) (VRef this) k) /\
  (forall x, x < length (w_heap w) -> x <> this ->
             deref (w_heap w') x = deref (w_heap w) x) /\
  w_log w' = w_log w /\
  (exists data w1 w2,
      unwrap invoke this w = Ok data w1 /\
      perform_action data arguments w1 = Ok (outstanding c) w2) /\
  (forall ws w1 data,
      settle_perform (outstanding c) ws = (w1, Fulfilled data) ->
      has_body && enabled (Action.ignoreResponse the_action) = false ->
      settle_instance c ws
      = (World (merge this data (delete_prop this "$$unresolved" (w_heap w1))) (w_log w1),
         Fulfilled (VRef this))).
Proof.
  intros Hl Hk H.
  apply instance_inv in H as (data & w1 & p & w2 & _ & Eu & E & -> & ->).
  pose proof (unwrap_frame _ _ _ _ _ Eu) as [Hlg1 Hp1].
  pose proof E as E'. apply performAction_inv in E' as (cfg & up & qp & E' & _).
  apply requestConfig_frame in E' as (_ & Hlg2 & Hp2 & _).
  pose proof (prefix_length _ _ Hp1) as Hl1. pose proof (prefix_length _ _ Hp2) as Hl2.
  assert (forall x, x < length (w_heap w) -> deref (w_heap w2) x = deref (w_heap w) x) as Hsame.
  { intros x Hx. rewrite (prefix_deref _ _ _ Hp2) by lia. by apply prefix_deref. }
  cbn [target returned outstanding w_heap w_log].
  split; [done|]. split; [|split; [|split; [|split; [|split; [|split]]]]].
  - exists (length (w_heap w2)). split; [done|]. split; [lia|].
    split; [apply lookup_attached_promise; lia|].
    apply get_prop_attached_promise; [lia|]. by rewrite Hsame.
  - apply get_prop_attached_flag. lia.
  - intros k Hkp Hku. rewrite get_prop_attached_data; [|lia|by rewrite Hsame|done|done].
    unfold get_prop. by rewrite Hsame.
  - intros x Hx Hne. rewrite deref_attached_other by (done || lia). by apply Hsame.
  - congruence.
  - by exists data, w1, w2.
  - intros ws w3 d Hperf Hig. unfold settleInstance. cbn [outstanding target].
    rewrite Hperf, finally_clears. cbn [fst snd w_heap w_log].
    unfold thenM, updateResource. rewrite Hig. unfold mbind, M_bind.
    rewrite Resource_merge. reflexivity.
Qed.

Lemma configHolds_alloc h0 o0 k :
  okind o0 = KObject -> configHolds h0 k (get_object o0 k) (h0 ++ [o0]).
Proof.
  intros Hk. unfold configHolds. rewrite length_app. simpl.
  split; [by apply prefix_app_r|]. split; [lia|].
  unfold get_prop. by rewrite deref_alloc_new.
Qed.

Lemma configHolds_set_prop h0 k v h k' v' :
  k' <> k -> configHolds h0 k v h -> configHolds h0 k v (set_prop (length h0) k' v' h).
Proof.
  intros Hne (Hp & Hl & Hk & Hm). unfold configHolds.
  rewrite length_set_prop, okind_set_prop.
  split; [by apply prefix_store|]. split; [done|]. split; [done|].
  by rewrite get_prop_set_prop_ne.
Qed.

Lemma configHolds_set_prop_eq h0 k v v0 h :
  configHolds h0 k v0 h -> configHolds h0 k v (set_prop (length h0) k v h).
Proof.
  intros (Hp & Hl & Hk & Hm). unfold configHolds.
  rewrite length_set_prop, okind_set_prop.
  split; [by apply prefix_store|]. split; [done|]. split; [done|].
  by apply get_prop_set_prop_eq.
Qed.

Lemma configHolds_prefix h0 k v h h' :
  h `prefix_of` h' -> configHolds h0 k v h -> configHolds h0 k v h'.
Proof.
  intros Hp (Hp0 & Hl & Hk & Hm). unfold configHolds.
  pose proof (prefix_length _ _ Hp).
  split; [by etrans|]. split; [lia|].
  unfold get_prop in *. rewrite (prefix_deref h h') by done. done.
Qed.

Lemma requestConfig_holds data args w r w' k :
  request_config data args w = Ok r w' ->
  k <> "url" -> k <> "params" ->
  configHolds (w_heap w) k
    (if has_body && String.eqb k "data" then data
     else get_object (extend (Obj KObject [] [("method", methodValue actionsDefaults name definition)] false)
                             (Config_props resourceConfig)) k)
    (w_heap w').
Proof.
  intros H Hu Hp. revert H. unfold requestConfig. mstep.
  set (o0 := extend _ _).
  assert (okind o0 = KObject) as Hk0 by (unfold o0; by rewrite extend_object).
  pose proof (configHolds_alloc (w_heap w) o0 k Hk0) as Hc.
  assert (forall b, b = true ->
            configHolds (w_heap w) k (if b && String.eqb k "data" then data else get_object o0 k)
                        (set_prop (length (w_heap w)) "data" data (w_heap w ++ [o0]))) as Hd.
  { intros b ->. cbn [andb]. destruct (String.eqb_spec k "data") as [->|Hne].
    - eapply configHolds_set_prop_eq, Hc.
    - apply configHolds_set_prop; [congruence|exact Hc]. }
  destruct has_body; destruct (withSubRoute _ _); mstep;
    (match goal with |- context [extractParams _ args data ?w1] =>
       destruct (extractParams (Action.params the_action) args data w1) as [up w2|] eqn:E1; [|done] end;
     match goal with |- context [extractParams (Action.queryParams _) args data ?w1] =>
       destruct (extractParams (Action.queryParams the_action) args data w1) as [qp w3|] eqn:E2; [|done] end;
     intros [= <- <-]; cbn [w_heap];
     apply extractParams_frame in E1 as [_ Hp1]; apply extractParams_frame in E2 as [_ Hp2];
     cbn [w_heap] in Hp1, Hp2;
     apply configHolds_set_prop; [congruence|];
     (eapply configHolds_prefix; [exact Hp2|]);
     apply configHolds_set_prop; [congruence|];
     (eapply configHolds_prefix; [exact Hp1|]);
     repeat (apply configHolds_set_prop; [congruence|]);
     first [by apply Hd | exact Hc]).
Qed.

Lemma requestConfig_url data args w cfg up qp w' :
  request_config data args w = Ok (cfg, up, qp) w' ->
  exists h2,
    w_heap w `prefix_of` h2 /\
    get_prop (w_heap w') (VRef cfg) "url"
    = VStr (replaceUrlParams replace h2
              (default (url resourceConfig)
                       (withSubRoute (url resourceConfig) (Action.subRoute the_action))) up).
Proof.
  unfold requestConfig. mstep.
  set (o0 := extend _ _).
  assert (okind o0 = KObject) as Hk0 by (unfold o0; by rewrite extend_object).
  pose proof (configHolds_alloc (w_heap w) o0 "url" Hk0) as Hc.
  destruct has_body; destruct (withSubRoute _ _); mstep;
    (match goal with |- context [extractParams _ args data ?w1] =>
       destruct (extractParams (Action.params the_action) args data w1) as [up' w2|] eqn:E1; [|done] end;
     match goal with |- context [extractParams (Action.queryParams _) args data ?w1] =>
       destruct (extractParams (Action.queryParams the_action) args data w1) as [qp' w3|] eqn:E2; [|done] end;
     intros [= <- <- <- <-]; cbn [w_heap];
     apply extractParams_frame in E1 as [_ Hp1]; apply extractParams_frame in E2 as [_ Hp2];
     cbn [w_heap] in Hp1, Hp2;
     exists (w_heap w2);
     match type of Hp1 with ?h1 `prefix_of` _ =>
       assert (exists v0, configHolds (w_heap w) "url" v0 h1) as [v0 Hc1]
         by (eexists; repeat first [exact Hc | eapply configHolds_set_prop_eq
                                   | apply configHolds_set_prop; [done|] ]) end;
     pose proof (configHolds_prefix _ _ _ _ _ Hp1 Hc1) as Hc2;
     split; [destruct Hc2 as (? & _); done|];
     match goal with |- get_prop _ _ _ = ?v =>
       assert (configHolds (w_heap w) "url" v
                 (set_prop (length (w_heap w)) "params" qp' (w_heap w3))) as (_ & _ & _ & Hg);
       [|exact Hg] end;
     apply configHolds_set_prop; [done|];
     (eapply configHolds_prefix; [exact Hp2|]);
     eapply configHolds_set_prop_eq; exact Hc2).
Qed.

(** X18: what the request configuration holds when [performAction] has
    prepared it.  It is the object allocated first; every member other than
    [data], [url] and [params] is as in [extend({method: action.method},
    resourceConfig)], so the settings of the resource configuration, its
    [interceptorLimit] included, reach the transport unchanged, and a
    [method] among them replaces the one of the action; [data] is the data
    of the call when the action carries a body and otherwise what the resource
    configuration had, if anything; [params] is always the extracted query
    parameters, whatever the resource configuration had; [url] is a string,
    the url of the resource configuration followed by the sub-route, with the
    path parameters replaced in it, hence exactly that when the action
    declares no [params]. *)
Theorem request_configuration_members data args w cfg up qp w' :
  request_config data args w = Ok (cfg, up, qp) w' ->
  let base := extend (Obj KObject [] [("method", methodValue actionsDefaults name definition)] false)
                     (Config_props resourceConfig) in
  let url1 := default (url resourceConfig)
                      (withSubRoute (url resourceConfig) (Action.subRoute the_action)) in
  cfg = length (w_heap w) /\
  (forall k, k <> "data" -> k <> "url" -> k <> "params" ->
             get_prop (w_heap w') (VRef cfg) k = get_object base k) /\
  (forall k v, NoDup (map fst (Config_props resourceConfig)) ->
               own (Config_props resourceConfig) k = Some v ->
               k <> "data" -> k <> "url" -> k <> "params" ->
               get_prop (w_heap w') (VRef cfg) k = v) /\
  get_prop (w_heap w') (VRef cfg) "data" = (if has_body then data else get_object base "data") /\
  get_prop (w_heap w') (VRef cfg) "params" = qp /\
  (exists h2, w_heap w `prefix_of` h2 /\
              get_prop (w_heap w') (VRef cfg) "url" = VStr (replaceUrlParams replace h2 url1 up)) /\
  (Action.params the_action = None ->
   up = VNull /\ get_prop (w_heap w') (VRef cfg) "url" = VStr url1).
Proof.
  intros H base url1.
  pose proof (requestConfig_frame _ _ _ _ _ _ _ _ _ _ _ _ H) as (Hcfg & _ & _ & _ & _ & Hqp & _).
  assert (forall k, k <> "url" -> k <> "params" ->
            get_prop (w_heap w') (VRef cfg) k
            = if has_body && String.eqb k "data" then data else get_object base k) as Hholds.
  { intros k Hu Hp. destruct (requestConfig_holds _ _ _ _ _ k H Hu Hp) as (_ & _ & _ & Hg).
    by rewrite Hcfg. }
  assert (forall k, k <> "data" -> k <> "url" -> k <> "params" ->
             get_prop (w_heap w') (VRef cfg) k = get_object base k) as Hother.
  { intros k Hd Hu Hp. rewrite Hholds by done. apply String.eqb_neq in Hd. rewrite Hd.
    by rewrite andb_false_r. }
  destruct (requestConfig_url _ _ _ _ _ _ _ H) as (h2 & Hp1 & Hurl).
  split; [done|]. split; [done|]. split; [|split; [|split; [done|split]]].
  - intros k v Hnd Hown Hd Hu Hp. rewrite Hother by done.
    apply get_object_own; [unfold base; by rewrite extend_object|].
    unfold base. rewrite extend_object by done. cbn [oprops].
    by apply own_fold_assign.
  - rewrite Hholds by done. cbn [String.eqb]. by rewrite andb_true_r.
  - by exists h2.
  - intros Hnone. assert (up = VNull) as ->.
    { apply requestConfig_inv in H as (h1 & up' & w2 & url2 & qp' & w3 & _ & E1 & _ & [= _ <- _] & _).
      rewrite Hnone in E1. by injection E1 as <- _. }
    split; [done|]. by rewrite Hurl.
Qed.

(** X17: parameters that have no placeholder in the url leave it as it is.
    For a host [replace] that returns a string in which the pattern does not
    occur unchanged, [replaceUrlParams] returns the url itself when no own
    key [k] of the parameters occurs in it as [:k]; the values of such keys
    are dropped. *)
Theorem replaceUrlParams_without_placeholders h url0 params :
  (forall h' s pattern v, occurs pattern s = false -> replace h' s pattern v = s) ->
  (forall l k v, params = VRef l -> (k, v) ∈ own_enumerable (deref h l) ->
                 occurs (":" +:+ k) url0 = false) ->
  replaceUrlParams replace h url0 params = url0.
Proof.
  intros Hreplace Hkeys. unfold replaceUrlParams. destruct params as [| | | | | |l]; try done.
  specialize (Hkeys l). revert Hkeys.
  generalize (own_enumerable (deref h l)). intros ps Hkeys.
  induction ps as [|[k v] ps IH]; [done|]. cbn [fold_left fst snd].
  rewrite Hreplace by (apply (Hkeys k v eq_refl), elem_of_cons; by left).
  apply IH. intros k' v' _ Hin. apply (Hkeys k' v' eq_refl), elem_of_cons. by right.
Qed.

End MoreMethodFacts.

(** ** The further properties on concrete calls *)

Lemma lookupDottedPath_composes_witness :
  lookupDottedPath Scenario.store0 VNull "a.b" = VUndef /\
  lookupDottedPath Scenario.store0 (VRef 0) "a" = get_prop Scenario.store0 (VRef 0) "a".
Proof.
  split.
  - exact (proj1 (proj2 lookupDottedPath_composes) Scenario.store0 VNull "a.b" eq_refl).
  - exact (proj2 (proj2 lookupDottedPath_composes) Scenario.store0 (VRef 0) "a" eq_refl eq_refl).
Defined.

Lemma extract_from_data_witness :
  extract Scenario.store0 [] (VRef 0) "@a" VUndef = lookupDottedPath Scenario.store0 (VRef 0) "a" /\
  extract Scenario.store0 [] (VRef 0) "constant" VUndef = VStr "constant".
Proof.
  split.
  - exact (proj1 extract_from_data Scenario.store0 [] (VRef 0) VUndef "a" eq_refl).
  - apply (proj2 extract_from_data Scenario.store0 [] (VRef 0) VUndef "constant");
      intros H; vm_compute in H; discriminate H.
Defined.

Lemma extractParams_of_a_string_witness :
  extractParams (Some (PString "constant")) [] (VRef 0) (World Scenario.store0 [])
  = Throw (ExpectedTypeError "Params for http request" "Object") (World Scenario.store0 []) /\
  extractParams (Some (PString "@id")) [] VNull (World Scenario.store0 [])
  = Throw (ExpectedTypeError "Params for http request" "Object") (World Scenario.store0 []).
Proof.
  split.
  - apply (proj1 (proj2 (proj2 extractParams_of_a_string)) [] (VRef 0)
             (World Scenario.store0 []) "constant");
      intros H; vm_compute in H; discriminate H.
  - exact (proj2 (proj2 (proj2 extractParams_of_a_string)) [] (World Scenario.store0 []) "id"
             eq_refl).
Defined.

Lemma unwrap_wrapped_array_witness :
  exists r w1,
    new_Resource (VRef 3) (World Scenario.store0 []) = Ok r w1 /\
    get_prop (w_heap w1) (VRef r) "$$length" = VNum 3 /\
    exists d w2,
      unwrap Scenario.invoke r w1 = Ok (VRef d) w2 /\
      w_heap w2 = w_heap w1 ++ [Scenario.array [VRef 0; VRef 1; VRef 2]].
Proof.
  destruct (unwrap_wrapped_array Scenario.invoke Scenario.store0 [] 3
              [VRef 0; VRef 1; VRef 2] eq_refl)
    as (r & w1 & Hnew & _ & Hlen & _ & (d & w2 & Hu & _ & Hh) & _).
  exists r, w1. split; [exact Hnew|]. split; [exact Hlen|].
  exists d, w2. split; [exact Hu|exact Hh].
Defined.

Lemma factory_configuration_witness :
  ResourceFactory Cases.limited "/api" Cases.twoInterceptors "/user" (VRef 0)
  = inr Cases.limitedMerged /\
  exists z, get_object Cases.limitedMerged "interceptorLimit" = VNum z /\ (z <= 2)%Z.
Proof.
  assert (ResourceFactory Cases.limited "/api" Cases.twoInterceptors "/user" (VRef 0)
          = inr Cases.limitedMerged) as E by (vm_compute; reflexivity).
  split; [exact E|].
  assert (forall c, VRef 0 = VRef c ->
            NoDup (map fst (own_enumerable (deref Cases.limited c)))) as Hnd.
  { intros c [= <-]. cbn. apply NoDup_cons. split.
    - intros H. apply list_elem_of_singleton in H. discriminate H.
    - apply NoDup_singleton. }
  pose proof (factory_configuration Cases.limited "/api" Cases.twoInterceptors "/user"
                (VRef 0) Hnd) as H.
  cbv zeta in H. rewrite E in H.
  destruct H as (_ & _ & _ & (z & Hz & Hle & _) & _).
  exists z. split; [exact Hz|exact Hle].
Defined.


Lemma static_call_without_body_witness :
  exists m,
    Action.method (action Scenario.noDefaults "save" Scenario.saveAt2) = Some m /\
    static Scenario.noDefaults Scenario.replace Scenario.userConfig "save" Scenario.saveAt2
           [] (World Scenario.store0 [])
    = Throw (MissingBodyError "save" m) (World Scenario.store0 []).
Proof.
  exact (static_call_without_body Scenario.noDefaults Scenario.replace Scenario.userConfig
           "save" Scenario.saveAt2 [] (World Scenario.store0 [])
           ltac:(vm_compute; reflexivity) ltac:(vm_compute; reflexivity)).
Defined.

Lemma static_collection_body_must_be_array_witness :
  static Scenario.noDefaults Scenario.replace Scenario.userConfig "saveAll" Scenario.saveAll
         [VRef 0] (World Scenario.store0 [])
  = Throw (ExpectedArrayError "saveAll") (World Scenario.store0 []).
Proof.
  exact (static_collection_body_must_be_array Scenario.noDefaults Scenario.replace
           Scenario.userConfig "saveAll" Scenario.saveAll [VRef 0] (World Scenario.store0 [])
           ltac:(vm_compute; reflexivity) ltac:(vm_compute; reflexivity)
           ltac:(vm_compute; reflexivity) ltac:(vm_compute; reflexivity)).
Defined.

Lemma each_maps_static_calls_witness :
  each Scenario.noDefaults Scenario.replace Scenario.userConfig "save" Scenario.saveAt2
       (VNum 1) (World Scenario.store0 [])
  = Throw (ExpectedTypeError "Argument for action save.each" "Array") (World Scenario.store0 []) /\
  length (fst Cases.saveEach) = 3 /\
  NoDup (map target (fst Cases.saveEach)) /\
  w_log (snd Cases.saveEach) = [].
Proof.
  split.
  - exact (proj1 (each_maps_static_calls Scenario.noDefaults Scenario.replace
                    Scenario.userConfig "save" Scenario.saveAt2)
                 (VNum 1) (World Scenario.store0 []) eq_refl).
  - destruct (proj2 (each_maps_static_calls Scenario.noDefaults Scenario.replace
                       Scenario.userConfig "save" Scenario.saveAt2)
                    3 (World Scenario.store0 []) (fst Cases.saveEach) (snd Cases.saveEach)
                    eq_refl ltac:(vm_compute; reflexivity))
      as (_ & Hlen & Hnd & _ & Hlog).
    split; [exact Hlen|]. split; [exact Hnd|exact Hlog].
Defined.

Lemma collection_fetch_witness :
  returned (fst Cases.listCalled) = VRef 12 /\
  elems (deref (w_heap (snd Cases.listCalled)) 12) = [] /\
  exists w2,
    settleStatic Scenario.noDefaults [] (Scenario.respondWith 9) "list" Cases.listAll
                 (fst Cases.listCalled) (snd Cases.listCalled)
    = (w2, Fulfilled (VRef 12)) /\
    elems (deref (w_heap w2) 12) = [VRef 15; VRef 16; VRef 17; VRef 18].
Proof.
  destruct (proj1 (collection_fetch Scenario.noDefaults [] (Scenario.respondWith 9)
                     Scenario.replace Scenario.userConfig "list" Cases.listAll)
                  [] (World Scenario.store0 []) (fst Cases.listCalled) (snd Cases.listCalled)
                  ltac:(vm_compute; reflexivity) ltac:(vm_compute; reflexivity)
                  ltac:(vm_compute; reflexivity))
    as (_ & Hret & _ & Helems & _).
  split; [exact Hret|]. split; [exact Helems|].
  destruct (proj2 (collection_fetch Scenario.noDefaults [] (Scenario.respondWith 9)
                     Scenario.replace Scenario.userConfig "list" Cases.listAll)
                  (fst Cases.listCalled) (snd Cases.listCalled) (fst Cases.listResponded)
                  (VRef 8)
                  ltac:(vm_compute; reflexivity) ltac:(vm_compute; reflexivity)
                  ltac:(vm_compute; reflexivity))
    as (Harray & _).
  destruct (Harray 8 eq_refl ltac:(vm_compute; reflexivity)) as (w2 & Hsettle & _ & He & _).
  - cbn. lia.
  - cbn. lia.
  - cbn. lia.
  - intros item Hin. cbn in Hin.
    repeat (apply elem_of_cons in Hin as [->|Hin]; [split; [cbn; lia|discriminate]|]).
    by apply elem_of_nil in Hin.
  - exists w2. split; [exact Hsettle|exact He].
Defined.

Lemma static_without_body_data_mappers_witness :
  outstanding (fst Scenario.findCalled) = Skipped.
Proof.
  apply (static_without_body_data_mappers Scenario.noDefaults Scenario.replace
           Scenario.userConfig "find" Scenario.find
           [("id", PValue (VStr "@id"))] "id" "@id" [VRef 0] (World [Scenario.plain []] [])
           (fst Scenario.findCalled) (snd Scenario.findCalled)).
  - vm_compute; reflexivity.
  - vm_compute; reflexivity.
  - left. vm_compute; reflexivity.
  - apply NoDup_singleton.
  - intros H. apply list_elem_of_singleton in H. discriminate H.
  - apply elem_of_cons. by left.
  - right. exists "id". split; reflexivity.
  - vm_compute; reflexivity.
Defined.

Lemma instance_call_lifecycle_witness :
  target (fst Cases.getInstanceCalled) = 0 /\
  (exists p, returned (fst Cases.getInstanceCalled) = VRef p /\
             get_prop (w_heap (snd Cases.getInstanceCalled)) (VRef 0) "$promise" = VRef p) /\
  get_prop (w_heap (snd Cases.getInstanceCalled)) (VRef 0) "$$unresolved" = VBool true.
Proof.
  destruct (instance_call_lifecycle Scenario.noDefaults [] Scenario.respondAnn Scenario.replace Scenario.invoke
              Scenario.userConfig "get" Scenario.getQuiet 0 [] (World Cases.wrapped [])
              (fst Cases.getInstanceCalled) (snd Cases.getInstanceCalled)
              ltac:(cbn; lia) ltac:(vm_compute; reflexivity) ltac:(vm_compute; reflexivity))
    as (Ht & (p & Hr & _ & _ & Hp) & Hf & _).
  split; [exact Ht|]. split; [|exact Hf]. exists p. split; [exact Hr|exact Hp].
Defined.

Lemma request_configuration_members_witness :
  get_prop (w_heap (snd Scenario.findConfigured))
           (VRef (fst (fst (fst Scenario.findConfigured)))) "interceptorLimit" = VNum 0 /\
  get_prop (w_heap (snd Scenario.findConfigured))
           (VRef (fst (fst (fst Scenario.findConfigured)))) "params"
  = snd (fst Scenario.findConfigured).
Proof.
  destruct (request_configuration_members Scenario.noDefaults Scenario.replace
              Scenario.userConfig "find" Scenario.find VNull [VRef 0]
              (World [Scenario.plain []] [])
              (fst (fst (fst Scenario.findConfigured))) (snd (fst (fst Scenario.findConfigured)))
              (snd (fst Scenario.findConfigured)) (snd Scenario.findConfigured)
              ltac:(vm_compute; reflexivity))
    as (_ & _ & Hgiven & _ & Hparams & _).
  split; [|exact Hparams].
  apply Hgiven; try discriminate; [|reflexivity].
  cbn. apply NoDup_cons. split.
  - intros H. apply list_elem_of_singleton in H. discriminate H.
  - apply NoDup_singleton.
Defined.

Lemma replaceFirst_absent pattern replacement s :
  occurs pattern s = false -> Scenario.replaceFirst pattern replacement s = s.
Proof.
  induction s as [|c s IH]; intros H.
  - cbn [occurs] in H. apply orb_false_elim in H as [Hp _].
    cbn [Scenario.replaceFirst]. by rewrite Hp.
  - cbn [occurs] in H. apply orb_false_elim in H as [Hp Hs].
    cbn [Scenario.replaceFirst]. rewrite Hp. by rewrite IH.
Qed.

Lemma replaceUrlParams_without_placeholders_witness :
  replaceUrlParams Scenario.replace Cases.wrapped "/api/user" (VRef 0) = "/api/user".
Proof.
  apply replaceUrlParams_without_placeholders.
  - intros h' s pattern v H. by apply replaceFirst_absent.
  - intros l k v [= <-] Hin. cbn in Hin. apply list_elem_of_singleton in Hin.
    injection Hin as -> _. reflexivity.
Defined.

Lemma verifyAction_normalises_witness :
  verifyAction Cases.toString (VNum 1) "get" (World Cases.definitions [])
  = Throw (ExpectedTypeError "Options for action get" "Object") (World Cases.definitions []) /\
  verified (w_heap Cases.definitionsVerified) 0 /\
  get_prop (w_heap Cases.definitionsVerified) (VRef 0) "subRoute" = VStr "7".
Proof.
  split.
  - exact (proj1 (verifyAction_normalises Cases.toString) (VNum 1) "get"
                 (World Cases.definitions []) eq_refl).
  - destruct (proj1 (proj2 (verifyAction_normalises Cases.toString)) 0 "get"
                    (World Cases.definitions []) Cases.definitionsVerified
                    ltac:(vm_compute; reflexivity))
      as (Hv & _).
    split; [exact Hv|reflexivity].
Defined.

Lemma verifyActions_verifies_witness :
  verifyActions Cases.toString Cases.keysOf (VStr "get") (World Cases.definitions [])
  = Throw (ExpectedTypeError "Argument actions" "Object") (World Cases.definitions []) /\
  exists a, get_prop (w_heap Cases.definitionsVerified) (VRef 1) "get" = VRef a /\
            verified (w_heap Cases.definitionsVerified) a.
Proof.
  split.
  - exact (proj1 (verifyActions_verifies Cases.toString Cases.keysOf) (VStr "get")
                 (World Cases.definitions []) eq_refl).
  - destruct (proj2 (verifyActions_verifies Cases.toString Cases.keysOf) 1
                    (World Cases.definitions []) Cases.definitionsVerified)
      as (_ & _ & Hall).
    + intros k Hk. cbn in Hk. apply list_elem_of_singleton in Hk. subst k. discriminate.
    + vm_compute; reflexivity.
    + apply Hall. cbn. apply list_elem_of_singleton. reflexivity.
Defined.
